(** * Vector.ts of vectorious: a shallow embedding and its properties

    The development follows [src/Vector.ts].  A JavaScript number is an
    IEEE 754 binary64 value; it is modelled by [spec_float], the
    executable specification of floating-point arithmetic of the Standard
    Library, at precision 53 and maximal exponent 1024.  A typed array is
    the list of its elements, a [Vector] object is the record of its three
    fields, and a method is a function from the receiver (and its
    arguments) to the receiver it leaves behind, or to the exception it
    throws. *)

From Stdlib Require Import ZArith Lia Bool String.
From Stdlib Require Import Floats.SpecFloat.
From stdpp Require Import base option list gmap.

Local Open Scope Z_scope.

(** ** JavaScript numbers *)

Module Num.

Definition prec : Z := 53.
Definition emax : Z := 1024.

Definition number : Type := spec_float.

Definition NaN : number := S754_nan.
Definition POSITIVE_INFINITY : number := S754_infinity false.
Definition NEGATIVE_INFINITY : number := S754_infinity true.

(** The number [m * 2^e], rounded to nearest even. *)
Definition dyadic (m e : Z) : number := binary_normalize prec emax m e false.

(** An integer literal, and an integer-valued field such as [length]. *)
Definition of_Z (z : Z) : number := dyadic z 0.
Definition of_nat (n : nat) : number := of_Z (Z.of_nat n).

Definition zero : number := of_Z 0.
Definition one : number := of_Z 1.

Definition add : number -> number -> number := SFadd prec emax.
Definition sub : number -> number -> number := SFsub prec emax.
Definition mul : number -> number -> number := SFmul prec emax.
Definition div : number -> number -> number := SFdiv prec emax.
Definition sqrt : number -> number := SFsqrt prec emax.
Definition neg : number -> number := SFopp.

(** [x < y], [x > y], [x >= y] and [x === y] on numbers. *)
Definition lt (x y : number) : bool := SFltb x y.
Definition gt (x y : number) : bool := SFltb y x.
Definition ge (x y : number) : bool := SFleb y x.
Definition strict_eq (x y : number) : bool := SFeqb x y.

Definition isFinite (x : number) : bool :=
  match x with
  | S754_zero _ | S754_finite _ _ _ => true
  | S754_infinity _ | S754_nan => false
  end.

Definition isNaN (x : number) : bool :=
  match x with S754_nan => true | _ => false end.

(** [!x] for a number: only [0], [-0] and [NaN] are falsy. *)
Definition falsy (x : number) : bool :=
  match x with
  | S754_zero _ | S754_nan => true
  | _ => false
  end.

(** The elements a 64-bit float buffer can hold. *)
Definition valid (x : number) : bool := valid_binary prec emax x.

(** The integer part of a finite number, rounding towards zero, and the
    least integer that is not below it. *)
Definition trunc (x : number) : Z :=
  match x with
  | S754_finite s m e =>
      cond_Zopp s (if 0 <=? e then Z.pos m * 2 ^ e else Z.pos m / 2 ^ (- e))
  | _ => 0
  end.

Definition ceilZ (x : number) : Z :=
  match x with
  | S754_finite s m e =>
      if 0 <=? e then cond_Zopp s (Z.pos m * 2 ^ e)
      else - ((- cond_Zopp s (Z.pos m)) / 2 ^ (- e))
  | _ => 0
  end.

(** [Math.ceil]: an integer-valued, infinite or NaN argument is
    returned as it is; a negative argument above [-1] gives [-0]. *)
Definition ceil (x : number) : number :=
  match x with
  | S754_finite s m e =>
      if 0 <=? e then x
      else if ceilZ x =? 0 then S754_zero s
      else of_Z (ceilZ x)
  | _ => x
  end.

(** Whether a number is an integer, as a property key of a typed array
    requires; [-0] is the key [0]. *)
Definition is_integer (x : number) : bool :=
  match x with
  | S754_zero _ => true
  | S754_finite _ m e => (0 <=? e) || (Z.pos m mod 2 ^ (- e) =? 0)
  | _ => false
  end.

End Num.

Abbreviation number := Num.number.

Declare Scope num_scope.
Delimit Scope num_scope with num.
Infix "+" := Num.add : num_scope.
Infix "-" := Num.sub : num_scope.
Infix "*" := Num.mul : num_scope.
Infix "/" := Num.div : num_scope.

(** ** Exceptions and results *)

(** [new Error(message)] as the source throws it, and the two exceptions
    of the platform the methods can run into. *)
Inductive exn : Type :=
  | Error (message : string)
  | RangeError
  | TypeError.

Inductive result (A : Type) : Type :=
  | Return (a : A)
  | Throw (e : exn).

Arguments Return {A} a.
Arguments Throw {A} e.

#[global] Instance result_ret : MRet result := fun A a => Return a.
#[global] Instance result_bind : MBind result := fun A B f m =>
  match m with
  | Return a => f a
  | Throw e => Throw e
  end.
#[global] Instance result_fmap : FMap result := fun A B f m =>
  match m with
  | Return a => Return (f a)
  | Throw e => Throw e
  end.

(** [try { body } catch (err) { handler }], for a body whose exception
    carries nothing the handler reads: the body is [None] when it throws. *)
Definition try_catch {A : Type} (body : option A) (handler : result A) : result A :=
  match body with
  | Some a => Return a
  | None => handler
  end.

(** [for (i = i0; i < l; i++) s = body i s], by the number of rounds
    left. *)
Fixpoint for_loop {S : Type} (rounds i : nat) (body : nat -> S -> S) (s : S) : S :=
  match rounds with
  | O => s
  | Datatypes.S rounds' => for_loop rounds' (Datatypes.S i) body (body i s)
  end.

Definition for_range {S : Type} (i0 l : nat) (body : nat -> S -> S) (s : S) : S :=
  for_loop (l - i0) i0 body s.

(** ** Typed arrays *)

(** Modelled from the spec: the declarations of [./types]
    ([TypedArray], [TypedArrayConstructor]) are not among the sources.
    An element kind is a tag; the buffers of this development are of the
    default kind, 64-bit floats, which store a number as it is.  A buffer
    of another kind converts what is stored in it (a 32-bit float buffer
    rounds, an integer buffer truncates and wraps), which is not
    modelled: what is proved about the elements an operation stores is
    stated for vectors of the default kind. *)
Inductive TypedArrayConstructor : Type := Float64Array.

Abbreviation TypedArray := (list number).

Module TA.

(** [ToIndex] of the platform: NaN is 0, the fraction is dropped, a
    negative or infinite length is a [RangeError].  The memory a buffer
    needs is not modelled: every finite length can be allocated. *)
Definition ToIndex (x : number) : result nat :=
  match x with
  | S754_infinity _ => Throw RangeError
  | _ => if Num.trunc x <? 0 then Throw RangeError
         else Return (Z.to_nat (Num.trunc x))
  end.

(** [new type(n)] for an element count [n]: [n] zeros. *)
Definition alloc (n : nat) : TypedArray := replicate n Num.zero.

(** [new type(len)] for a number [len]. *)
Definition new_length (len : number) : result TypedArray :=
  n ← ToIndex len; Return (alloc n).

(** [new type(source)] for a buffer or an array of numbers: a copy;
    [new type(undefined)] is empty. *)
Definition new_from (source : option TypedArray) : TypedArray :=
  default [] source.

(** [d[i]] for an integer [i], where a value is needed for
    arithmetic: outside the buffer it is [undefined], which
    arithmetic reads as NaN. *)
Definition elem (d : TypedArray) (i : nat) : number :=
  default Num.NaN (d !! i).

(** [d[i] = v] for an integer [i]: nothing happens outside the buffer. *)
Definition store (d : TypedArray) (i : nat) (v : number) : TypedArray :=
  <[i := v]> d.

(** [d[index]] for a number [index]: a key that is not an integer of
    the buffer's range reads [undefined] ([None]). *)
Definition get (d : TypedArray) (index : number) : option number :=
  if Num.is_integer index && (0 <=? Num.trunc index)
  then d !! Z.to_nat (Num.trunc index)
  else None.

(** [d[index] = value] for a number [index]: such a key stores
    nothing. *)
Definition put (d : TypedArray) (index value : number) : TypedArray :=
  if Num.is_integer index && (0 <=? Num.trunc index)
  then <[Z.to_nat (Num.trunc index) := value]> d
  else d.

(** [target.set(source, offset)]: a [RangeError] when the source does
    not fit. *)
Definition set (target source : TypedArray) (offset : nat) : result TypedArray :=
  if (offset + List.length source <=? List.length target)%nat
  then Return (take offset target ++ source
                 ++ drop (offset + List.length source) target)
  else Throw RangeError.

(** [a === b] on two elements read from buffers, either of which may be
    [undefined]. *)
Definition strict_eq (a b : option number) : bool :=
  match a, b with
  | Some x, Some y => Num.strict_eq x y
  | None, None => true
  | _, _ => false
  end.

End TA.

(** ** The accelerated primitives *)

(** The five functions the module binds from [nblas] when [require]
    succeeds.  A call returns ([Some]) or throws ([None]); [axpy] and
    [scal] work in place, so they return the new contents of the buffer
    they write, [y] for [axpy x y alpha] and [x] for [scal x alpha].  A
    call that throws is taken to have written nothing, and a call on
    [undefined] in the place of a buffer to throw. *)
Module nblas.

Record t : Type := {
  axpy : TypedArray -> TypedArray -> number -> option TypedArray;
  scal : TypedArray -> number -> option TypedArray;
  dot : TypedArray -> TypedArray -> option number;
  nrm2 : TypedArray -> option number;
  idamax : nat -> TypedArray -> nat -> option nat
}.

End nblas.

(** The bindings after the module is loaded: [None] when [require]
    threw ('skipping nblas...'), so that every call of a primitive is a
    call of [undefined], which throws. *)
Abbreviation bindings := (option nblas.t).

(** The contract of the five primitives, from section 4.2 of the
    specification: the [nblas] package itself is not among the sources. *)
Module Spec.

(** Modelled from the spec: [scaledAdd(dst, src, factor)], the contract
    of the missing [axpy]: for all [i], [dst[i] += factor * src[i]];
    requires equal lengths. *)
Definition scaledAdd (dst src : TypedArray) (factor : number) : option TypedArray :=
  if decide (List.length dst = List.length src)
  then Some (zip_with (fun d s => (d + factor * s)%num) dst src)
  else None.

(** Modelled from the spec: [scaleInPlace(buf, scalar)], the contract of
    the missing [scal]: for all [i], [buf[i] *= scalar]. *)
Definition scaleInPlace (buf : TypedArray) (scalar : number) : option TypedArray :=
  Some ((fun b => (b * scalar)%num) <$> buf).

(** The sum of a sequence of terms, from 0, in their order. *)
Definition sum (terms : list number) : number :=
  foldl Num.add Num.zero terms.

(** Modelled from the spec: [dot(a, b)], the contract of the missing
    [dot]: the sum of the [a[i] * b[i]]; requires equal lengths. *)
Definition dot (a b : TypedArray) : option number :=
  if decide (List.length a = List.length b)
  then Some (sum (zip_with Num.mul a b))
  else None.

(** Modelled from the spec: [norm2(buf)], the contract of the missing
    [nrm2]: the square root of the sum of the [buf[i]^2], which is 0 for
    a zero-length buffer. *)
Definition norm2 (buf : TypedArray) : option number :=
  Some (Num.sqrt (sum ((fun b => (b * b)%num) <$> buf))).

(** Modelled from the spec: [argmaxAbs(buf)], the contract of the
    missing [idamax]: the index of the element of largest magnitude, the
    first one among equals. *)
Fixpoint argmaxAbs_from (buf : TypedArray) (i best : nat) (top : number) : nat :=
  match buf with
  | [] => best
  | b :: buf' =>
      if Num.lt top (SFabs b)
      then argmaxAbs_from buf' (S i) i (SFabs b)
      else argmaxAbs_from buf' (S i) best top
  end.

Definition argmaxAbs (buf : TypedArray) : option nat :=
  match buf with
  | [] => None
  | b :: buf' => Some (argmaxAbs_from buf' 1 0 (SFabs b))
  end.

(** Modelled from the spec: the bindings of a loaded [nblas] that keeps
    the contract; [axpy(x, y, alpha)] adds to its second argument. *)
Definition backend : nblas.t := {|
  nblas.axpy x y alpha := scaledAdd y x alpha;
  nblas.scal := scaleInPlace;
  nblas.dot := dot;
  nblas.nrm2 := norm2;
  nblas.idamax _ x _ := argmaxAbs x
|}.

(** A backend keeps the contract when each of its primitives, whenever
    it returns, returns what the contract says. *)
Definition conforms (b : nblas.t) : Prop :=
  (forall x y alpha r, nblas.axpy b x y alpha = Some r -> scaledAdd y x alpha = Some r)
  /\ (forall x alpha r, nblas.scal b x alpha = Some r -> scaleInPlace x alpha = Some r)
  /\ (forall x y r, nblas.dot b x y = Some r -> dot x y = Some r)
  /\ (forall x r, nblas.nrm2 b x = Some r -> norm2 x = Some r).

Definition conforming (be : bindings) : Prop :=
  match be with
  | Some b => conforms b
  | None => True
  end.

End Spec.

(** ** The Vector class *)

Module Vector.

(** The three fields of a Vector; [data] is [None] while no buffer has
    been assigned (the constructor without a recognised argument). *)
Record t : Type := mk {
  type : TypedArrayConstructor;
  length : nat;
  data : option TypedArray
}.

Definition with_data (this : t) (d : TypedArray) : t :=
  {| type := type this; length := length this; data := Some d |}.

(** A matrix-like argument of the constructor: an object with a
    [shape], a [type] and a [data] buffer. *)
Record MatrixLike : Type := {
  m_type : TypedArrayConstructor;
  m_data : TypedArray;
  shape : nat * nat
}.

(** What the constructor tells apart in its argument, in the order of
    its tests. *)
Inductive source : Type :=
  | from_Vector (v : t)
  | from_shape (m : MatrixLike)
  | from_Array (a : list number)
  | from_buffer (b : TypedArray)
  | from_nothing.

(** The fields the constructor sets before it looks at its argument. *)
Definition initial : t :=
  {| type := Float64Array; length := 0; data := None |}.

Definition combine (this vector : t) : result t :=
  if decide (length vector = 0%nat) then Return this
  else if decide (length this = 0%nat) then
    Return {| type := type vector;
              length := length vector;
              data := Some (TA.new_from (data vector)) |}
  else
    let l1 := length this in
    let l2 := length vector in
    match data this, data vector with
    | Some d1, Some d2 =>
        data1 ← TA.set (TA.alloc (l1 + l2)) d1 0;
        data2 ← TA.set data1 d2 l1;
        Return {| type := type this; length := (l1 + l2)%nat; data := Some data2 |}
    | _, _ => Throw TypeError
    end.

Definition constructor (arg : source) : result t :=
  match arg with
  | from_Vector v => combine initial v
  | from_shape m =>
      Return {| type := m_type m;
                length := (fst (shape m) * snd (shape m))%nat;
                data := Some (TA.new_from (Some (m_data m))) |}
  | from_Array a =>
      Return {| type := Float64Array;
                length := List.length a;
                data := Some (TA.new_from (Some a)) |}
  | from_buffer b =>
      Return {| type := Float64Array; length := List.length b; data := Some b |}
  | from_nothing => Return initial
  end.

Definition binOp (this vector : t) (op : number -> number -> nat -> number) : result t :=
  let l1 := length this in
  let l2 := length vector in
  if decide (l1 ≠ l2) then Throw (Error "sizes do not match!")
  else if decide (l1 = 0%nat ∧ l2 = 0%nat) then Return this
  else
    match data this, data vector with
    | Some d1, Some d2 =>
        Return (with_data this
                  (for_range 0 l1
                     (fun i d => TA.store d i (op (TA.elem d i) (TA.elem d2 i) i))
                     d1))
    | _, _ => Throw TypeError
    end.


(** The accelerated attempt of [add] and [subtract]: the size test and
    the call of [axpy], whose factor is 1 when it is left out. *)
Definition try_axpy (be : bindings) (this vector : t) (alpha : number) : option t :=
  if decide (length this ≠ length vector) then None
  else
    match be, data vector, data this with
    | Some b, Some x, Some y => with_data this <$> nblas.axpy b x y alpha
    | _, _, _ => None
    end.

Definition add (be : bindings) (this vector : t) : result t :=
  try_catch (try_axpy be this vector Num.one)
    (binOp this vector (fun a b _ => (a + b)%num)).

Definition static_add (be : bindings) (a b : t) : result t :=
  v ← constructor (from_Vector a); add be v b.

Definition subtract (be : bindings) (this vector : t) : result t :=
  try_catch (try_axpy be this vector (Num.of_Z (-1)))
    (binOp this vector (fun a b _ => (a - b)%num)).

Definition static_subtract (be : bindings) (a b : t) : result t :=
  v ← constructor (from_Vector a); subtract be v b.

(** [each(callback)]: the callback gets the buffer as its third
    argument and may write to it; it is the function from the buffer
    before the call to the buffer after it. *)
Definition each (this : t) (callback : number -> nat -> TypedArray -> TypedArray) : result t :=
  if decide (length this = 0%nat) then Return this
  else
    match data this with
    | Some d =>
        Return (with_data this
                  (for_range 0 (length this) (fun i d => callback (TA.elem d i) i d) d))
    | None => Throw TypeError
    end.

Definition try_scal (be : bindings) (this : t) (scalar : number) : option t :=
  match be, data this with
  | Some b, Some x => with_data this <$> nblas.scal b x scalar
  | _, _ => None
  end.

Definition scale (be : bindings) (this : t) (scalar : number) : result t :=
  try_catch (try_scal be this scalar)
    (each this (fun _ i d => TA.store d i (TA.elem d i * scalar)%num)).


Definition try_dot (be : bindings) (this vector : t) : option number :=
  match be, data this, data vector with
  | Some b, Some x, Some y => nblas.dot b x y
  | _, _, _ => None
  end.

Definition dot (be : bindings) (this vector : t) : result number :=
  if decide (length this ≠ length vector) then Throw (Error "sizes do not match")
  else
    try_catch (try_dot be this vector)
      (if decide (length this = 0%nat) then Return Num.zero
       else
         match data this, data vector with
         | Some a, Some b =>
             Return (for_range 0 (length this)
                       (fun i result => (result + TA.elem a i * TA.elem b i)%num)
                       Num.zero)
         | _, _ => Throw TypeError
         end).

(** Which kernel a call of [magnitude] entered, in order. *)
Inductive kernel : Type := accelerated | fallback.

Definition try_nrm2 (be : bindings) (this : t) : option number :=
  match be, data this with
  | Some b, Some x => nblas.nrm2 b x
  | _, _ => None
  end.

Definition magnitude_fallback (this : t) : result number :=
  match data this with
  | Some d =>
      Return (Num.sqrt
                (for_range 0 (length this)
                   (fun i result => (result + TA.elem d i * TA.elem d i)%num)
                   Num.zero))
  | None => Throw TypeError
  end.

(** [magnitude()] with the kernels it entered: none for a zero-length
    vector; the accelerated one when [nrm2] is bound, and the fallback
    one when that call threw or nothing is bound. *)
Definition magnitude_trace (be : bindings) (this : t) : list kernel * result number :=
  if decide (length this = 0%nat) then ([], Return Num.zero)
  else
    match be with
    | Some _ =>
        match try_nrm2 be this with
        | Some r => ([accelerated], Return r)
        | None => ([accelerated; fallback], magnitude_fallback this)
        end
    | None => ([fallback], magnitude_fallback this)
    end.

Definition magnitude (be : bindings) (this : t) : result number :=
  snd (magnitude_trace be this).

Definition normalize (be : bindings) (this : t) : result t :=
  m ← magnitude be this; scale be this (Num.one / m)%num.

(** [project(vector)]: the receiver is only read; the value is
    [vector], scaled. *)
Definition project (be : bindings) (this vector : t) : result t :=
  p ← dot be this vector;
  q ← dot be vector vector;
  scale be vector (p / q)%num.

(** [fill(count, value, type)]; [value] is a number or a function of
    the index, and [count] an integer. *)
Definition fill (count : Z) (value : option (number + (nat -> number)))
    (type : option TypedArrayConstructor) : result t :=
  if count <? 0 then Throw (Error "invalid size")
  else if count =? 0 then constructor from_nothing
  else
    let value := default (inl Num.zero) value in
    let data := TA.alloc (Z.to_nat count) in
    let data :=
      match value with
      | inr f => for_range 0 (Z.to_nat count) (fun i d => TA.store d i (f i)) data
      | inl v => for_range 0 (Z.to_nat count) (fun i d => TA.store d i v) data
      end in
    constructor (from_buffer data).

Definition zeros (count : Z) (type : option TypedArrayConstructor) : result t :=
  fill count (Some (inl Num.zero)) type.

Definition ones (count : Z) (type : option TypedArrayConstructor) : result t :=
  fill count (Some (inl Num.one)) type.

(** The loop of [range]: [i] is a number and need not reach [end_], so
    the loop runs on fuel; [None] when the fuel is used up. *)
Fixpoint range_loop (fuel : nat) (backwards : bool) (start step end_ : number)
    (i : number) (j : nat) (data : TypedArray) : option TypedArray :=
  match fuel with
  | O => None
  | S fuel' =>
      if Num.lt i end_ then
        range_loop fuel' backwards start step end_ (i + step)%num (S j)
          (TA.store data j (if backwards then ((end_ - i) + start)%num else i))
      else Some data
  end.

(** [range(...args)] for two or three numbers; the element kind that may
    follow them is left out, so that the default one applies. *)
Definition range (fuel : nat) (args : list number) : option (result t) :=
  match
    match args with
    | [start; end_] => Some (start, Num.one, end_)
    | [start; step; end_] => Some (start, step, end_)
    | _ => None
    end
  with
  | None => Some (Throw (Error "invalid range"))
  | Some (start, step, end_) =>
      let backwards := Num.lt (end_ - start)%num Num.zero in
      let '(start, end_) := if backwards then (end_, start) else (start, end_) in
      if Num.gt step (end_ - start)%num then Some (Throw (Error "invalid range"))
      else
        match TA.new_length (Num.ceil ((end_ - start) / step)%num) with
        | Throw e => Some (Throw e)
        | Return data =>
            d ← range_loop fuel backwards start step end_ start 0 data;
            Some (constructor (from_buffer d))
        end
  end.

(** The loop of [equals]: [i] moves up while it is below the length and
    the two elements are strictly equal. *)
Fixpoint equals_loop (rounds i l : nat) (d1 d2 : TypedArray) : nat :=
  match rounds with
  | O => i
  | S rounds' =>
      if (i <? l)%nat && TA.strict_eq (d1 !! i) (d2 !! i)
      then equals_loop rounds' (S i) l d1 d2
      else i
  end.

Definition equals (this vector : t) : result bool :=
  if decide (length this ≠ length vector) then Return false
  else if decide (length this = 0%nat) then Return true
  else
    match data this, data vector with
    | Some d1, Some d2 =>
        Return (equals_loop (length this) 0 (length this) d1 d2 =? length this)%nat
    | _, _ => Throw TypeError
    end.

Definition check (this : t) (index : number) : result unit :=
  if negb (Num.isFinite index)
     || Num.lt index Num.zero
     || Num.gt index (Num.of_nat (length this) - Num.one)%num
  then Throw (Error "index out of bounds")
  else Return tt.

(** [get(index)]: the value is [None] where the buffer reads
    [undefined]. *)
Definition get (this : t) (index : number) : result (option number) :=
  _ ← check this index;
  match data this with
  | Some d => Return (TA.get d index)
  | None => Throw TypeError
  end.

Definition set (this : t) (index value : number) : result t :=
  _ ← check this index;
  match data this with
  | Some d => Return (with_data this (TA.put d index value))
  | None => Throw TypeError
  end.

Definition x (this : t) : result (option number) := get this (Num.of_Z 0).
Definition y (this : t) : result (option number) := get this (Num.of_Z 1).
Definition z (this : t) : result (option number) := get this (Num.of_Z 2).
Definition w (this : t) : result (option number) := get this (Num.of_Z 3).

Definition push (this : t) (value : number) : result t :=
  v ← constructor (from_Array [value]); combine this v.

(** [reduce(callback, initialValue)]; [initialValue] is [None] when it
    is left out. *)
Definition reduce (this : t)
    (callback : number -> number -> nat -> TypedArray -> number)
    (initialValue : option number) : result number :=
  let l := length this in
  if bool_decide (l = 0%nat) && from_option Num.falsy true initialValue
  then Throw (Error "Reduce of empty matrix with no initial value.")
  else
    match initialValue with
    | Some value =>
        if decide (l = 0%nat) then Return value
        else
          match data this with
          | Some d =>
              Return (for_range 0 l (fun i value => callback value (TA.elem d i) i d) value)
          | None => Throw TypeError
          end
    | None =>
        match data this with
        | Some d =>
            Return (for_range 1 l (fun i value => callback value (TA.elem d i) i d)
                      (TA.elem d 0))
        | None => Throw TypeError
        end
    end.

Definition min (this : t) : result number :=
  reduce this (fun acc item _ _ => if Num.lt acc item then acc else item)
    (Some Num.POSITIVE_INFINITY).

Definition toArray (this : t) : list number :=
  default [] (data this).

(** [map(callback)]: the callback is run on a copy of the receiver, on
    the elements of the copy's buffer in their order; it gets that buffer
    as its third argument, with the elements already mapped in it. *)
Definition map (this : t) (callback : number -> nat -> TypedArray -> number) : result t :=
  mapped ← constructor (from_Vector this);
  if decide (length this = 0%nat) then Return mapped
  else
    match data mapped with
    | Some d =>
        Return (with_data mapped
                  (for_range 0 (length this)
                     (fun i d => TA.store d i (callback (TA.elem d i) i d)) d))
    | None => Throw TypeError
    end.

(** The accelerated attempt of [max]: the element at the index [idamax]
    returns, which is [undefined] ([None]) outside the buffer. *)
Definition try_idamax (be : bindings) (this : t) : option (option number) :=
  match be, data this with
  | Some b, Some d => idx ← nblas.idamax b (length this) d 1; Some (d !! idx)
  | _, _ => None
  end.

Definition max (be : bindings) (this : t) : result (option number) :=
  try_catch (try_idamax be this)
    (Some <$> reduce this (fun acc item _ _ => if Num.lt acc item then item else acc)
                (Some Num.NEGATIVE_INFINITY)).

(** The setters of [x], [y], [z] and [w]. *)
Definition set_x (this : t) (value : number) : result t := set this (Num.of_Z 0) value.
Definition set_y (this : t) (value : number) : result t := set this (Num.of_Z 1) value.
Definition set_z (this : t) (value : number) : result t := set this (Num.of_Z 2) value.
Definition set_w (this : t) (value : number) : result t := set this (Num.of_Z 3) value.


Definition static_project (be : bindings) (a b : t) : result t :=
  v ← constructor (from_Vector b); project be a v.

Definition static_dot (be : bindings) (a b : t) : result number := dot be a b.

Definition static_equals (a b : t) : result bool := equals a b.

Definition static_combine (a b : t) : result t :=
  v ← constructor (from_Vector a); combine v b.

(** The invariant of the data model: the [length] field is the number
    of elements of the buffer, when there is one. *)
Definition length_consistent (v : t) : Prop :=
  forall d, data v = Some d -> length v = List.length d.

(** What every constructed vector satisfies besides: without a buffer
    the length is 0. *)
Definition wf (v : t) : Prop :=
  match data v with
  | Some d => length v = List.length d
  | None => length v = 0%nat
  end.

End Vector.

(** ** Objects, typed arrays and array buffers by reference *)

(** Two Vector objects are two references, and so are their typed
    arrays: the constructor adopts a typed array without copying it.  A
    typed array in turn is a view of an array buffer, a window of its
    elements, and two typed arrays can be views of one array buffer
    ([subarray], or a typed array made over the [buffer] of another): what
    is written through one is then read through the other where the
    windows overlap.  The heap maps the references of Vector objects to
    their fields, where [data] is the reference of a typed array, the
    references of typed arrays to their windows, and the references of
    array buffers to their elements.  The views are of 64-bit floats, whose
    windows begin and end at whole elements. *)
Module Heap.

Abbreviation loc := positive.

Record object : Type := {
  o_type : TypedArrayConstructor;
  o_length : nat;
  o_data : option loc
}.

(** A typed array: [a_length] elements of the array buffer [a_buffer],
    from the element [a_offset] on. *)
Record array : Type := {
  a_buffer : loc;
  a_offset : nat;
  a_length : nat
}.

Record t : Type := {
  objects : gmap loc object;
  arrays : gmap loc array;
  buffers : gmap loc (list number)
}.

(** The elements a typed array shows. *)
Definition elements (h : t) (ta : loc) : option TypedArray :=
  a ← arrays h !! ta;
  s ← buffers h !! a_buffer a;
  if decide (a_offset a + a_length a <= List.length s)%nat
  then Some (take (a_length a) (drop (a_offset a) s))
  else None.



(** The Vector a reference stands for. *)
Definition read (h : t) (r : loc) : option Vector.t :=
  o ← objects h !! r;
  match o_data o with
  | Some ta => d ← elements h ta; Some (Vector.mk (o_type o) (o_length o) (Some d))
  | None => Some (Vector.mk (o_type o) (o_length o) None)
  end.

(** The elements of an array buffer after the window at [offset] has
    been written with [d]. *)
Definition splice (s : list number) (offset : nat) (d : TypedArray) : list number :=
  take offset s ++ d ++ drop (offset + List.length d) s.

(** Writing the elements [d] through a typed array. *)
Definition write (h : t) (ta : loc) (d : TypedArray) : t :=
  match arrays h !! ta with
  | Some a =>
      match buffers h !! a_buffer a with
      | Some s =>
          {| objects := objects h; arrays := arrays h;
             buffers := <[a_buffer a := splice s (a_offset a) d]> (buffers h) |}
      | None => h
      end
  | None => h
  end.

(** What a method that works in place leaves behind: the fields of the
    receiver are as before, its typed array shows the new elements. *)
Definition write_elements (h : t) (r : loc) (v : Vector.t) : t :=
  match objects h !! r ≫= o_data, Vector.data v with
  | Some ta, Some d => write h ta d
  | _, _ => h
  end.

(** [this.scale(scalar)]: the value is [this]. *)
Definition scale (be : bindings) (h : t) (this : loc) (scalar : number) : result (t * loc) :=
  match read h this with
  | Some v => v' ← Vector.scale be v scalar; Return (write_elements h this v', this)
  | None => Throw TypeError
  end.

Definition dot (be : bindings) (h : t) (this vector : loc) : result number :=
  match read h this, read h vector with
  | Some a, Some b => Vector.dot be a b
  | _, _ => Throw TypeError
  end.

(** [this.project(vector)] is
    [vector.scale(this.dot(vector) / vector.dot(vector))]: the two dot
    products are read before anything is written. *)
Definition project (be : bindings) (h : t) (this vector : loc) : result (t * loc) :=
  p ← dot be h this vector;
  q ← dot be h vector vector;
  scale be h vector (p / q)%num.

(** [new Vector(vector)] for the Vector at a reference: a new object,
    and, when the constructor assigns one, a new typed array over a new
    array buffer that holds a copy of the elements. *)
Definition store_new (h : t) (v : Vector.t) : t * loc :=
  let r := fresh (dom (objects h)) in
  match Vector.data v with
  | Some d =>
      let ta := fresh (dom (arrays h)) in
      let b := fresh (dom (buffers h)) in
      ({| objects := <[r := {| o_type := Vector.type v; o_length := Vector.length v;
                               o_data := Some ta |}]> (objects h);
          arrays := <[ta := {| a_buffer := b; a_offset := 0; a_length := List.length d |}]>
                      (arrays h);
          buffers := <[b := d]> (buffers h) |}, r)
  | None =>
      ({| objects := <[r := {| o_type := Vector.type v; o_length := Vector.length v;
                               o_data := None |}]> (objects h);
          arrays := arrays h;
          buffers := buffers h |}, r)
  end.

Definition new_Vector (h : t) (vector : loc) : result (t * loc) :=
  match read h vector with
  | Some v => v' ← Vector.constructor (Vector.from_Vector v); Return (store_new h v')
  | None => Throw TypeError
  end.

(** The static [project(a, b)] is [a.project(new Vector(b))]. *)
Definition static_project (be : bindings) (h : t) (a b : loc) : result (t * loc) :=
  hc ← new_Vector h b; project be (fst hc) a (snd hc).

End Heap.

(** ** The value of a number *)

(** What the statements about arithmetic need besides the operations: a
    shift record that has lost no bit, the value of a mantissa and an
    exponent in units of [2^z], and the integers among the numbers. *)

Abbreviation bounded64 := (bounded Num.prec Num.emax).
Abbreviation round64 := (binary_round Num.prec Num.emax).

Definition exact (m : Z) : shr_record := {| shr_m := m; shr_r := false; shr_s := false |}.

(** The value of a mantissa and an exponent, in units of [2^z]. *)
Definition scaled (m : positive) (e z : Z) : Z := Z.pos m * 2 ^ (e - z).

(** [integer x n]: [x] is an element a buffer can hold and its value is
    the integer [n]; [0] and [-0] both have the value 0. *)
Definition integer (x : number) (n : Z) : Prop :=
  match x with
  | S754_zero _ => n = 0
  | S754_finite s m e =>
      bounded64 m e = true
      /\ cond_Zopp s (Z.pos m) * 2 ^ Z.max e 0 = n * 2 ^ Z.max (- e) 0
  | _ => False
  end.

(** ** Vectors and values the statements name *)

(** A vector of the default element kind with the given elements, as
    [new Vector([...])] builds it. *)
Definition vector_of (elements : list number) : Vector.t :=
  Vector.mk Float64Array (List.length elements) (Some elements).

Definition v123 : Vector.t := vector_of [Num.of_Z 1; Num.of_Z 2; Num.of_Z 3].
Definition v456 : Vector.t := vector_of [Num.of_Z 4; Num.of_Z 5; Num.of_Z 6].

Definition empty_reduction : exn := Error "Reduce of empty matrix with no initial value.".

Definition vNaN : Vector.t := vector_of [Num.NaN].



Definition out_of_bounds : exn := Error "index out of bounds".

Definition v12 : Vector.t := vector_of [Num.of_Z 1; Num.of_Z 2].
Definition half : number := Num.dyadic 1 (-1).

Definition ascending : list number :=
  [Num.of_Z 0; Num.dyadic 1 (-1); Num.of_Z 1; Num.dyadic 3 (-1)].
Definition descending : list number :=
  [Num.of_Z 2; Num.dyadic 3 (-1); Num.of_Z 1; Num.dyadic 1 (-1)].

Definition inconsistent_matrix : Vector.MatrixLike :=
  {| Vector.m_type := Float64Array;
     Vector.m_data := [Num.of_Z 1; Num.of_Z 2; Num.of_Z 3];
     Vector.shape := (2%nat, 2%nat) |}.

(** What the constructor relies on in its argument: a vector is a
    constructed one, and a matrix-like object has as many elements as its
    shape says. *)
Definition source_wf (arg : Vector.source) : Prop :=
  match arg with
  | Vector.from_Vector v => Vector.wf v
  | Vector.from_shape m =>
      (fst (Vector.shape m) * snd (Vector.shape m))%nat = List.length (Vector.m_data m)
  | _ => True
  end.

Definition consistent_matrix : Vector.MatrixLike :=
  {| Vector.m_type := Float64Array;
     Vector.m_data := [Num.of_Z 1; Num.of_Z 2; Num.of_Z 3];
     Vector.shape := (1%nat, 3%nat) |}.

(** Two vectors, [3, 4] and [2, 0], that are two objects with two typed
    arrays over two array buffers. *)
Definition two_vectors : Heap.t :=
  {| Heap.objects :=
       {[ 1%positive := {| Heap.o_type := Float64Array; Heap.o_length := 2;
                           Heap.o_data := Some 10%positive |};
          2%positive := {| Heap.o_type := Float64Array; Heap.o_length := 2;
                           Heap.o_data := Some 20%positive |} ]};
     Heap.arrays :=
       {[ 10%positive := {| Heap.a_buffer := 100%positive; Heap.a_offset := 0;
                            Heap.a_length := 2 |};
          20%positive := {| Heap.a_buffer := 200%positive; Heap.a_offset := 0;
                            Heap.a_length := 2 |} ]};
     Heap.buffers :=
       {[ 100%positive := [Num.of_Z 3; Num.of_Z 4];
          200%positive := [Num.of_Z 2; Num.of_Z 0] ]} |}.

(** Two vectors, [2, 1] and [1, 1], that are two objects with two typed
    arrays, which are views of one array buffer [2, 1, 1]: the second
    element of the first is the first element of the second. *)
Definition overlapping_views : Heap.t :=
  {| Heap.objects :=
       {[ 1%positive := {| Heap.o_type := Float64Array; Heap.o_length := 2;
                           Heap.o_data := Some 10%positive |};
          2%positive := {| Heap.o_type := Float64Array; Heap.o_length := 2;
                           Heap.o_data := Some 20%positive |} ]};
     Heap.arrays :=
       {[ 10%positive := {| Heap.a_buffer := 100%positive; Heap.a_offset := 0;
                            Heap.a_length := 2 |};
          20%positive := {| Heap.a_buffer := 100%positive; Heap.a_offset := 1;
                            Heap.a_length := 2 |} ]};
     Heap.buffers := {[ 100%positive := [Num.of_Z 2; Num.of_Z 1; Num.of_Z 1] ]} |}.



(** The error of [binOp], [add] and [subtract] on vectors of different
    lengths. *)
Definition size_mismatch : exn := Error "sizes do not match!".

(** * Properties *)

(** ** Rounding and exact arithmetic *)

Section Rounding.

Context {A : Type} (f : A -> A).

Lemma iter_pos_shift (n : positive) (a : A) :
  SpecFloat.iter_pos f n (f a) = f (SpecFloat.iter_pos f n a).
Proof.
  revert a. induction n as [n IH | n IH |]; intros a; simpl.
  - by rewrite !IH.
  - by rewrite !IH.
  - done.
Qed.

Lemma iter_pos_succ (n : positive) (a : A) :
  SpecFloat.iter_pos f (Pos.succ n) a = SpecFloat.iter_pos f n (f a).
Proof.
  revert a. induction n as [n IH | n IH |]; intros a; simpl.
  - rewrite !IH. by rewrite !iter_pos_shift.
  - by rewrite !iter_pos_shift.
  - done.
Qed.

End Rounding.

(** Shifting a mantissa left by [k] bits: its digits, its value, and the
    shift to the right that undoes it without losing a bit. *)
Lemma iter_xO_succ (m k : positive) :
  Pos.iter xO m (Pos.succ k) = xO (Pos.iter xO m k).
Proof. apply Pos.iter_succ. Qed.

Lemma shr_exact (k m : positive) :
  SpecFloat.iter_pos shr_1 k (exact (Z.pos (Pos.iter xO m k))) = exact (Z.pos m).
Proof.
  induction k as [|k IH] using Pos.peano_ind.
  - reflexivity.
  - rewrite iter_pos_succ, iter_xO_succ. exact IH.
Qed.

Lemma digits2_iter_xO (k m : positive) :
  Z.pos (digits2_pos (Pos.iter xO m k)) = Z.pos (digits2_pos m) + Z.pos k.
Proof.
  induction k as [|k IH] using Pos.peano_ind.
  - simpl. lia.
  - rewrite iter_xO_succ. simpl. lia.
Qed.

Lemma Zpos_iter_xO (k m : positive) :
  Z.pos (Pos.iter xO m k) = Z.pos m * 2 ^ Z.pos k.
Proof.
  induction k as [|k IH] using Pos.peano_ind.
  - simpl. lia.
  - rewrite iter_xO_succ, Pos2Z.inj_succ, Z.pow_succ_r by lia.
    rewrite Pos2Z.inj_xO, IH. lia.
Qed.

(** Rounding a canonical mantissa, or one shifted left by [k] bits with
    its exponent lowered by [k], returns the canonical pair: the bits
    that are shifted out are zeros. *)
Lemma round_aux_canonical (s : bool) (m : positive) (e : Z) :
  bounded Num.prec Num.emax m e = true ->
  binary_round_aux Num.prec Num.emax s (Z.pos m) e loc_Exact = S754_finite s m e.
Proof.
  intros Hb. unfold bounded, canonical_mantissa in Hb.
  apply andb_true_iff in Hb as [Hc He]. apply Z.eqb_eq in Hc.
  unfold binary_round_aux, shr_fexp. simpl Zdigits2. rewrite Hc, Z.sub_diag. simpl.
  rewrite Hc, Z.sub_diag. simpl. by rewrite He.
Qed.

Lemma round_aux_shifted (s : bool) (m k : positive) (e : Z) :
  bounded Num.prec Num.emax m e = true ->
  binary_round_aux Num.prec Num.emax s (Z.pos (Pos.iter xO m k)) (e - Z.pos k) loc_Exact
  = S754_finite s m e.
Proof.
  intros Hb. pose proof Hb as Hb'. unfold bounded, canonical_mantissa in Hb.
  apply andb_true_iff in Hb as [Hc He]. apply Z.eqb_eq in Hc.
  unfold binary_round_aux at 1. unfold shr_fexp at 1. simpl Zdigits2.
  rewrite digits2_iter_xO.
  replace (Z.pos (digits2_pos m) + Z.pos k + (e - Z.pos k)) with (Z.pos (digits2_pos m) + e) by lia.
  rewrite Hc. replace (e - (e - Z.pos k)) with (Z.pos k) by lia.
  unfold shr. simpl shr_record_of_loc. fold (exact (Z.pos (Pos.iter xO m k))).
  rewrite shr_exact. replace (e - Z.pos k + Z.pos k) with e by lia.
  simpl. unfold shr_fexp. simpl Zdigits2. rewrite Hc, Z.sub_diag. simpl. by rewrite He.
Qed.

(** [binary_round] on the three ways a mantissa can stand to the
    canonical one of its value: equal, longer or shorter. *)
Lemma bounded_canonical (m : positive) (e : Z) :
  bounded64 m e = true ->
  fexp Num.prec Num.emax (Z.pos (digits2_pos m) + e) = e /\ e <= Num.emax - Num.prec.
Proof.
  unfold bounded, canonical_mantissa. intros [Hc He]%andb_true_iff.
  split; [by apply Z.eqb_eq | by apply Z.leb_le].
Qed.

Lemma round_same (s : bool) (m : positive) (e : Z) :
  bounded64 m e = true -> round64 s m e = S754_finite s m e.
Proof.
  intros Hb. destruct (bounded_canonical _ _ Hb) as [Hc _].
  unfold binary_round. rewrite Hc. unfold shl_align. rewrite Z.sub_diag.
  by apply round_aux_canonical.
Qed.

Lemma round_up (s : bool) (m k : positive) (e : Z) :
  bounded64 m e = true ->
  round64 s (Pos.iter xO m k) (e - Z.pos k) = S754_finite s m e.
Proof.
  intros Hb. destruct (bounded_canonical _ _ Hb) as [Hc _].
  unfold binary_round. rewrite digits2_iter_xO.
  replace (Z.pos (digits2_pos m) + Z.pos k + (e - Z.pos k))
    with (Z.pos (digits2_pos m) + e) by lia.
  rewrite Hc. unfold shl_align.
  replace (e - (e - Z.pos k)) with (Z.pos k) by lia.
  by apply round_aux_shifted.
Qed.

Lemma round_down (s : bool) (m j : positive) (e : Z) :
  bounded64 (Pos.iter xO m j) e = true ->
  round64 s m (e + Z.pos j) = S754_finite s (Pos.iter xO m j) e.
Proof.
  intros Hb. destruct (bounded_canonical _ _ Hb) as [Hc _].
  rewrite digits2_iter_xO in Hc.
  unfold binary_round.
  replace (Z.pos (digits2_pos m) + (e + Z.pos j))
    with (Z.pos (digits2_pos m) + Z.pos j + e) by lia.
  rewrite Hc. unfold shl_align.
  replace (e - (e + Z.pos j)) with (Z.neg j) by lia.
  by apply round_aux_canonical.
Qed.

Lemma scaled_lower (m : positive) (e z z' : Z) :
  z' <= z -> z <= e -> scaled m e z' = scaled m e z * 2 ^ (z - z').
Proof.
  intros H1 H2. unfold scaled. rewrite <- Z.mul_assoc, <- Z.pow_add_r by lia.
  f_equal. f_equal. lia.
Qed.

Lemma scaled_pos (m : positive) (e z : Z) : z <= e -> 0 < scaled m e z.
Proof. intros H. unfold scaled. apply Z.mul_pos_pos; [lia | apply Z.pow_pos_nonneg; lia]. Qed.

(** Rounding depends on the value only: every mantissa and exponent of
    the value of a canonical pair round to that pair. *)
Lemma round_value (s : bool) (m m0 : positive) (e e0 z : Z) :
  bounded64 m0 e0 = true -> z <= e -> z <= e0 ->
  scaled m e z = scaled m0 e0 z ->
  round64 s m e = S754_finite s m0 e0.
Proof.
  intros Hb Hz Hz0 Hv.
  destruct (Z.lt_trichotomy e e0) as [Hlt | [-> | Hgt]].
  - (* the given mantissa carries more bits than the canonical one *)
    rewrite (scaled_lower m0 e0 e z), (scaled_lower m e e z) in Hv by lia.
    apply Z.mul_reg_r in Hv; [|apply Z.pow_nonzero; lia].
    unfold scaled in Hv. rewrite Z.sub_diag, Z.mul_1_r in Hv.
    destruct (e0 - e) as [|k|k] eqn:Hk; try lia.
    rewrite <- Zpos_iter_xO in Hv. injection Hv as ->.
    replace e with (e0 - Z.pos k) by lia. by apply round_up.
  - unfold scaled in Hv. apply Z.mul_reg_r in Hv; [|apply Z.pow_nonzero; lia].
    injection Hv as ->. by apply round_same.
  - rewrite (scaled_lower m0 e0 e0 z), (scaled_lower m e e0 z) in Hv by lia.
    apply Z.mul_reg_r in Hv; [|apply Z.pow_nonzero; lia].
    unfold scaled in Hv. rewrite Z.sub_diag, Z.mul_1_r in Hv.
    destruct (e - e0) as [|j|j] eqn:Hj; try lia.
    rewrite <- Zpos_iter_xO in Hv. injection Hv as <-.
    replace e with (e0 + Z.pos j) by lia. by apply round_down.
Qed.

(** The number of binary digits of a mantissa bounds it on both sides. *)
Lemma digits2_bounds (m : positive) :
  2 ^ (Z.pos (digits2_pos m) - 1) <= Z.pos m < 2 ^ Z.pos (digits2_pos m).
Proof.
  induction m as [m IH | m IH |]; simpl digits2_pos.
  - rewrite Pos2Z.inj_succ, Z.pow_succ_r by lia.
    replace (Z.succ (Z.pos (digits2_pos m)) - 1) with (Z.succ (Z.pos (digits2_pos m) - 1)) by lia.
    rewrite Z.pow_succ_r by lia. lia.
  - rewrite Pos2Z.inj_succ, Z.pow_succ_r by lia.
    replace (Z.succ (Z.pos (digits2_pos m)) - 1) with (Z.succ (Z.pos (digits2_pos m) - 1)) by lia.
    rewrite Z.pow_succ_r by lia. lia.
  - simpl. lia.
Qed.

Lemma digits2_le (m : positive) (d : Z) :
  0 <= d -> Z.pos m < 2 ^ d -> Z.pos (digits2_pos m) <= d.
Proof.
  intros Hd Hm. destruct (digits2_bounds m) as [Hlo _].
  destruct (Z_le_gt_dec (Z.pos (digits2_pos m)) d) as [|Hgt]; [done|].
  assert (2 ^ d <= 2 ^ (Z.pos (digits2_pos m) - 1)) by (apply Z.pow_le_mono_r; lia).
  lia.
Qed.

(** The canonical mantissa and exponent of a positive integer below [2^53]. *)
Lemma canonical_small (p : positive) :
  Z.pos p < 2 ^ 53 ->
  exists (m0 : positive) (e0 : Z),
    bounded64 m0 e0 = true /\ -52 <= e0 <= 0 /\ Z.pos m0 = Z.pos p * 2 ^ (- e0).
Proof.
  intros Hp. pose proof (digits2_le p 53 ltac:(lia) Hp) as Hd.
  destruct (53 - Z.pos (digits2_pos p)) as [|k|k] eqn:Hk; try lia.
  - exists p, 0. split; [|split; [lia | change (2 ^ (- 0)) with 1; lia]].
    unfold bounded, canonical_mantissa, fexp, emin, Num.prec, Num.emax.
    apply andb_true_iff. split; [apply Z.eqb_eq | apply Z.leb_le]; lia.
  - exists (Pos.iter xO p k), (- Z.pos k). split; [|split].
    + unfold bounded, canonical_mantissa, fexp, emin, Num.prec, Num.emax.
      rewrite digits2_iter_xO.
      apply andb_true_iff. split; [apply Z.eqb_eq | apply Z.leb_le]; lia.
    + lia.
    + by rewrite Zpos_iter_xO.
Qed.

Lemma cond_Zopp_mul (s : bool) (a b : Z) : cond_Zopp s a * b = cond_Zopp s (a * b).
Proof. destruct s; simpl; lia. Qed.

Lemma pow2_split (c a b : Z) : 0 <= a -> 0 <= b -> c = a + b -> 2 ^ c = 2 ^ a * 2 ^ b.
Proof. intros Ha Hb ->. by apply Z.pow_add_r. Qed.

(** [integer] in units of [2^z], below both the exponent and 0. *)
Lemma integer_scaled (s : bool) (m : positive) (e n z : Z) :
  integer (S754_finite s m e) n -> z <= e -> z <= 0 ->
  cond_Zopp s (scaled m e z) = n * 2 ^ (- z).
Proof.
  intros [_ Hv] Hz Hz0. unfold scaled. rewrite <- cond_Zopp_mul.
  destruct (Z.le_gt_cases 0 e) as [He | He].
  - rewrite Z.max_l, Z.max_r, Z.mul_1_r in Hv by lia. rewrite <- Hv.
    rewrite (pow2_split (e - z) e (- z)) by lia. lia.
  - rewrite Z.max_r, Z.max_l, Z.mul_1_r in Hv by lia. rewrite Hv.
    rewrite (pow2_split (- z) (- e) (e - z)) by lia. lia.
Qed.

Lemma shl_align_scaled (m : positive) (e z : Z) :
  z <= e -> Z.pos (fst (shl_align m e z)) = scaled m e z.
Proof.
  intros Hz. unfold shl_align, scaled.
  destruct (z - e) as [|k|k] eqn:Hk; simpl fst; try lia.
  - replace (e - z) with 0 by lia. lia.
  - rewrite Zpos_iter_xO. f_equal. f_equal. lia.
Qed.

(** Rounding a sum that a canonical mantissa and exponent represent
    gives them back. *)
Lemma normalize_exact (S ez z : Z) (s : bool) (m0 : positive) (e0 : Z) :
  bounded64 m0 e0 = true -> z <= ez -> z <= e0 ->
  S * 2 ^ (ez - z) = cond_Zopp s (scaled m0 e0 z) ->
  binary_normalize Num.prec Num.emax S ez false = S754_finite s m0 e0.
Proof.
  intros Hb Hz Hz0 Hv.
  pose proof (scaled_pos m0 e0 z Hz0) as Hpos.
  assert (0 < 2 ^ (ez - z)) as Hpow by (apply Z.pow_pos_nonneg; lia).
  destruct S as [|q|q], s; simpl in Hv; try nia; simpl binary_normalize.
  - apply round_value with z; done.
  - apply round_value with z; try done.
    unfold scaled at 1. rewrite <- Pos2Z.opp_pos in Hv. lia.
Qed.

(** The integers of magnitude at most [2^53] are numbers. *)
Lemma of_Z_integer (n : Z) : Z.abs n <= 2 ^ 53 -> integer (Num.of_Z n) n.
Proof.
  intros Hn.
  assert (forall s p, Z.pos p < 2 ^ 53 ->
            integer (round64 s p 0) (cond_Zopp s (Z.pos p))) as Hsmall.
  { intros s p Hp. destruct (canonical_small p Hp) as (m0 & e0 & Hb & He & Hm).
    assert (scaled p 0 e0 = scaled m0 e0 e0) as Hv.
    { unfold scaled. rewrite Z.sub_diag, Z.sub_0_l, Hm, Z.pow_0_r. lia. }
    rewrite (round_value s p m0 0 e0 e0 Hb) by (done || lia).
    split; [done|]. rewrite Z.max_r, Z.max_l, Z.mul_1_r by lia.
    rewrite Hm. destruct s; simpl; lia. }
  destruct n as [|p|p]; [done | |].
  - destruct (Z.eq_dec (Z.pos p) (2 ^ 53)) as [Hp | Hp].
    + injection Hp as ->. vm_compute. done.
    + apply (Hsmall false). lia.
  - destruct (Z.eq_dec (Z.pos p) (2 ^ 53)) as [Hp | Hp].
    + injection Hp as ->. vm_compute. done.
    + apply (Hsmall true). lia.
Qed.

(** A sum of magnitude at most [2^53] of two integer-valued numbers is
    computed without rounding. *)
Lemma integer_add (x y : number) (a b : Z) :
  integer x a -> integer y b -> Z.abs (a + b) <= 2 ^ 53 ->
  integer (x + y)%num (a + b).
Proof.
  intros Hx Hy Hc.
  destruct x as [sx| | |sx mx ex], y as [sy| | |sy my ey]; try done.
  - simpl in Hx, Hy. subst. by destruct sx, sy.
  - simpl in Hx. by subst.
  - simpl in Hy. subst. by rewrite Z.add_0_r.
  - unfold Num.add, SFadd.
    set (ez := Z.min ex ey). set (z := Z.min ez 0).
    rewrite !shl_align_scaled by lia.
    pose proof (integer_scaled _ _ _ _ z Hx ltac:(lia) ltac:(lia)) as Hvx.
    pose proof (integer_scaled _ _ _ _ z Hy ltac:(lia) ltac:(lia)) as Hvy.
    set (S := cond_Zopp sx (scaled mx ex ez) + cond_Zopp sy (scaled my ey ez)).
    assert (S * 2 ^ (ez - z) = (a + b) * 2 ^ (- z)) as HS.
    { unfold S. rewrite Z.mul_add_distr_r, !cond_Zopp_mul.
      rewrite <- !scaled_lower by lia. rewrite Hvx, Hvy. lia. }
    assert (0 < 2 ^ (ez - z)) by (apply Z.pow_pos_nonneg; lia).
    assert (0 < 2 ^ (- z)) by (apply Z.pow_pos_nonneg; lia).
    destruct (Z.eq_dec (a + b) 0) as [Hab | Hab].
    + rewrite Hab in *. assert (S = 0) as -> by nia. done.
    + pose proof (of_Z_integer (a + b) Hc) as Hr.
      destruct (Num.of_Z (a + b)) as [s| | |s m0 e0] eqn:Hof; try done.
      set (z' := Z.min z e0).
      rewrite (normalize_exact S ez z' s m0 e0); [done | by destruct Hr | lia | lia |].
      rewrite (integer_scaled _ _ _ _ z' Hr) by lia.
      rewrite (pow2_split (ez - z') (ez - z) (z - z')) by lia.
      rewrite Z.mul_assoc, HS.
      rewrite (pow2_split (- z') (- z) (z - z')) by lia. lia.
Qed.

Lemma integer_sign (s : bool) (m : positive) (e n : Z) :
  integer (S754_finite s m e) n -> if s then n < 0 else 0 < n.
Proof.
  intros [_ Hv].
  assert (0 < 2 ^ Z.max e 0) by (apply Z.pow_pos_nonneg; lia).
  assert (0 < 2 ^ Z.max (- e) 0) by (apply Z.pow_pos_nonneg; lia).
  destruct s; simpl in Hv; nia.
Qed.

Lemma strict_eq_finite (s : bool) (m : positive) (e : Z) :
  Num.strict_eq (S754_finite s m e) (S754_finite s m e) = true.
Proof.
  unfold Num.strict_eq, SFeqb, SFcompare.
  rewrite Z.compare_refl. fold (Pos.compare m m). rewrite Pos.compare_refl.
  by destruct s.
Qed.

Lemma strict_eq_refl (x : number) : Num.isNaN x = false -> Num.strict_eq x x = true.
Proof.
  destruct x as [s|s| |s m e]; intros Hx; try done.
  - by destruct s.
  - apply strict_eq_finite.
Qed.

(** Two valid numbers of the same integer value are strictly equal. *)
(** More generally a sum is computed without rounding whenever it is a
    number: it is then that number, or a zero of either sign. *)
Lemma add_finite_exact (sx sy s : bool) (mx my m0 : positive) (ex ey e0 a b : Z) :
  integer (S754_finite sx mx ex) a -> integer (S754_finite sy my ey) b ->
  integer (S754_finite s m0 e0) (a + b) ->
  (S754_finite sx mx ex + S754_finite sy my ey)%num = S754_finite s m0 e0.
Proof.
  intros Hx Hy Hr. unfold Num.add, SFadd.
  set (ez := Z.min ex ey). set (z := Z.min (Z.min ez 0) e0).
  rewrite !shl_align_scaled by lia.
  apply normalize_exact with z; [by destruct Hr | lia | lia |].
  rewrite (integer_scaled _ _ _ _ z Hr) by lia.
  rewrite Z.mul_add_distr_r, !cond_Zopp_mul, <- !scaled_lower by lia.
  rewrite (integer_scaled _ _ _ _ z Hx), (integer_scaled _ _ _ _ z Hy) by lia. lia.
Qed.

Lemma add_finite_cancel (sx sy : bool) (mx my : positive) (ex ey a : Z) :
  integer (S754_finite sx mx ex) a -> integer (S754_finite sy my ey) (- a) ->
  (S754_finite sx mx ex + S754_finite sy my ey)%num = S754_zero false.
Proof.
  intros Hx Hy. unfold Num.add, SFadd.
  set (ez := Z.min ex ey). set (z := Z.min ez 0).
  rewrite !shl_align_scaled by lia.
  pose proof (integer_scaled _ _ _ _ z Hx ltac:(lia) ltac:(lia)) as Hvx.
  pose proof (integer_scaled _ _ _ _ z Hy ltac:(lia) ltac:(lia)) as Hvy.
  set (S := cond_Zopp sx (scaled mx ex ez) + cond_Zopp sy (scaled my ey ez)).
  assert (S * 2 ^ (ez - z) = 0) as HS.
  { unfold S. rewrite Z.mul_add_distr_r, !cond_Zopp_mul.
    rewrite <- !scaled_lower by lia. rewrite Hvx, Hvy. lia. }
  assert (0 < 2 ^ (ez - z)) by (apply Z.pow_pos_nonneg; lia).
  assert (S = 0) as -> by nia. done.
Qed.

(** Two numbers of the same integer value are strictly equal. *)
Lemma integer_unique (x y : number) (n : Z) :
  integer x n -> integer y n -> Num.strict_eq x y = true.
Proof.
  intros Hx Hy.
  destruct x as [sx| | |sx mx ex], y as [sy| | |sy my ey]; try done.
  - simpl in Hx. subst. apply integer_sign in Hy. destruct sy; lia.
  - simpl in Hy. subst. apply integer_sign in Hx. destruct sx; lia.
  - assert (sx = sy) as ->.
    { apply integer_sign in Hx as Hsx. apply integer_sign in Hy as Hsy.
      destruct sx, sy; done || lia. }
    pose proof (round_same sy mx ex ltac:(by destruct Hx)) as H1.
    set (z := Z.min (Z.min ex ey) 0).
    rewrite (round_value sy mx my ex ey z) in H1; [| by destruct Hy | lia | lia |].
    + injection H1 as -> ->. apply strict_eq_finite.
    + pose proof (integer_scaled _ _ _ _ z Hx ltac:(lia) ltac:(lia)) as Hvx.
      pose proof (integer_scaled _ _ _ _ z Hy ltac:(lia) ltac:(lia)) as Hvy.
      destruct sy; simpl in Hvx, Hvy; lia.
Qed.


(** Subtraction is the addition of the opposite. *)
Lemma sub_add_neg (x y : number) : (x - y)%num = (x + Num.neg y)%num.
Proof.
  destruct x as [sx|sx| |sx mx ex], y as [sy|sy| |sy my ey];
    try done; by destruct sx, sy.
Qed.

Lemma integer_neg (x : number) (n : Z) : integer x n -> integer (Num.neg x) (- n).
Proof.
  destruct x as [s| | |s m e]; try done.
  - simpl. lia.
  - intros [Hb Hv]. split; [done|]. destruct s; simpl in *; lia.
Qed.

Lemma integer_sub (x y : number) (a b : Z) :
  integer x a -> integer y b -> Z.abs (a - b) <= 2 ^ 53 ->
  integer (x - y)%num (a - b).
Proof.
  intros Hx Hy Hc. rewrite sub_add_neg.
  apply integer_add; [done | by apply integer_neg | done].
Qed.


Lemma bounded_digits (m : positive) (e : Z) :
  bounded64 m e = true ->
  Z.pos (digits2_pos m) <= 53 /\ -1074 <= e /\ (-1074 < e -> Z.pos (digits2_pos m) = 53).
Proof.
  intros [Hc _]%bounded_canonical.
  unfold fexp, emin, Num.prec, Num.emax in Hc. lia.
Qed.

(** Among canonical mantissas the exponent decides the order. *)
Lemma canonical_lt (m1 m2 : positive) (e1 e2 z : Z) :
  bounded64 m1 e1 = true -> bounded64 m2 e2 = true ->
  e1 < e2 -> z <= e1 -> scaled m1 e1 z < scaled m2 e2 z.
Proof.
  intros (Hd1 & He1 & _)%bounded_digits (_ & _ & Hd2)%bounded_digits Hlt Hz.
  specialize (Hd2 ltac:(lia)).
  destruct (digits2_bounds m1) as [_ Hm1]. destruct (digits2_bounds m2) as [Hm2 _].
  rewrite Hd2 in Hm2.
  assert (2 ^ Z.pos (digits2_pos m1) <= 2 ^ 53) by (apply Z.pow_le_mono_r; lia).
  unfold scaled.
  assert (0 < 2 ^ (e1 - z)) as HP by (apply Z.pow_pos_nonneg; lia).
  rewrite (pow2_split (e2 - z) (e2 - e1) (e1 - z)) by lia.
  assert (2 ^ 1 <= 2 ^ (e2 - e1)) as HQ by (apply Z.pow_le_mono_r; lia).
  change (2 ^ (53 - 1)) with 4503599627370496 in Hm2.
  change (2 ^ 53) with 9007199254740992 in *. change (2 ^ 1) with 2 in *.
  revert HP HQ. generalize (2 ^ (e1 - z)) (2 ^ (e2 - e1)). intros P Q HP HQ.
  apply Z.lt_le_trans with (9007199254740992 * P); [nia|].
  apply Z.le_trans with (4503599627370496 * (Q * P)); nia.
Qed.

(** [<] on two integer-valued numbers is [<] on their values. *)
Lemma integer_lt (x y : number) (a b : Z) :
  integer x a -> integer y b -> a < b -> Num.lt x y = true.
Proof.
  intros Hx Hy Hab.
  destruct x as [sx| | |sx mx ex], y as [sy| | |sy my ey]; try done.
  - simpl in Hx, Hy. lia.
  - simpl in Hx. subst. apply integer_sign in Hy. destruct sy; [lia | done].
  - simpl in Hy. subst. apply integer_sign in Hx. destruct sx; [done | lia].
  - pose proof (integer_sign _ _ _ _ Hx) as Hsx. pose proof (integer_sign _ _ _ _ Hy) as Hsy.
    set (z := Z.min (Z.min ex ey) 0).
    pose proof (integer_scaled _ _ _ _ z Hx ltac:(lia) ltac:(lia)) as Hvx.
    pose proof (integer_scaled _ _ _ _ z Hy ltac:(lia) ltac:(lia)) as Hvy.
    assert (0 < 2 ^ (- z)) by (apply Z.pow_pos_nonneg; lia).
    destruct Hx as [Hbx _], Hy as [Hby _].
    unfold Num.lt, SFltb, SFcompare. fold (Pos.compare mx my).
    destruct sx, sy; try done; try lia; simpl in Hvx, Hvy.
    + (* both negative *)
      destruct (Z.compare_spec ex ey) as [-> | Hlt | Hgt]; [| | done].
      * destruct (Pos.compare_spec mx my) as [-> | Hm | Hm]; [nia | | done].
        unfold scaled in *. assert (0 < 2 ^ (ey - z)) by (apply Z.pow_pos_nonneg; lia). nia.
      * pose proof (canonical_lt mx my ex ey z Hbx Hby Hlt ltac:(lia)). nia.
    + (* both positive *)
      destruct (Z.compare_spec ex ey) as [-> | Hlt | Hgt]; [| done |].
      * destruct (Pos.compare_spec mx my) as [-> | Hm | Hm]; [nia | done |].
        unfold scaled in *. assert (0 < 2 ^ (ey - z)) by (apply Z.pow_pos_nonneg; lia). nia.
      * pose proof (canonical_lt my mx ey ex z Hby Hbx Hgt ltac:(lia)). nia.
Qed.

Ltac compare_cases :=
  repeat match goal with
    | |- context [Pos.compare_cont Eq ?a ?b] => change (Pos.compare_cont Eq a b) with (Pos.compare a b)
    | H : context [Pos.compare_cont Eq ?a ?b] |- _ => change (Pos.compare_cont Eq a b) with (Pos.compare a b) in H
    end;
  repeat match goal with
    | H : context [Z.compare ?a ?b] |- _ => destruct (Z.compare_spec a b)
    | |- context [Z.compare ?a ?b] => destruct (Z.compare_spec a b)
    | H : context [Pos.compare ?a ?b] |- _ => destruct (Pos.compare_spec a b)
    | |- context [Pos.compare ?a ?b] => destruct (Pos.compare_spec a b)
    end.

(** [x < y] and [y <= z] give [x < z], for all numbers: the comparison
    orders signs, then exponents, then mantissas. *)
Lemma lt_le_trans (x y z : number) :
  Num.lt x y = true -> Num.ge z y = true -> Num.lt x z = true.
Proof.
  unfold Num.lt, Num.ge, SFltb, SFleb, SFcompare.
  destruct x as [sx|sx| |sx mx ex], y as [sy|sy| |sy my ey], z as [sz|sz| |sz mz ez];
    try done; try (by destruct sx, sy, sz);
    destruct sx, sy, sz; try done; intros H1 H2; compare_cases;
    simpl in *; try done; subst; lia.
Qed.

(** Multiplying by 1 and by -1 is exact on the elements of a buffer. *)
Lemma one_eq : Num.one = S754_finite false 4503599627370496 (-52).
Proof. reflexivity. Qed.

Lemma mul_one_l (x : number) : Num.valid x = true -> (Num.one * x)%num = x.
Proof.
  destruct x as [s|s| |s m e]; try done. intros Hb.
  rewrite one_eq. unfold Num.mul, SFmul.
  change (4503599627370496 * m)%positive with (Pos.iter xO m 52).
  replace (-52 + e) with (e - 52) by lia.
  by apply round_aux_shifted.
Qed.

Lemma mul_minus_one_l (x : number) :
  Num.valid x = true -> (Num.of_Z (-1) * x)%num = Num.neg x.
Proof.
  destruct x as [s|s| |s m e]; try done. intros Hb.
  change (Num.of_Z (-1)) with (S754_finite true 4503599627370496 (-52)).
  unfold Num.mul, SFmul.
  change (4503599627370496 * m)%positive with (Pos.iter xO m 52).
  replace (-52 + e) with (e - 52) by lia.
  by apply round_aux_shifted.
Qed.

(** ** Loops over a buffer *)

Section Loops.

Local Open Scope nat_scope.

(** A loop that rewrites the element of each index it visits from that
    element alone. *)
Lemma for_loop_store_lookup (f : nat -> number -> number) (n i j : nat) (d : TypedArray) :
  for_loop n i (fun k d => TA.store d k (f k (TA.elem d k))) d !! j
  = if decide (i <= j < i + n) then f j <$> d !! j else d !! j.
Proof.
  revert i d. induction n as [|n IH]; intros i d; simpl.
  - case_decide; [lia | done].
  - rewrite IH. unfold TA.store at 1 2. destruct (decide (j = i)) as [-> | Hne].
    + rewrite decide_False by lia. rewrite decide_True by lia.
      unfold TA.elem. destruct (d !! i) as [x|] eqn:Hx.
      * apply list_lookup_insert_eq. by eapply lookup_lt_Some.
      * simpl. rewrite list_insert_ge; [done | by apply lookup_ge_None].
    + rewrite list_lookup_insert_ne by done.
      repeat case_decide; done || lia.
Qed.

Lemma for_loop_store_length (g : nat -> TypedArray -> number) (n i : nat) (d : TypedArray) :
  List.length (for_loop n i (fun k d => TA.store d k (g k d)) d) = List.length d.
Proof.
  revert i d. induction n as [|n IH]; intros i d; simpl; [done|].
  rewrite IH. apply length_insert.
Qed.

Lemma for_range_zip (op : number -> number -> nat -> number) (d1 d2 : TypedArray) :
  List.length d1 = List.length d2 ->
  for_range 0 (List.length d1)
    (fun i d => TA.store d i (op (TA.elem d i) (TA.elem d2 i) i)) d1
  = imap (fun i a => op a (TA.elem d2 i) i) d1.
Proof.
  intros Hl. unfold for_range. rewrite Nat.sub_0_r.
  apply list_eq. intros j.
  rewrite (for_loop_store_lookup (fun k a => op a (TA.elem d2 k) k)).
  rewrite list_lookup_imap. case_decide as Hj; [done|].
  rewrite lookup_ge_None_2 by lia. done.
Qed.

Lemma imap_zip_with (g : number -> number -> number) (d1 d2 : TypedArray) :
  List.length d1 = List.length d2 ->
  imap (fun i a => g a (TA.elem d2 i)) d1 = zip_with g d1 d2.
Proof.
  intros Hl. apply list_eq. intros j.
  rewrite list_lookup_imap, lookup_zip_with. unfold TA.elem.
  destruct (d1 !! j) as [a|] eqn:Ha; [|done]. simpl.
  destruct (d2 !! j) as [b|] eqn:Hb; [done|].
  apply lookup_lt_Some in Ha. apply lookup_ge_None in Hb. lia.
Qed.

Lemma for_range_map (g : number -> number) (d : TypedArray) :
  for_range 0 (List.length d) (fun i d => TA.store d i (g (TA.elem d i))) d = g <$> d.
Proof.
  unfold for_range. rewrite Nat.sub_0_r. apply list_eq. intros j.
  rewrite (for_loop_store_lookup (fun _ a => g a)), list_lookup_fmap.
  case_decide as Hj; [done|]. rewrite lookup_ge_None_2 by lia. done.
Qed.

Lemma for_range_fill (v : number) (n : nat) :
  for_range 0 n (fun i d => TA.store d i v) (TA.alloc n) = replicate n v.
Proof.
  unfold for_range, TA.alloc. rewrite Nat.sub_0_r. apply list_eq. intros j.
  rewrite (for_loop_store_lookup (fun _ _ => v)).
  destruct (decide (j < n)) as [Hj | Hj].
  - rewrite decide_True by lia. rewrite !lookup_replicate_2 by done. done.
  - rewrite decide_False by lia.
    rewrite !(proj1 (lookup_replicate_None _ _ _)) by lia. done.
Qed.

(** A loop that adds a term for each index to an accumulator. *)
Lemma for_loop_sum (term : nat -> number) (n i : nat) (r : number) :
  for_loop n i (fun k result => (result + term k)%num) r
  = foldl Num.add r (term <$> seq i n).
Proof.
  revert i r. induction n as [|n IH]; intros i r; simpl; [done|]. by rewrite IH.
Qed.

Lemma zip_with_seq (g : number -> number -> number) (d1 d2 : TypedArray) :
  List.length d1 = List.length d2 ->
  zip_with g d1 d2 = (fun k => g (TA.elem d1 k) (TA.elem d2 k)) <$> seq 0 (List.length d1).
Proof.
  intros Hl. apply list_eq. intros j.
  rewrite lookup_zip_with, list_lookup_fmap. unfold TA.elem.
  destruct (decide (j < List.length d1)) as [Hj | Hj].
  - rewrite lookup_seq_lt by done. simpl.
    destruct (lookup_lt_is_Some_2 d1 j Hj) as [a ->].
    destruct (lookup_lt_is_Some_2 d2 j ltac:(lia)) as [b ->]. done.
  - rewrite lookup_seq_ge by lia. rewrite (lookup_ge_None_2 d1) by lia. done.
Qed.

Lemma fmap_seq_elem (g : number -> number) (d : TypedArray) :
  g <$> d = (fun k => g (TA.elem d k)) <$> seq 0 (List.length d).
Proof.
  apply list_eq. intros j. rewrite !list_lookup_fmap. unfold TA.elem.
  destruct (decide (j < List.length d)) as [Hj | Hj].
  - rewrite lookup_seq_lt by done. simpl.
    destruct (lookup_lt_is_Some_2 d j Hj) as [a ->]. done.
  - rewrite lookup_seq_ge by lia. rewrite (lookup_ge_None_2 d) by lia. done.
Qed.

End Loops.

(** ** The fallback kernels as list functions *)

Section Fallback.

Local Open Scope nat_scope.
Import Vector.

(** On constructed vectors of equal lengths the loops of the fallback
    kernels are [zip_with], [fmap] and a left fold. *)
Lemma wf_data (v : t) :
  wf v -> Vector.length v ≠ 0 ->
  exists d, data v = Some d /\ Vector.length v = List.length d.
Proof.
  unfold wf. destruct (data v) as [d|]; intros Hwf Hl; [by exists d | done].
Qed.

Lemma with_data_same (v : t) (d : TypedArray) : data v = Some d -> with_data v d = v.
Proof. destruct v as [ty l dt]. simpl. by intros ->. Qed.

Lemma binOp_zip (g : number -> number -> number) (this vector : t) (d1 d2 : TypedArray) :
  data this = Some d1 -> data vector = Some d2 ->
  Vector.length this = List.length d1 -> Vector.length vector = List.length d2 ->
  Vector.length this = Vector.length vector ->
  binOp this vector (fun a b _ => g a b) = Return (with_data this (zip_with g d1 d2)).
Proof.
  intros H1 H2 Hl1 Hl2 Hl. unfold binOp. rewrite decide_False by (intros Hne; by apply Hne).
  case_decide as H0.
  - destruct H0 as [H0 _]. rewrite H0 in Hl1.
    destruct d1; [|done]. simpl. by rewrite with_data_same.
  - rewrite H1, H2, Hl1.
    rewrite (for_range_zip (fun a b _ => g a b)) by lia.
    rewrite (imap_zip_with g) by lia. done.
Qed.

Lemma each_map (g : number -> number) (this : t) (d : TypedArray) :
  data this = Some d -> Vector.length this = List.length d ->
  each this (fun _ i d => TA.store d i (g (TA.elem d i))) = Return (with_data this (g <$> d)).
Proof.
  intros H1 Hl. unfold each. case_decide as H0.
  - rewrite H0 in Hl. destruct d; [|done]. simpl. by rewrite with_data_same.
  - rewrite H1, Hl. by rewrite (for_range_map g).
Qed.

Lemma dot_fallback (this vector : t) (a b : TypedArray) :
  data this = Some a -> data vector = Some b ->
  Vector.length this = List.length a -> Vector.length vector = List.length b ->
  Vector.length this = Vector.length vector ->
  dot None this vector = Return (Spec.sum (zip_with Num.mul a b)).
Proof.
  intros H1 H2 Hl1 Hl2 Hl. unfold dot. rewrite decide_False by (intros Hne; by apply Hne).
  simpl. case_decide as H0.
  - rewrite H0 in Hl1. destruct a; [|done]. done.
  - rewrite H1, H2, Hl1. unfold for_range. rewrite Nat.sub_0_r.
    rewrite (for_loop_sum (fun i => (TA.elem a i * TA.elem b i)%num)).
    rewrite (zip_with_seq Num.mul) by lia. done.
Qed.

Lemma magnitude_fallback_sum (this : t) (d : TypedArray) :
  data this = Some d -> Vector.length this = List.length d ->
  magnitude_fallback this
  = Return (Num.sqrt (Spec.sum ((fun b => (b * b)%num) <$> d))).
Proof.
  intros H1 Hl. unfold magnitude_fallback. rewrite H1, Hl.
  unfold for_range. rewrite Nat.sub_0_r.
  rewrite (for_loop_sum (fun i => (TA.elem d i * TA.elem d i)%num)).
  by rewrite (fmap_seq_elem (fun b => (b * b)%num)).
Qed.

End Fallback.

(** ** The two paths *)

Section Paths.

Local Open Scope nat_scope.
Import Vector.

(** A backend that keeps the contract returns, when it returns, what
    the fallback kernel computes; with nothing bound the fallback
    kernel runs. *)
Lemma zip_with_scaled (g : number -> number -> number) (factor : number) (y x : TypedArray) :
  (forall d s, Num.valid s = true -> (d + factor * s)%num = g d s) ->
  Forall (fun s => Num.valid s = true) x ->
  zip_with (fun d s => (d + factor * s)%num) y x = zip_with g y x.
Proof.
  intros Hg Hx. revert y. induction Hx as [|s x Hs Hx IH]; intros [|d y]; simpl; try done.
  by rewrite Hg, IH.
Qed.

Lemma try_axpy_unbound (this vector : t) (alpha : number) :
  try_axpy None this vector alpha = None.
Proof. unfold try_axpy. by case_decide. Qed.

(** When the accelerated attempt of [add] or [subtract] returns, the
    fallback kernel returns the same vector. *)
Lemma axpy_conforming (be : bindings) (g : number -> number -> number) (factor : number)
    (this vector r : t) :
  Spec.conforming be -> wf this -> wf vector ->
  Forall (fun s => Num.valid s = true) (toArray vector) ->
  (forall d s, Num.valid s = true -> (d + factor * s)%num = g d s) ->
  try_axpy be this vector factor = Some r ->
  binOp this vector (fun a b _ => g a b) = Return r.
Proof.
  intros Hbe Hwf1 Hwf2 Hvalid Hg. unfold try_axpy. case_decide as Hl; [done|].
  destruct be as [bk|]; [|done].
  destruct (data vector) as [x|] eqn:Hx; [|done].
  destruct (data this) as [y|] eqn:Hy; [|done].
  destruct (nblas.axpy bk x y factor) as [y'|] eqn:Hcall; [|done].
  intros [= <-]. destruct Hbe as (Haxpy & _).
  apply Haxpy in Hcall. unfold Spec.scaledAdd in Hcall. case_decide; [|done].
  injection Hcall as <-.
  unfold wf in Hwf1, Hwf2. rewrite Hy in Hwf1. rewrite Hx in Hwf2.
  unfold toArray in Hvalid. rewrite Hx in Hvalid. simpl in Hvalid.
  rewrite (zip_with_scaled g) by done.
  apply binOp_zip; try done.
Qed.

Lemma add_conforming (be : bindings) (this vector : t) :
  Spec.conforming be -> wf this -> wf vector ->
  Forall (fun s => Num.valid s = true) (toArray vector) ->
  add be this vector = add None this vector.
Proof.
  intros Hbe Hwf1 Hwf2 Hvalid. unfold add. rewrite try_axpy_unbound. cbn [try_catch].
  destruct (try_axpy be this vector Num.one) as [r|] eqn:Htry; [|done]. cbn [try_catch].
  symmetry. eapply axpy_conforming; try done.
  intros d s Hs. by rewrite mul_one_l.
Qed.

Lemma subtract_conforming (be : bindings) (this vector : t) :
  Spec.conforming be -> wf this -> wf vector ->
  Forall (fun s => Num.valid s = true) (toArray vector) ->
  subtract be this vector = subtract None this vector.
Proof.
  intros Hbe Hwf1 Hwf2 Hvalid. unfold subtract. rewrite try_axpy_unbound. cbn [try_catch].
  destruct (try_axpy be this vector (Num.of_Z (-1))) as [r|] eqn:Htry; [|done]. cbn [try_catch].
  symmetry. eapply axpy_conforming; try done.
  intros d s Hs. by rewrite mul_minus_one_l, sub_add_neg.
Qed.

Lemma scale_conforming (be : bindings) (this : t) (scalar : number) :
  Spec.conforming be -> wf this ->
  scale be this scalar = scale None this scalar.
Proof.
  intros Hbe Hwf. unfold scale. simpl.
  destruct be as [bk|]; [|done]. simpl.
  destruct (data this) as [x|] eqn:Hx; [|done].
  destruct (nblas.scal bk x scalar) as [x'|] eqn:Hcall; [|done]. simpl.
  destruct Hbe as (_ & Hscal & _). apply Hscal in Hcall. injection Hcall as <-.
  unfold wf in Hwf. rewrite Hx in Hwf.
  symmetry. by apply (each_map (fun b => (b * scalar)%num)).
Qed.

Lemma try_dot_unbound (this vector : t) : try_dot None this vector = None.
Proof. done. Qed.

Lemma dot_conforming (be : bindings) (this vector : t) :
  Spec.conforming be -> wf this -> wf vector ->
  dot be this vector = dot None this vector.
Proof.
  intros Hbe Hwf1 Hwf2.
  destruct (try_dot be this vector) as [r|] eqn:Htry;
    [| unfold dot; by rewrite Htry, try_dot_unbound].
  destruct (decide (Vector.length this = Vector.length vector)) as [Hl | Hl];
    [| unfold dot; by rewrite !decide_True by done].
  unfold try_dot in Htry. destruct be as [bk|]; [|done].
  destruct (data this) as [x|] eqn:Hx; [|done].
  destruct (data vector) as [y|] eqn:Hy; [|done].
  unfold wf in Hwf1, Hwf2. rewrite Hx in Hwf1. rewrite Hy in Hwf2.
  rewrite (dot_fallback this vector x y) by done.
  unfold dot. rewrite decide_False by (intros Hne; by apply Hne).
  unfold try_dot. rewrite Hx, Hy, Htry. simpl.
  destruct Hbe as (_ & _ & Hdot & _). apply Hdot in Htry.
  unfold Spec.dot in Htry. case_decide; [|done]. by injection Htry as <-.
Qed.

Lemma magnitude_conforming (be : bindings) (this : t) :
  Spec.conforming be -> wf this ->
  magnitude be this = magnitude None this.
Proof.
  intros Hbe Hwf. unfold magnitude, magnitude_trace.
  case_decide as H0; [done|].
  destruct be as [bk|]; [|done]. unfold try_nrm2.
  destruct (data this) as [x|] eqn:Hx; [|done].
  destruct (nblas.nrm2 bk x) as [r|] eqn:Hcall; [|done]. simpl.
  destruct Hbe as (_ & _ & _ & Hnrm2). apply Hnrm2 in Hcall. injection Hcall as <-.
  unfold wf in Hwf. rewrite Hx in Hwf.
  symmetry. by apply magnitude_fallback_sum.
Qed.

Lemma backend_conforms : Spec.conforming (Some Spec.backend).
Proof. repeat split; simpl; by intros. Qed.

End Paths.

(** ** add, subtract, scale, dot and magnitude on both paths *)

Lemma constructor_Array (elements : list number) :
  Vector.constructor (Vector.from_Array elements) = Return (vector_of elements).
Proof. reflexivity. Qed.

Lemma wf_vector_of (elements : list number) : Vector.wf (vector_of elements).
Proof. reflexivity. Qed.

(** The scenarios of the specification, run on the model. *)
Example add_scenario :
  Vector.add None v123 v456 = Return (vector_of [Num.of_Z 5; Num.of_Z 7; Num.of_Z 9]).
Proof. vm_compute. reflexivity. Qed.

Example magnitude_scenario :
  Vector.magnitude None (vector_of [Num.of_Z 3; Num.of_Z 4]) = Return (Num.of_Z 5).
Proof. vm_compute. reflexivity. Qed.

Example dot_scenario : Vector.dot None v123 v456 = Return (Num.of_Z 32).
Proof. vm_compute. reflexivity. Qed.

Example fill_no_element :
  Vector.fill 0 (Some (inl Num.one)) None = Return Vector.initial.
Proof. reflexivity. Qed.

Example fill_negative_count :
  Vector.fill (-1) (Some (inl Num.zero)) None = Throw (Error "invalid size").
Proof. reflexivity. Qed.

Example combine_with_empty : Vector.combine Vector.initial v123 = Return v123.
Proof. reflexivity. Qed.

Example push_scenario : Vector.push v12 (Num.of_Z 3) = Return v123.
Proof. vm_compute. reflexivity. Qed.

Example x_scenario : Vector.x v123 = Return (Some (Num.of_Z 1)).
Proof. vm_compute. reflexivity. Qed.

Example range_step_exceeds_span :
  Vector.range 1 [Num.of_Z 0; Num.of_Z 3; Num.of_Z 2] = Some (Throw (Error "invalid range")).
Proof. vm_compute. reflexivity. Qed.

(** With the primitives of the contract bound, the accelerated attempt
    of [add] returns whenever the vectors have their buffers and equal
    lengths: the fallback kernel is not entered. *)
Lemma accelerated_attempt_returns (a b : Vector.t) (x y : TypedArray) :
  Vector.wf a -> Vector.wf b ->
  Vector.data b = Some x -> Vector.data a = Some y ->
  Vector.length a = Vector.length b ->
  Vector.try_axpy (Some Spec.backend) a b Num.one
  = Some (Vector.with_data a (zip_with (fun d s => (d + Num.one * s)%num) y x)).
Proof.
  intros Hwfa Hwfb Hx Hy Hl. unfold Vector.try_axpy.
  rewrite decide_False by (intros Hne; by apply Hne).
  rewrite Hx, Hy. simpl. unfold Spec.scaledAdd.
  unfold Vector.wf in Hwfa, Hwfb. rewrite Hy in Hwfa. rewrite Hx in Hwfb.
  rewrite decide_True by lia. done.
Qed.

(** C1. On the same inputs the accelerated path, with the primitives of
    the contract of section 4.2 bound, and the fallback path, with
    nothing bound, give the same result for [add], [subtract], [scale],
    [dot] and [magnitude]: the same vector or number, or the same
    exception.  The vectors are constructed ones, and the elements of the
    second are elements of a 64-bit float buffer. *)
Theorem accelerated_and_fallback_agree (a b : Vector.t) (scalar : number) :
  Vector.wf a -> Vector.wf b ->
  Forall (fun s => Num.valid s = true) (Vector.toArray b) ->
  Vector.add (Some Spec.backend) a b = Vector.add None a b
  /\ Vector.subtract (Some Spec.backend) a b = Vector.subtract None a b
  /\ Vector.scale (Some Spec.backend) a scalar = Vector.scale None a scalar
  /\ Vector.dot (Some Spec.backend) a b = Vector.dot None a b
  /\ Vector.magnitude (Some Spec.backend) a = Vector.magnitude None a.
Proof.
  intros Hwfa Hwfb Hvalid. pose proof backend_conforms as Hbe.
  repeat split.
  - by apply add_conforming.
  - by apply subtract_conforming.
  - by apply scale_conforming.
  - by apply dot_conforming.
  - by apply magnitude_conforming.
Qed.

Lemma accelerated_and_fallback_agree_witness :
  Vector.add (Some Spec.backend) v123 v456 = Vector.add None v123 v456
  /\ Vector.subtract (Some Spec.backend) v123 v456 = Vector.subtract None v123 v456
  /\ Vector.scale (Some Spec.backend) v123 (Num.of_Z 2) = Vector.scale None v123 (Num.of_Z 2)
  /\ Vector.dot (Some Spec.backend) v123 v456 = Vector.dot None v123 v456
  /\ Vector.magnitude (Some Spec.backend) v123 = Vector.magnitude None v123.
Proof.
  apply (accelerated_and_fallback_agree v123 v456 (Num.of_Z 2)).
  - reflexivity.
  - reflexivity.
  - repeat constructor.
Defined.

(** ** reduce *)

(** [reduce] throws the empty-reduction error exactly on a zero-length
    vector whose initial value is left out or is falsy. *)
Lemma reduce_throws_iff (this : Vector.t)
    (callback : number -> number -> nat -> TypedArray -> number) (initialValue : option number) :
  Vector.wf this ->
  Vector.reduce this callback initialValue = Throw empty_reduction
  <-> Vector.length this = 0%nat /\ from_option Num.falsy true initialValue = true.
Proof.
  intros Hwf. unfold Vector.reduce.
  destruct (bool_decide (Vector.length this = 0%nat)) eqn:Hl.
  - apply bool_decide_eq_true in Hl.
    destruct (from_option Num.falsy true initialValue) eqn:Hf; simpl.
    + done.
    + destruct initialValue as [value|]; [|done]. rewrite decide_True by done.
      split; [done | by intros [_ ?]].
  - apply bool_decide_eq_false in Hl. simpl.
    unfold Vector.wf in Hwf. destruct (Vector.data this) as [d|]; [|done].
    destruct initialValue as [value|].
    + rewrite decide_False by done. split; [done | by intros [? _]].
    + split; [done | by intros [? _]].
Qed.

(** With an initial value on a vector that is not empty, [reduce] folds
    from it, left to right. *)
Lemma reduce_initial_folds (elements : list number)
    (callback : number -> number -> nat -> TypedArray -> number) (value : number) :
  elements <> [] ->
  Vector.reduce (vector_of elements) callback (Some value)
  = Return (foldl (fun acc '(i, item) => callback acc item i elements) value
              (imap (fun i item => (i, item)) elements)).
Proof.
  intros Hne. unfold Vector.reduce. simpl.
  rewrite bool_decide_eq_false_2 by (by destruct elements). simpl.
  rewrite decide_False by (by destruct elements). f_equal.
  unfold for_range. rewrite Nat.sub_0_r.
  assert (forall n i acc,
            (i + n = List.length elements)%nat ->
            for_loop n i (fun i value => callback value (TA.elem elements i) i elements) acc
            = foldl (fun acc '(i, item) => callback acc item i elements) acc
                (imap (fun j item => ((i + j)%nat, item)) (drop i elements))) as Hloop.
  { induction n as [|n IH]; intros i acc Hn.
    - rewrite drop_ge by lia. done.
    - destruct (lookup_lt_is_Some_2 elements i ltac:(lia)) as [item Hitem].
      rewrite (drop_S _ _ _ Hitem). simpl. rewrite IH by lia.
      unfold TA.elem. rewrite Hitem. simpl. rewrite Nat.add_0_r. f_equal.
      apply imap_ext. intros j y _. simpl. f_equal. lia. }
  rewrite Hloop by lia. by rewrite drop_0.
Qed.

(** C2.  The code departs from the claim where the initial value is
    falsy: on a zero-length vector, with or without a buffer, [reduce]
    with the initial value 0 throws the empty-reduction error, although
    an initial value is supplied. *)
Theorem reduce_empty_initial_zero
    (callback : number -> number -> nat -> TypedArray -> number) :
  Vector.reduce (vector_of []) callback (Some Num.zero) = Throw empty_reduction
  /\ Vector.reduce Vector.initial callback (Some Num.zero) = Throw empty_reduction.
Proof. split; reflexivity. Qed.

(** ** equals *)

Section Equals.

Local Open Scope nat_scope.

Lemma equals_loop_all (d1 d2 : TypedArray) (l n i : nat) :
  i + n = l ->
  (forall j, i <= j < l -> TA.strict_eq (d1 !! j) (d2 !! j) = true) ->
  Vector.equals_loop n i l d1 d2 = l.
Proof.
  revert i. induction n as [|n IH]; intros i Hn Hall; simpl; [lia|].
  rewrite (proj2 (Nat.ltb_lt i l)) by lia. rewrite Hall by lia. simpl.
  apply IH; [lia|]. intros j Hj. apply Hall. lia.
Qed.

Lemma equals_pointwise (a b : Vector.t) (d1 d2 : TypedArray) :
  Vector.data a = Some d1 -> Vector.data b = Some d2 ->
  Vector.length a = Vector.length b ->
  (forall j, j < Vector.length a -> TA.strict_eq (d1 !! j) (d2 !! j) = true) ->
  Vector.equals a b = Return true.
Proof.
  intros H1 H2 Hl Hall. unfold Vector.equals.
  rewrite decide_False by (intros Hne; by apply Hne).
  case_decide; [done|]. rewrite H1, H2.
  rewrite (equals_loop_all d1 d2 (Vector.length a)); [by rewrite Nat.eqb_refl | lia |].
  intros j Hj. apply Hall. lia.
Qed.

End Equals.

(** C3, as stated, fails on a vector that holds NaN: [NaN === NaN] is
    false, so such a vector does not equal itself. *)
Lemma equals_self_NaN : Vector.wf vNaN /\ Vector.equals vNaN vNaN = Return false.
Proof. split; reflexivity. Qed.

(** C3, amended.  For every constructed vector [a] without a NaN among
    its elements, [equals(a, a)] is true; and for all vectors [a] and [b]
    of different lengths, [equals(a, b)] is false. *)
Theorem equals_reflexive_without_NaN (a b : Vector.t) :
  (Vector.wf a ->
   Forall (fun x => Num.isNaN x = false) (Vector.toArray a) ->
   Vector.equals a a = Return true)
  /\ (Vector.length a <> Vector.length b -> Vector.equals a b = Return false).
Proof.
  split.
  - intros Hwf Hnan. unfold Vector.wf in Hwf. unfold Vector.toArray in Hnan.
    destruct (Vector.data a) as [d|] eqn:Hd.
    + apply (equals_pointwise a a d d); try done.
      intros j Hj. rewrite Hwf in Hj.
      destruct (lookup_lt_is_Some_2 d j Hj) as [x Hx]. rewrite Hx. simpl.
      apply strict_eq_refl. rewrite Forall_lookup in Hnan. by apply (Hnan j).
    + unfold Vector.equals. rewrite decide_False by (intros Hne; by apply Hne).
      by rewrite decide_True.
  - intros Hl. unfold Vector.equals. by rewrite decide_True.
Qed.

Lemma equals_reflexive_without_NaN_witness :
  Vector.equals v123 v123 = Return true
  /\ Vector.equals v123 (vector_of [Num.of_Z 1]) = Return false.
Proof.
  destruct (equals_reflexive_without_NaN v123 (vector_of [Num.of_Z 1])) as [Hself Hother].
  split.
  - apply Hself; [reflexivity | repeat constructor].
  - apply Hother. simpl. lia.
Defined.

(** ** add, then subtract *)


Section AddSubtract.

Local Open Scope nat_scope.
Import Vector.

Lemma integer_valid (x : number) (n : Z) : integer x n -> Num.valid x = true.
Proof. destruct x; try done. by intros [Hb _]. Qed.

(** The static [add] and [subtract] copy their first argument and work
    on the copy. *)
Lemma constructor_copy (v : t) (d : TypedArray) :
  data v = Some d -> Vector.length v = List.length d -> Vector.length v ≠ 0 ->
  constructor (from_Vector v) = Return (mk (type v) (Vector.length v) (Some d)).
Proof.
  intros Hd Hl H0. unfold constructor, combine.
  rewrite decide_False by done. rewrite decide_True by done. by rewrite Hd.
Qed.

Lemma constructor_copy_empty (v : t) :
  Vector.length v = 0 -> constructor (from_Vector v) = Return initial.
Proof. intros H0. unfold constructor, combine. by rewrite decide_True. Qed.

Lemma static_add_zip (be : bindings) (a b : t) (da db : TypedArray) :
  Spec.conforming be ->
  data a = Some da -> data b = Some db ->
  Vector.length a = List.length da -> Vector.length b = List.length db ->
  Vector.length a = Vector.length b -> Vector.length a ≠ 0 ->
  Forall (fun s => Num.valid s = true) db ->
  static_add be a b
  = Return (mk (type a) (Vector.length a) (Some (zip_with Num.add da db))).
Proof.
  intros Hbe Ha Hb Hla Hlb Hl H0 Hvalid. unfold static_add.
  rewrite (constructor_copy a da) by done. simpl.
  rewrite add_conforming; try done; [| by unfold wf; rewrite Hb
                                     | by unfold toArray; rewrite Hb].
  unfold add. rewrite try_axpy_unbound. simpl.
  by rewrite (binOp_zip Num.add _ b da db).
Qed.

Lemma static_subtract_zip (be : bindings) (a b : t) (da db : TypedArray) :
  Spec.conforming be ->
  data a = Some da -> data b = Some db ->
  Vector.length a = List.length da -> Vector.length b = List.length db ->
  Vector.length a = Vector.length b -> Vector.length a ≠ 0 ->
  Forall (fun s => Num.valid s = true) db ->
  static_subtract be a b
  = Return (mk (type a) (Vector.length a) (Some (zip_with Num.sub da db))).
Proof.
  intros Hbe Ha Hb Hla Hlb Hl H0 Hvalid. unfold static_subtract.
  rewrite (constructor_copy a da) by done. simpl.
  rewrite subtract_conforming; try done; [| by unfold wf; rewrite Hb
                                          | by unfold toArray; rewrite Hb].
  unfold subtract. rewrite try_axpy_unbound. simpl.
  by rewrite (binOp_zip Num.sub _ b da db).
Qed.

Lemma static_add_empty (be : bindings) (a b : t) :
  Vector.length a = 0 -> Vector.length b = 0 -> static_add be a b = Return initial.
Proof.
  intros Ha Hb. unfold static_add. rewrite constructor_copy_empty by done. simpl.
  unfold add, try_axpy. rewrite decide_False by (simpl; lia).
  simpl. destruct be, (data b); simpl; unfold binOp; simpl;
    rewrite decide_False by lia; by rewrite decide_True by lia.
Qed.

Lemma static_subtract_empty (be : bindings) (a b : t) :
  Vector.length a = 0 -> Vector.length b = 0 -> static_subtract be a b = Return initial.
Proof.
  intros Ha Hb. unfold static_subtract. rewrite constructor_copy_empty by done. simpl.
  unfold subtract, try_axpy. rewrite decide_False by (simpl; lia).
  simpl. destruct be, (data b); simpl; unfold binOp; simpl;
    rewrite decide_False by lia; by rewrite decide_True by lia.
Qed.

End AddSubtract.




(** ** Indexing *)

(** [index >= length] gives [index > length - 1]: the length and its
    predecessor are integers below [2^53], computed exactly. *)
Lemma check_length_exceeded (v : Vector.t) (index : number) :
  Z.of_nat (Vector.length v) < 2 ^ 53 ->
  Num.ge index (Num.of_nat (Vector.length v)) = true ->
  Num.gt index (Num.of_nat (Vector.length v) - Num.one)%num = true.
Proof.
  intros Hl Hge. unfold Num.gt.
  apply lt_le_trans with (Num.of_nat (Vector.length v)); [|done].
  assert (integer (Num.of_nat (Vector.length v)) (Z.of_nat (Vector.length v))) as Hlen
    by (apply of_Z_integer; lia).
  apply (integer_lt _ _ (Z.of_nat (Vector.length v) - 1) (Z.of_nat (Vector.length v)));
    [| done | lia].
  apply integer_sub; [done | by apply (of_Z_integer 1) | lia].
Qed.

(** C5.  On every vector (of fewer than [2^53] elements, as every buffer
    is), also the empty one, [get(index)] throws the out-of-bounds error
    when [index] is not finite, is negative, or is at least the length;
    and on a vector of length 3 the accessor [w] is [get(3)] and throws
    that error. *)
Theorem get_out_of_bounds (v : Vector.t) (index : number) :
  Z.of_nat (Vector.length v) < 2 ^ 53 ->
  (Num.isFinite index = false
   \/ Num.lt index Num.zero = true
   \/ Num.ge index (Num.of_nat (Vector.length v)) = true ->
   Vector.get v index = Throw out_of_bounds)
  /\ (Vector.length v = 3%nat ->
      Vector.w v = Vector.get v (Num.of_Z 3) /\ Vector.w v = Throw out_of_bounds).
Proof.
  intros Hl. split.
  - intros Hindex. unfold Vector.get, Vector.check.
    destruct Hindex as [Hfin | [Hneg | Hge]].
    + by rewrite Hfin.
    + rewrite Hneg. by rewrite orb_true_r.
    + rewrite (check_length_exceeded v index Hl Hge). by rewrite orb_true_r.
  - intros H3. split; [done|].
    unfold Vector.w, Vector.get, Vector.check. rewrite H3. reflexivity.
Qed.

Lemma get_out_of_bounds_witness :
  Vector.get v123 (Num.of_Z 3) = Throw out_of_bounds
  /\ Vector.get (vector_of []) (Num.of_Z 0) = Throw out_of_bounds
  /\ Vector.w v123 = Throw out_of_bounds.
Proof.
  destruct (get_out_of_bounds v123 (Num.of_Z 3)) as [Hget Hw]; [reflexivity|].
  destruct (get_out_of_bounds (vector_of []) (Num.of_Z 0)) as [Hempty _]; [reflexivity|].
  split; [| split].
  - apply Hget. right. right. reflexivity.
  - apply Hempty. right. right. reflexivity.
  - apply Hw. reflexivity.
Defined.

(** ** range *)

(** More fuel does not change a result. *)
Lemma range_loop_more (fuel extra : nat) (backwards : bool) (start step end_ i : number)
    (j : nat) (data d : TypedArray) :
  Vector.range_loop fuel backwards start step end_ i j data = Some d ->
  Vector.range_loop (fuel + extra) backwards start step end_ i j data = Some d.
Proof.
  revert i j data. induction fuel as [|fuel IH]; intros i j data; simpl; [done|].
  destruct (Num.lt i end_); [apply IH | done].
Qed.

Lemma range_more (fuel extra : nat) (args : list number) (r : result Vector.t) :
  Vector.range fuel args = Some r -> Vector.range (fuel + extra) args = Some r.
Proof.
  unfold Vector.range.
  destruct (match args with
            | [start; end_] => Some (start, Num.one, end_)
            | [start; step; end_] => Some (start, step, end_)
            | _ => None
            end) as [[[start step] end_]|]; [|done].
  destruct (if Num.lt (end_ - start)%num Num.zero then (end_, start) else (start, end_))
    as [start' end'].
  destruct (Num.gt step (end' - start')%num); [done|].
  destruct (TA.new_length _) as [data|e]; [|done].
  destruct (Vector.range_loop fuel _ _ _ _ _ _ _) as [d|] eqn:Hloop; [|done].
  by rewrite (range_loop_more _ _ _ _ _ _ _ _ _ _ Hloop).
Qed.

(** C6.  [range(0, 0.5, 2)] is the vector [0, 0.5, 1, 1.5] and
    [range(2, 0.5, 0)] is the vector [2, 1.5, 1, 0.5], with 5 rounds of
    fuel or more; the elements of the second are [end - i + start] for
    the bounds after the swap, 0 and 2, as [i] takes the values of the
    first, which is not the first reversed. *)
Theorem range_examples (extra : nat) :
  Vector.range (5 + extra) [Num.of_Z 0; half; Num.of_Z 2] = Some (Return (vector_of ascending))
  /\ Vector.range (5 + extra) [Num.of_Z 2; half; Num.of_Z 0]
     = Some (Return (vector_of descending))
  /\ Vector.length (vector_of ascending) = 4%nat
  /\ Vector.length (vector_of descending) = 4%nat
  /\ descending = (fun i => ((Num.of_Z 2 - i) + Num.of_Z 0)%num) <$> ascending
  /\ descending <> reverse ascending.
Proof.
  split; [| split; [| split; [| split; [| split]]]].
  - apply range_more. vm_compute. reflexivity.
  - apply range_more. vm_compute. reflexivity.
  - reflexivity.
  - reflexivity.
  - vm_compute. reflexivity.
  - vm_compute. discriminate.
Qed.


(** ** project *)

Section Project.

Local Open Scope nat_scope.

(** The window of a typed array, element by element, and what writing
    another window does to it. *)
Lemma window_lookup (s : list number) (offset n j : nat) :
  take n (drop offset s) !! j = if decide (j < n) then s !! (offset + j) else None.
Proof.
  case_decide as Hj.
  - by rewrite lookup_take_lt, lookup_drop by done.
  - apply lookup_take_ge. lia.
Qed.

Lemma splice_length (s : list number) (offset : nat) (d : TypedArray) :
  offset + List.length d <= List.length s ->
  List.length (Heap.splice s offset d) = List.length s.
Proof.
  intros Hfit. unfold Heap.splice.
  rewrite !length_app, length_take, length_drop. lia.
Qed.

Lemma splice_lookup (s : list number) (offset i : nat) (d : TypedArray) :
  offset + List.length d <= List.length s ->
  Heap.splice s offset d !! i
  = if decide (offset <= i < offset + List.length d) then d !! (i - offset) else s !! i.
Proof.
  intros Hfit. unfold Heap.splice.
  assert (List.length (take offset s) = offset) as Htake by (rewrite length_take; lia).
  destruct (decide (i < offset)) as [Hlo | Hlo].
  - rewrite lookup_app_l by lia. rewrite decide_False by lia. by apply lookup_take_lt.
  - rewrite lookup_app_r by lia. rewrite Htake.
    destruct (decide (i < offset + List.length d)) as [Hhi | Hhi].
    + rewrite decide_True by lia. by rewrite lookup_app_l by lia.
    + rewrite decide_False by lia. rewrite lookup_app_r by lia.
      rewrite lookup_drop. f_equal. lia.
Qed.

Lemma window_splice_same (s : list number) (offset : nat) (d : TypedArray) :
  offset + List.length d <= List.length s ->
  take (List.length d) (drop offset (Heap.splice s offset d)) = d.
Proof.
  intros Hfit. apply list_eq. intros j. rewrite window_lookup.
  case_decide as Hj.
  - rewrite splice_lookup by done. rewrite decide_True by lia. f_equal. lia.
  - symmetry. apply lookup_ge_None. lia.
Qed.



Lemma read_elements (h : Heap.t) (r ta : Heap.loc) (o : Heap.object) (d : TypedArray) :
  Heap.objects h !! r = Some o -> Heap.o_data o = Some ta ->
  Heap.elements h ta = Some d ->
  Heap.read h r = Some (Vector.mk (Heap.o_type o) (Heap.o_length o) (Some d)).
Proof. intros Ho Hta Hd. unfold Heap.read. rewrite Ho. simpl. by rewrite Hta, Hd. Qed.

(** After [d] has been written through the typed array [ta]: that
    typed array shows [d], and a typed array that shares no element with
    it shows what it showed. *)
Lemma write_same (h : Heap.t) (ta : Heap.loc) (x : Heap.array) (s : list number)
    (d : TypedArray) :
  Heap.arrays h !! ta = Some x -> Heap.buffers h !! Heap.a_buffer x = Some s ->
  Heap.a_offset x + Heap.a_length x <= List.length s -> List.length d = Heap.a_length x ->
  Heap.elements (Heap.write h ta d) ta = Some d.
Proof.
  intros Hx Hs Hfit Hd. unfold Heap.write. rewrite Hx, Hs.
  unfold Heap.elements. simpl. rewrite Hx. simpl. rewrite lookup_insert_eq. simpl.
  rewrite splice_length by lia. rewrite decide_True by done.
  rewrite <- Hd. by rewrite window_splice_same by lia.
Qed.


End Project.




Example project_example :
  exists h',
    Heap.project None two_vectors 1%positive 2%positive = Return (h', 2%positive)
    /\ Heap.read h' 2%positive = Some (vector_of [Num.of_Z 3; Num.of_Z 0]).
Proof. eexists. split; vm_compute; reflexivity. Qed.

(** ** zeros and magnitude *)

Lemma zeros_empty (type : option TypedArrayConstructor) :
  Vector.zeros 0 type = Return Vector.initial.
Proof. reflexivity. Qed.

Lemma zeros_replicate (n : Z) (type : option TypedArrayConstructor) :
  0 < n -> Vector.zeros n type = Return (vector_of (replicate (Z.to_nat n) Num.zero)).
Proof.
  intros Hn. unfold Vector.zeros, Vector.fill.
  rewrite (proj2 (Z.ltb_ge n 0)) by lia. rewrite (proj2 (Z.eqb_neq n 0)) by lia.
  simpl. by rewrite for_range_fill.
Qed.

Lemma sum_squares_zeros (m : nat) :
  Spec.sum ((fun b => (b * b)%num) <$> replicate m Num.zero) = Num.zero.
Proof.
  rewrite fmap_replicate. unfold Spec.sum.
  induction m as [|m IH]; [done|]. simpl. exact IH.
Qed.

Lemma magnitude_trace_empty (be : bindings) (v : Vector.t) :
  Vector.length v = 0%nat -> Vector.magnitude_trace be v = ([], Return Num.zero).
Proof. intros H0. unfold Vector.magnitude_trace. by rewrite decide_True. Qed.

(** C8.  For every count [n >= 0], [zeros(n)] returns a vector whose
    magnitude is 0 on either path; and [magnitude()] of any zero-length
    vector is 0 with no kernel entered, neither the accelerated nor the
    fallback one, whatever is bound. *)
Theorem magnitude_zeros (be : bindings) (n : Z) (type : option TypedArrayConstructor) :
  Spec.conforming be -> 0 <= n ->
  (exists v, Vector.zeros n type = Return v /\ Vector.magnitude be v = Return Num.zero)
  /\ (forall (any : bindings) (v : Vector.t),
        Vector.length v = 0%nat ->
        Vector.magnitude_trace any v = ([], Return Num.zero)).
Proof.
  intros Hbe Hn. split; [| intros any v; apply magnitude_trace_empty].
  destruct (Z.eq_dec n 0) as [-> | Hpos].
  - exists Vector.initial. split; [apply zeros_empty|].
    unfold Vector.magnitude. by rewrite magnitude_trace_empty.
  - exists (vector_of (replicate (Z.to_nat n) Num.zero)).
    split; [apply zeros_replicate; lia|].
    rewrite magnitude_conforming by (done || apply wf_vector_of).
    unfold Vector.magnitude, Vector.magnitude_trace.
    rewrite decide_False by (simpl; rewrite length_replicate; lia).
    cbn [snd].
    rewrite (magnitude_fallback_sum _ (replicate (Z.to_nat n) Num.zero)) by done.
    by rewrite sum_squares_zeros.
Qed.

Lemma magnitude_zeros_witness :
  (exists v, Vector.zeros 3 None = Return v
             /\ Vector.magnitude (Some Spec.backend) v = Return Num.zero)
  /\ (forall (any : bindings) (v : Vector.t),
        Vector.length v = 0%nat ->
        Vector.magnitude_trace any v = ([], Return Num.zero)).
Proof.
  apply (magnitude_zeros (Some Spec.backend) 3 None).
  - repeat split; simpl; by intros.
  - lia.
Defined.

(** ** The length invariant *)

(** C9, as stated, fails for a matrix-like argument whose shape does not
    fit its data: the constructor takes the length from the shape and the
    buffer from the data. *)
Lemma constructor_inconsistent_shape :
  exists v,
    Vector.constructor (Vector.from_shape inconsistent_matrix) = Return v
    /\ Vector.data v = Some [Num.of_Z 1; Num.of_Z 2; Num.of_Z 3]
    /\ Vector.length v = 4%nat
    /\ ~ Vector.length_consistent v.
Proof.
  eexists. split; [reflexivity|]. repeat split.
  intros H. specialize (H _ eq_refl). discriminate.
Qed.

Section Invariant.

Local Open Scope nat_scope.
Import Vector.

(** Each operation returns a constructed vector when it gets one. *)
Lemma wf_length_consistent (v : t) : wf v -> length_consistent v.
Proof. unfold wf, length_consistent. intros Hwf d Hd. by rewrite Hd in Hwf. Qed.

Lemma wf_with_data (v : t) (d : TypedArray) :
  Vector.length v = List.length d -> wf (with_data v d).
Proof. done. Qed.

Lemma set_returns (target source : TypedArray) (offset : nat) :
  offset + List.length source <= List.length target ->
  exists r, TA.set target source offset = Return r /\ List.length r = List.length target.
Proof.
  intros Hfit. unfold TA.set. rewrite (proj2 (Nat.leb_le _ _)) by done.
  eexists. split; [done|]. rewrite !length_app, length_take, length_drop. lia.
Qed.

Lemma combine_wf (this vector : t) :
  wf this -> wf vector -> exists r, combine this vector = Return r /\ wf r.
Proof.
  intros Hwf1 Hwf2. unfold combine.
  case_decide as Hl2; [by exists this|].
  case_decide as Hl1.
  - eexists. split; [done|]. unfold wf in *. simpl.
    by destruct (data vector).
  - destruct (wf_data this Hwf1 Hl1) as (d1 & Hd1 & Hlen1).
    destruct (wf_data vector Hwf2 Hl2) as (d2 & Hd2 & Hlen2).
    rewrite Hd1, Hd2.
    destruct (set_returns (TA.alloc (Vector.length this + Vector.length vector)) d1 0)
      as (data1 & -> & Hdata1).
    { unfold TA.alloc. rewrite length_replicate. lia. }
    unfold TA.alloc in Hdata1. rewrite length_replicate in Hdata1. simpl.
    destruct (set_returns data1 d2 (Vector.length this)) as (data2 & -> & Hdata2); [lia|].
    simpl. eexists. split; [done|]. unfold wf. simpl. lia.
Qed.

Lemma constructor_wf (arg : source) :
  source_wf arg -> exists r, constructor arg = Return r /\ wf r.
Proof.
  destruct arg as [v|m|a|b|]; simpl; intros Harg.
  - by apply combine_wf.
  - eexists. split; [done|]. exact Harg.
  - eexists. split; [done|]. done.
  - eexists. split; [done|]. done.
  - eexists. split; [done|]. done.
Qed.

Lemma push_wf (this : t) (value : number) :
  wf this -> exists r, push this value = Return r /\ wf r.
Proof. intros Hwf. unfold push. simpl. by apply combine_wf. Qed.

Lemma binOp_wf (this vector r : t) (op : number -> number -> nat -> number) :
  wf this -> binOp this vector op = Return r -> wf r.
Proof.
  intros Hwf. unfold binOp. case_decide; [done|]. case_decide; [by intros [= <-]|].
  unfold wf in Hwf.
  destruct (data this) as [d1|]; [|done]. destruct (data vector) as [d2|]; [|done].
  intros [= <-]. apply wf_with_data. unfold for_range.
  by rewrite (for_loop_store_length (fun i d => op (TA.elem d i) (TA.elem d2 i) i)).
Qed.

Lemma try_axpy_wf (be : bindings) (this vector r : t) (alpha : number) :
  Spec.conforming be -> wf this -> try_axpy be this vector alpha = Some r -> wf r.
Proof.
  intros Hbe Hwf. unfold try_axpy. case_decide; [done|].
  destruct be as [bk|]; [|done].
  destruct (data vector) as [x|]; [|done].
  unfold wf in Hwf. destruct (data this) as [y|]; [|done].
  destruct (nblas.axpy bk x y alpha) as [y'|] eqn:Hcall; [|done].
  intros [= <-]. apply wf_with_data.
  destruct Hbe as (Haxpy & _). apply Haxpy in Hcall.
  unfold Spec.scaledAdd in Hcall. case_decide; [|done]. injection Hcall as <-.
  rewrite length_zip_with. lia.
Qed.

Lemma add_wf (be : bindings) (this vector r : t) :
  Spec.conforming be -> wf this -> add be this vector = Return r -> wf r.
Proof.
  intros Hbe Hwf. unfold add.
  destruct (try_axpy be this vector Num.one) as [r'|] eqn:Htry; cbn [try_catch].
  - intros [= <-]. by eapply try_axpy_wf.
  - by apply binOp_wf.
Qed.

Lemma subtract_wf (be : bindings) (this vector r : t) :
  Spec.conforming be -> wf this -> subtract be this vector = Return r -> wf r.
Proof.
  intros Hbe Hwf. unfold subtract.
  destruct (try_axpy be this vector (Num.of_Z (-1))) as [r'|] eqn:Htry; cbn [try_catch].
  - intros [= <-]. by eapply try_axpy_wf.
  - by apply binOp_wf.
Qed.

Lemma scale_wf (be : bindings) (this r : t) (scalar : number) :
  Spec.conforming be -> wf this -> scale be this scalar = Return r -> wf r.
Proof.
  intros Hbe Hwf. unfold scale.
  destruct (try_scal be this scalar) as [r'|] eqn:Htry; cbn [try_catch].
  - intros [= <-]. unfold try_scal in Htry.
    destruct be as [bk|]; [|done]. unfold wf in Hwf.
    destruct (data this) as [x|]; [|done].
    destruct (nblas.scal bk x scalar) as [x'|] eqn:Hcall; [|done].
    injection Htry as <-. apply wf_with_data.
    destruct Hbe as (_ & Hscal & _). apply Hscal in Hcall. injection Hcall as <-.
    by rewrite length_fmap.
  - unfold each. case_decide; [by intros [= <-]|].
    unfold wf in Hwf. destruct (data this) as [d|]; [|done].
    intros [= <-]. apply wf_with_data. unfold for_range.
    by rewrite (for_loop_store_length (fun i d => (TA.elem d i * scalar)%num)).
Qed.

Lemma set_wf (this r : t) (index value : number) :
  wf this -> set this index value = Return r -> wf r.
Proof.
  intros Hwf. unfold set. destruct (check this index); [|done]. simpl.
  unfold wf in Hwf. destruct (data this) as [d|]; [|done].
  intros [= <-]. apply wf_with_data. unfold TA.put.
  destruct (_ && _); [by rewrite length_insert | done].
Qed.

End Invariant.

(** C9, amended.  A constructed vector with a buffer has the number of
    elements of that buffer as its length; and what the constructor
    returns for a recognised argument (for a matrix-like one, an argument
    whose data has as many elements as its shape says), what [combine]
    and [push] return, and what [add], [subtract], [scale], [set] and
    [binOp] return when they return, is again such a vector. *)
Theorem length_invariant_preserved (be : bindings) (this vector : Vector.t)
    (arg : Vector.source) (op : number -> number -> nat -> number)
    (scalar index value : number) :
  Spec.conforming be -> Vector.wf this -> Vector.wf vector -> source_wf arg ->
  Vector.length_consistent this
  /\ (exists r, Vector.constructor arg = Return r
                /\ Vector.wf r /\ Vector.length_consistent r)
  /\ (exists r, Vector.combine this vector = Return r
                /\ Vector.wf r /\ Vector.length_consistent r)
  /\ (exists r, Vector.push this value = Return r
                /\ Vector.wf r /\ Vector.length_consistent r)
  /\ (forall r, Vector.add be this vector = Return r
                -> Vector.wf r /\ Vector.length_consistent r)
  /\ (forall r, Vector.subtract be this vector = Return r
                -> Vector.wf r /\ Vector.length_consistent r)
  /\ (forall r, Vector.scale be this scalar = Return r
                -> Vector.wf r /\ Vector.length_consistent r)
  /\ (forall r, Vector.set this index value = Return r
                -> Vector.wf r /\ Vector.length_consistent r)
  /\ (forall r, Vector.binOp this vector op = Return r
                -> Vector.wf r /\ Vector.length_consistent r).
Proof.
  intros Hbe Hwf1 Hwf2 Harg.
  assert (forall r, Vector.wf r -> Vector.wf r /\ Vector.length_consistent r) as Hboth
    by (intros r Hr; split; [done | by apply wf_length_consistent]).
  split; [by apply wf_length_consistent|].
  split; [destruct (constructor_wf arg Harg) as (r & Hr & Hwf); exists r; auto|].
  split; [destruct (combine_wf this vector Hwf1 Hwf2) as (r & Hr & Hwf); exists r; auto|].
  split; [destruct (push_wf this value Hwf1) as (r & Hr & Hwf); exists r; auto|].
  split; [intros r Hr; apply Hboth; exact (add_wf be this vector r Hbe Hwf1 Hr)|].
  split; [intros r Hr; apply Hboth; exact (subtract_wf be this vector r Hbe Hwf1 Hr)|].
  split; [intros r Hr; apply Hboth; exact (scale_wf be this r scalar Hbe Hwf1 Hr)|].
  split; [intros r Hr; apply Hboth; exact (set_wf this r index value Hwf1 Hr)|].
  intros r Hr. apply Hboth. exact (binOp_wf this vector r op Hwf1 Hr).
Qed.


Lemma length_invariant_preserved_witness :
  exists r, Vector.constructor (Vector.from_shape consistent_matrix) = Return r
            /\ Vector.wf r /\ Vector.length_consistent r.
Proof.
  destruct (length_invariant_preserved None v123 v456 (Vector.from_shape consistent_matrix)
              (fun a b _ => (a + b)%num) (Num.of_Z 2) (Num.of_Z 0) (Num.of_Z 1))
    as (_ & Hconstructor & _).
  - exact I.
  - reflexivity.
  - reflexivity.
  - reflexivity.
  - exact Hconstructor.
Defined.

(** ** Indices that are not integers *)

(** C10.  On the vector [1, 2] the index 0.5 is finite, is not an
    integer and lies strictly between 0 and [length - 1]; the bounds check
    passes, and [get(0.5)] returns without an error and reads no stored
    element ([undefined]).  The check rejects an index only when it is
    not finite, negative or above [length - 1]. *)
Theorem fractional_index_passes_check :
  (1 <= Vector.length v12)%nat
  /\ Num.isFinite half = true
  /\ Num.is_integer half = false
  /\ Num.lt Num.zero half = true
  /\ Num.lt half (Num.of_nat (Vector.length v12) - Num.one)%num = true
  /\ Vector.check v12 half = Return tt
  /\ Vector.get v12 half = Return None
  /\ (forall (v : Vector.t) (index : number) (e : exn),
        Vector.check v index = Throw e ->
        Num.isFinite index = false
        \/ Num.lt index Num.zero = true
        \/ Num.gt index (Num.of_nat (Vector.length v) - Num.one)%num = true).
Proof.
  repeat split; try reflexivity.
  - simpl. lia.
  - intros v index e. unfold Vector.check.
    destruct (Num.isFinite index); [|by left].
    destruct (Num.lt index Num.zero); [by right; left|].
    destruct (Num.gt index _); [by right; right | done].
Qed.

(** * Further properties of the methods *)

(** ** Further facts of arithmetic and order *)

Lemma mul_comm (x y : number) : (x * y)%num = (y * x)%num.
Proof.
  destruct x as [sx|sx| |sx mx ex], y as [sy|sy| |sy my ey]; try done;
    unfold Num.mul, SFmul; try (by rewrite xorb_comm).
  by rewrite xorb_comm, Pos.mul_comm, Z.add_comm.
Qed.

Lemma add_comm (x y : number) : (x + y)%num = (y + x)%num.
Proof.
  destruct x as [sx|sx| |sx mx ex], y as [sy|sy| |sy my ey]; try done;
    try (by destruct sx, sy).
  unfold Num.add, SFadd. by rewrite Z.min_comm, Z.add_comm.
Qed.

Lemma mul_one_r (x : number) : Num.valid x = true -> (x * Num.one)%num = x.
Proof. intros Hx. rewrite mul_comm. by apply mul_one_l. Qed.

Lemma sub_self (x : number) : Num.isFinite x = true -> (x - x)%num = Num.zero.
Proof.
  destruct x as [s|s| |s m e]; try done; intros _.
  - by destruct s.
  - unfold Num.sub, SFsub. by rewrite Z.sub_diag.
Qed.

Lemma strict_eq_sym (x y : number) : Num.strict_eq x y = Num.strict_eq y x.
Proof.
  unfold Num.strict_eq, SFeqb, SFcompare.
  destruct x as [sx|sx| |sx mx ex], y as [sy|sy| |sy my ey];
    try done; try (by destruct sx, sy); try (by destruct sx); try (by destruct sy).
  destruct sx, sy; try done; compare_cases; simpl; try done; subst; lia.
Qed.

Lemma lt_asym (x y : number) : Num.lt x y = true -> Num.lt y x = false.
Proof.
  unfold Num.lt, SFltb, SFcompare.
  destruct x as [sx|sx| |sx mx ex], y as [sy|sy| |sy my ey];
    try done; try (by destruct sx, sy); try (by destruct sx); try (by destruct sy).
  destruct sx, sy; try done; intros H; compare_cases; simpl in *; try done; subst; lia.
Qed.

Lemma strict_eq_not_lt (x y : number) : Num.strict_eq x y = true -> Num.lt x y = false.
Proof.
  unfold Num.strict_eq, Num.lt, SFeqb, SFltb.
  by destruct (SFcompare x y) as [[]|].
Qed.

Lemma ge_refl (x : number) : Num.isNaN x = false -> Num.ge x x = true.
Proof.
  intros Hx. pose proof (strict_eq_refl x Hx) as H.
  unfold Num.strict_eq, Num.ge, SFeqb, SFleb in *.
  by destruct (SFcompare x x) as [[]|].
Qed.

Lemma lt_ge (x y : number) : Num.lt x y = true -> Num.ge y x = true.
Proof.
  unfold Num.lt, Num.ge, SFltb, SFleb. by destruct (SFcompare x y) as [[]|].
Qed.

(** Without NaN the order is total. *)
Lemma not_lt_ge (x y : number) :
  Num.isNaN x = false -> Num.isNaN y = false -> Num.lt x y = false -> Num.ge x y = true.
Proof.
  unfold Num.lt, Num.ge, SFltb, SFleb, SFcompare.
  destruct x as [sx|sx| |sx mx ex], y as [sy|sy| |sy my ey];
    try done; try (by destruct sx, sy); try (by destruct sx); try (by destruct sy).
  intros _ _. destruct sx, sy; try done; intros H; compare_cases; simpl in *;
    try done; subst; lia.
Qed.

Lemma ge_trans (x y z : number) :
  Num.ge x y = true -> Num.ge y z = true -> Num.ge x z = true.
Proof.
  unfold Num.ge, SFleb, SFcompare.
  destruct x as [sx|sx| |sx mx ex], y as [sy|sy| |sy my ey], z as [sz|sz| |sz mz ez];
    try done; try (by destruct sx, sy, sz);
    destruct sx, sy, sz; try done; intros H1 H2; compare_cases;
    simpl in *; try done; subst; lia.
Qed.

(** The integer part of an integer-valued number is its value, and the
    number is an integer key of a buffer. *)
Lemma integer_trunc (x : number) (n : Z) :
  integer x n -> Num.is_integer x = true /\ Num.trunc x = n.
Proof.
  destruct x as [s| | |s m e]; try done.
  intros [_ Hv]. unfold Num.is_integer, Num.trunc.
  destruct (Z.leb_spec 0 e) as [He | He].
  - split; [done|]. rewrite Z.max_l, Z.max_r, Z.mul_1_r in Hv by lia.
    rewrite <- Hv. by rewrite cond_Zopp_mul.
  - rewrite Z.max_r, Z.max_l, Z.mul_1_r in Hv by lia. simpl.
    assert (0 < 2 ^ (- e)) as Hpow by (apply Z.pow_pos_nonneg; lia).
    assert (Z.pos m = Z.abs n * 2 ^ (- e)) as Hm.
    { destruct s; simpl in Hv; nia. }
    split.
    + apply Z.eqb_eq. rewrite Hm. apply Z.mod_mul. lia.
    + rewrite Hm, Z.div_mul by lia. destruct s; simpl in Hv; simpl; nia.
Qed.

Lemma integer_lt_iff (x y : number) (a b : Z) :
  integer x a -> integer y b -> Num.lt x y = (a <? b).
Proof.
  intros Hx Hy. destruct (Z.ltb_spec a b) as [Hab | Hab].
  - by apply (integer_lt x y a b).
  - destruct (Z.eq_dec a b) as [-> | Hne].
    + apply strict_eq_not_lt. by apply (integer_unique x y b).
    + apply lt_asym. apply (integer_lt y x b a); (done || lia).
Qed.

Lemma integer_finite (x : number) (n : Z) : integer x n -> Num.isFinite x = true.
Proof. by destruct x. Qed.

(** ** Sizes that do not match *)

Lemma binOp_mismatch (this vector : Vector.t) (op : number -> number -> nat -> number) :
  Vector.length this <> Vector.length vector ->
  Vector.binOp this vector op = Throw size_mismatch.
Proof. intros Hl. unfold Vector.binOp. by rewrite decide_True. Qed.

Lemma add_mismatch (be : bindings) (this vector : Vector.t) :
  Vector.length this <> Vector.length vector ->
  Vector.add be this vector = Throw size_mismatch.
Proof.
  intros Hl. unfold Vector.add, Vector.try_axpy. rewrite decide_True by done.
  by apply binOp_mismatch.
Qed.

Lemma subtract_mismatch (be : bindings) (this vector : Vector.t) :
  Vector.length this <> Vector.length vector ->
  Vector.subtract be this vector = Throw size_mismatch.
Proof.
  intros Hl. unfold Vector.subtract, Vector.try_axpy. rewrite decide_True by done.
  by apply binOp_mismatch.
Qed.

Lemma dot_mismatch (be : bindings) (this vector : Vector.t) :
  Vector.length this <> Vector.length vector ->
  Vector.dot be this vector = Throw (Error "sizes do not match").
Proof. intros Hl. unfold Vector.dot. by rewrite decide_True. Qed.

(** X1.  For vectors of different lengths [binOp], [add] and [subtract]
    throw the error 'sizes do not match!', and [dot] and [project] the
    error 'sizes do not match', whatever is bound to the accelerated
    primitives: the size is tested before any of them is called, and the
    error of the accelerated attempt of [add] and [subtract] is thrown
    again by the fallback. *)
Theorem size_mismatch_throws (be : bindings) (this vector : Vector.t)
    (op : number -> number -> nat -> number) :
  Vector.length this <> Vector.length vector ->
  Vector.binOp this vector op = Throw size_mismatch
  /\ Vector.add be this vector = Throw size_mismatch
  /\ Vector.subtract be this vector = Throw size_mismatch
  /\ Vector.dot be this vector = Throw (Error "sizes do not match")
  /\ Vector.project be this vector = Throw (Error "sizes do not match").
Proof.
  intros Hl.
  split; [by apply binOp_mismatch|]. split; [by apply add_mismatch|].
  split; [by apply subtract_mismatch|]. split; [by apply dot_mismatch|].
  unfold Vector.project. rewrite (dot_mismatch be this vector Hl). done.
Qed.

Lemma size_mismatch_throws_witness :
  Vector.binOp v123 v12 (fun a b _ => (a * b)%num) = Throw size_mismatch
  /\ Vector.add (Some Spec.backend) v123 v12 = Throw size_mismatch
  /\ Vector.subtract (Some Spec.backend) v123 v12 = Throw size_mismatch
  /\ Vector.dot (Some Spec.backend) v123 v12 = Throw (Error "sizes do not match")
  /\ Vector.project (Some Spec.backend) v123 v12 = Throw (Error "sizes do not match").
Proof.
  apply (size_mismatch_throws (Some Spec.backend) v123 v12). simpl. lia.
Defined.

(** ** What the arithmetic methods return *)

Section Elementwise.

Local Open Scope nat_scope.
Import Vector.

Lemma toArray_data (v : t) (d : TypedArray) : data v = Some d -> toArray v = d.
Proof. unfold toArray. by intros ->. Qed.

Lemma wf_toArray_length (v : t) : wf v -> List.length (toArray v) = Vector.length v.
Proof. unfold wf, toArray. by destruct (data v) as [d|]; simpl; intros ->. Qed.

Lemma wf_empty_toArray (v : t) : wf v -> Vector.length v = 0 -> toArray v = [].
Proof.
  intros Hwf H0. apply wf_toArray_length in Hwf. rewrite H0 in Hwf.
  by destruct (toArray v).
Qed.


End Elementwise.



Section Sums.

Local Open Scope nat_scope.
Import Vector.

Lemma static_add_mismatch (be : bindings) (a b : t) :
  wf a -> Vector.length a ≠ Vector.length b -> static_add be a b = Throw size_mismatch.
Proof.
  intros Hwf Hl. unfold static_add.
  destruct (decide (Vector.length a = 0)) as [H0 | H0].
  - rewrite constructor_copy_empty by done. simpl.
    apply add_mismatch. simpl. lia.
  - destruct (wf_data a Hwf H0) as (d & Hd & Hld).
    rewrite (constructor_copy a d) by done. simpl.
    by apply add_mismatch.
Qed.

(** The elements of the static sum and difference, on either path. *)
Lemma static_add_toArray (be : bindings) (a b : t) :
  Spec.conforming be -> wf a -> wf b ->
  Forall (fun s => Num.valid s = true) (toArray b) ->
  Vector.length a = Vector.length b ->
  exists r, static_add be a b = Return r
            /\ toArray r = zip_with Num.add (toArray a) (toArray b)
            /\ Vector.length r = Vector.length a.
Proof.
  intros Hbe Hwfa Hwfb Hvalid Hl.
  destruct (decide (Vector.length a = 0)) as [H0 | H0].
  - exists initial. rewrite static_add_empty by (done || lia).
    split; [done|]. by rewrite (wf_empty_toArray a).
  - destruct (wf_data a Hwfa H0) as (da & Hda & Hla).
    destruct (wf_data b Hwfb ltac:(lia)) as (db & Hdb & Hlb).
    rewrite (toArray_data b db) in Hvalid by done.
    eexists. split; [by apply (static_add_zip be a b da db)|].
    by rewrite (toArray_data a da), (toArray_data b db).
Qed.

Lemma static_subtract_toArray (be : bindings) (a b : t) :
  Spec.conforming be -> wf a -> wf b ->
  Forall (fun s => Num.valid s = true) (toArray b) ->
  Vector.length a = Vector.length b ->
  exists r, static_subtract be a b = Return r
            /\ toArray r = zip_with Num.sub (toArray a) (toArray b)
            /\ Vector.length r = Vector.length a.
Proof.
  intros Hbe Hwfa Hwfb Hvalid Hl.
  destruct (decide (Vector.length a = 0)) as [H0 | H0].
  - exists initial. rewrite static_subtract_empty by (done || lia).
    split; [done|]. by rewrite (wf_empty_toArray a).
  - destruct (wf_data a Hwfa H0) as (da & Hda & Hla).
    destruct (wf_data b Hwfb ltac:(lia)) as (db & Hdb & Hlb).
    rewrite (toArray_data b db) in Hvalid by done.
    eexists. split; [by apply (static_subtract_zip be a b da db)|].
    by rewrite (toArray_data a da), (toArray_data b db).
Qed.

Lemma zip_with_comm (g : number -> number -> number) (d1 d2 : TypedArray) :
  (forall x y, g x y = g y x) -> zip_with g d1 d2 = zip_with g d2 d1.
Proof.
  intros Hg. revert d2. induction d1 as [|x d1 IH]; intros [|y d2]; simpl; try done.
  by rewrite Hg, IH.
Qed.

End Sums.

(** X3.  On constructed vectors of equal length that are backed by
    64-bit floats (the default element kind), on either path, the static
    [add(a, b)] returns a vector of the sums [a[i] + b[i]] and the static
    [subtract(a, b)] one of the differences [a[i] - b[i]], of the length
    of [a]. *)
Theorem add_subtract_elementwise (be : bindings) (a b : Vector.t) :
  Spec.conforming be ->
  Vector.type a = Float64Array -> Vector.type b = Float64Array ->
  Vector.wf a -> Vector.wf b ->
  Forall (fun s => Num.valid s = true) (Vector.toArray b) ->
  Vector.length a = Vector.length b ->
  (exists r, Vector.static_add be a b = Return r
             /\ Vector.toArray r = zip_with Num.add (Vector.toArray a) (Vector.toArray b)
             /\ Vector.length r = Vector.length a)
  /\ (exists r, Vector.static_subtract be a b = Return r
                /\ Vector.toArray r = zip_with Num.sub (Vector.toArray a) (Vector.toArray b)
                /\ Vector.length r = Vector.length a).
Proof.
  intros Hbe _ _ Hwfa Hwfb Hvalid Hl. split.
  - by apply static_add_toArray.
  - by apply static_subtract_toArray.
Qed.

Lemma add_subtract_elementwise_witness :
  (exists r, Vector.static_add (Some Spec.backend) v123 v456 = Return r
             /\ Vector.toArray r
                = zip_with Num.add (Vector.toArray v123) (Vector.toArray v456)
             /\ Vector.length r = Vector.length v123)
  /\ (exists r, Vector.static_subtract (Some Spec.backend) v123 v456 = Return r
                /\ Vector.toArray r
                   = zip_with Num.sub (Vector.toArray v123) (Vector.toArray v456)
                /\ Vector.length r = Vector.length v123).
Proof.
  apply (add_subtract_elementwise (Some Spec.backend) v123 v456).
  - repeat split; simpl; by intros.
  - reflexivity.
  - reflexivity.
  - reflexivity.
  - reflexivity.
  - repeat constructor.
  - reflexivity.
Defined.

(** X4.  Addition commutes: on constructed vectors of 64-bit floats, on
    either path, [add(a, b)] and [add(b, a)] hold the same elements, or
    throw the same error when the lengths differ. *)
Theorem add_commutes (be : bindings) (a b : Vector.t) :
  Spec.conforming be -> Vector.wf a -> Vector.wf b ->
  Forall (fun s => Num.valid s = true) (Vector.toArray a) ->
  Forall (fun s => Num.valid s = true) (Vector.toArray b) ->
  Vector.toArray <$> Vector.static_add be a b = Vector.toArray <$> Vector.static_add be b a.
Proof.
  intros Hbe Hwfa Hwfb Hva Hvb.
  destruct (decide (Vector.length a = Vector.length b)) as [Hl | Hl].
  - destruct (static_add_toArray be a b Hbe Hwfa Hwfb Hvb Hl) as (r1 & -> & H1 & _).
    destruct (static_add_toArray be b a Hbe Hwfb Hwfa Hva (eq_sym Hl)) as (r2 & -> & H2 & _).
    simpl. unfold fmap, result_fmap. rewrite H1, H2. f_equal.
    apply zip_with_comm, add_comm.
  - rewrite static_add_mismatch, static_add_mismatch by (done || by apply not_eq_sym). done.
Qed.

Lemma add_commutes_witness :
  Vector.toArray <$> Vector.static_add None v123 v456
  = Vector.toArray <$> Vector.static_add None v456 v123.
Proof.
  apply (add_commutes None v123 v456).
  - exact I.
  - reflexivity.
  - reflexivity.
  - repeat constructor.
  - repeat constructor.
Defined.

(** X5.  On a constructed vector backed by 64-bit floats (the default
    element kind), on either path, [scale(scalar)] returns the receiver
    with every element multiplied by the scalar; and scaling such a
    vector by 1 returns it as it was. *)
Theorem scale_multiplies_each_element (be : bindings) (v : Vector.t) (scalar : number) :
  Spec.conforming be -> Vector.type v = Float64Array -> Vector.wf v ->
  (exists r, Vector.scale be v scalar = Return r
             /\ Vector.toArray r = (fun x => (x * scalar)%num) <$> Vector.toArray v
             /\ Vector.length r = Vector.length v)
  /\ (Forall (fun s => Num.valid s = true) (Vector.toArray v) ->
      Vector.scale be v Num.one = Return v).
Proof.
  intros Hbe _ Hwf.
  rewrite (scale_conforming be v scalar), (scale_conforming be v Num.one) by done.
  destruct (Vector.data v) as [d|] eqn:Hd; unfold Vector.wf in Hwf; rewrite Hd in Hwf.
  - assert (forall s, Vector.scale None v s
                      = Return (Vector.with_data v ((fun x => (x * s)%num) <$> d))) as Hscale.
    { intros s. unfold Vector.scale. simpl. by apply (each_map (fun x => (x * s)%num)). }
    split.
    + eexists. split; [apply Hscale|]. by rewrite (toArray_data v d).
    + intros Hvalid. rewrite Hscale. f_equal.
      rewrite (toArray_data v d) in Hvalid by done.
      replace ((fun x => (x * Num.one)%num) <$> d) with d; [by apply with_data_same|].
      rewrite <- (list_fmap_id d) at 1. apply Forall_fmap_ext_1.
      eapply Forall_impl; [exact Hvalid|]. intros x Hx. simpl. by rewrite mul_one_r.
  - assert (forall s, Vector.scale None v s = Return v) as Hscale.
    { intros s. unfold Vector.scale, Vector.try_scal, Vector.each. simpl.
      by rewrite decide_True. }
    split.
    + exists v. split; [apply Hscale|]. unfold Vector.toArray. by rewrite Hd.
    + intros _. apply Hscale.
Qed.

Lemma scale_multiplies_each_element_witness :
  (exists r, Vector.scale (Some Spec.backend) v123 (Num.of_Z 2) = Return r
             /\ Vector.toArray r = (fun x => (x * Num.of_Z 2)%num) <$> Vector.toArray v123
             /\ Vector.length r = Vector.length v123)
  /\ Vector.scale (Some Spec.backend) v123 Num.one = Return v123.
Proof.
  destruct (scale_multiplies_each_element (Some Spec.backend) v123 (Num.of_Z 2))
    as [Hscale Hone].
  - repeat split; simpl; by intros.
  - reflexivity.
  - reflexivity.
  - split; [exact Hscale | apply Hone; repeat constructor].
Defined.

Lemma zip_with_sub_self (l : TypedArray) :
  Forall (fun s => Num.isFinite s = true) l ->
  zip_with Num.sub l l = replicate (List.length l) Num.zero.
Proof.
  induction 1 as [|x l Hx _ IH]; [done|]. simpl. rewrite IH. by rewrite (sub_self x Hx).
Qed.

(** X6.  Subtracting a constructed vector of finite 64-bit floats from
    itself, in place or through the static [subtract], on either path,
    gives a vector of zeros of the same length. *)
Theorem subtract_self_is_zero (be : bindings) (a : Vector.t) :
  Spec.conforming be -> Vector.wf a ->
  Forall (fun s => Num.valid s = true /\ Num.isFinite s = true) (Vector.toArray a) ->
  (exists r, Vector.subtract be a a = Return r
             /\ Vector.toArray r = replicate (Vector.length a) Num.zero)
  /\ (exists r, Vector.static_subtract be a a = Return r
                /\ Vector.toArray r = replicate (Vector.length a) Num.zero).
Proof.
  intros Hbe Hwf Hfin.
  assert (Forall (fun s => Num.valid s = true) (Vector.toArray a)) as Hvalid.
  { eapply Forall_impl; [exact Hfin|]. by intros x [? _]. }
  assert (zip_with Num.sub (Vector.toArray a) (Vector.toArray a)
          = replicate (Vector.length a) Num.zero) as Hzero.
  { rewrite <- (wf_toArray_length a Hwf). apply zip_with_sub_self.
    eapply Forall_impl; [exact Hfin|]. by intros x [_ ?]. }
  split.
  - rewrite subtract_conforming by done.
    destruct (decide (Vector.length a = 0%nat)) as [H0 | H0].
    + exists a. unfold Vector.subtract. rewrite try_axpy_unbound. simpl.
      unfold Vector.binOp. rewrite decide_False by (intros Hne; by apply Hne).
      rewrite decide_True by done. split; [done|].
      by rewrite (wf_empty_toArray a), H0.
    + destruct (wf_data a Hwf H0) as (d & Hd & Hl).
      exists (Vector.with_data a (zip_with Num.sub d d)).
      unfold Vector.subtract. rewrite try_axpy_unbound. simpl.
      rewrite (binOp_zip Num.sub a a d d) by done. split; [done|].
      by rewrite (toArray_data a d) in Hzero.
  - destruct (static_subtract_toArray be a a Hbe Hwf Hwf Hvalid eq_refl) as (r & Hr & Ht & _).
    exists r. split; [done|]. by rewrite Ht.
Qed.

Lemma subtract_self_is_zero_witness :
  (exists r, Vector.subtract (Some Spec.backend) v123 v123 = Return r
             /\ Vector.toArray r = replicate (Vector.length v123) Num.zero)
  /\ (exists r, Vector.static_subtract (Some Spec.backend) v123 v123 = Return r
                /\ Vector.toArray r = replicate (Vector.length v123) Num.zero).
Proof.
  apply (subtract_self_is_zero (Some Spec.backend) v123).
  - repeat split; simpl; by intros.
  - reflexivity.
  - repeat constructor.
Defined.

(** X7.  The dot product commutes: on constructed vectors, on either
    path, [a.dot(b)] and [b.dot(a)] return the same number, or throw the
    same error when the lengths differ. *)
Theorem dot_commutes (be : bindings) (a b : Vector.t) :
  Spec.conforming be -> Vector.wf a -> Vector.wf b ->
  Vector.dot be a b = Vector.dot be b a.
Proof.
  intros Hbe Hwfa Hwfb.
  rewrite (dot_conforming be a b), (dot_conforming be b a) by done.
  destruct (decide (Vector.length a = Vector.length b)) as [Hl | Hl].
  - destruct (decide (Vector.length a = 0%nat)) as [H0 | H0].
    + unfold Vector.dot. rewrite !try_dot_unbound. cbn [try_catch].
      rewrite (decide_False (P := Vector.length a <> Vector.length b))
        by (intros Hne; apply Hne; lia).
      rewrite (decide_False (P := Vector.length b <> Vector.length a))
        by (intros Hne; apply Hne; lia).
      rewrite (decide_True (P := Vector.length a = 0%nat)) by lia.
      by rewrite (decide_True (P := Vector.length b = 0%nat)) by lia.
    + destruct (wf_data a Hwfa H0) as (da & Hda & Hla).
      destruct (wf_data b Hwfb ltac:(lia)) as (db & Hdb & Hlb).
      rewrite (dot_fallback a b da db), (dot_fallback b a db da) by (done || lia).
      f_equal. f_equal. apply zip_with_comm, mul_comm.
  - rewrite !dot_mismatch by (done || by apply not_eq_sym). done.
Qed.

Lemma dot_commutes_witness :
  Vector.dot (Some Spec.backend) v123 v456 = Vector.dot (Some Spec.backend) v456 v123.
Proof.
  apply (dot_commutes (Some Spec.backend) v123 v456).
  - repeat split; simpl; by intros.
  - reflexivity.
  - reflexivity.
Defined.

(** ** Integer indices *)

Lemma of_nat_integer (k : nat) : Z.of_nat k < 2 ^ 53 -> integer (Num.of_nat k) (Z.of_nat k).
Proof. intros Hk. apply of_Z_integer. lia. Qed.

Lemma length_minus_one_integer (v : Vector.t) :
  Z.of_nat (Vector.length v) < 2 ^ 53 ->
  integer (Num.of_nat (Vector.length v) - Num.one)%num (Z.of_nat (Vector.length v) - 1).
Proof.
  intros Hl. apply integer_sub; [by apply of_nat_integer | by apply (of_Z_integer 1) | lia].
Qed.

Lemma gt_lt (x y : number) : Num.gt x y = Num.lt y x.
Proof. reflexivity. Qed.

(** The bounds check on an integer index is the comparison with the
    length. *)
Lemma check_integer_index (v : Vector.t) (k : nat) :
  Z.of_nat (Vector.length v) < 2 ^ 53 -> Z.of_nat k < 2 ^ 53 ->
  Vector.check v (Num.of_nat k)
  = if decide (k < Vector.length v)%nat then Return tt else Throw out_of_bounds.
Proof.
  intros Hl Hk. pose proof (of_nat_integer k Hk) as Hint.
  unfold Vector.check. rewrite (integer_finite _ _ Hint).
  change Num.zero with (Num.of_Z 0).
  rewrite (integer_lt_iff _ _ (Z.of_nat k) 0 Hint (of_Z_integer 0 ltac:(lia))).
  rewrite gt_lt.
  rewrite (integer_lt_iff _ _ _ (Z.of_nat k) (length_minus_one_integer v Hl) Hint).
  rewrite (proj2 (Z.ltb_ge (Z.of_nat k) 0)) by lia. cbn [negb orb].
  case_decide.
  - by rewrite (proj2 (Z.ltb_ge _ _)) by lia.
  - by rewrite (proj2 (Z.ltb_lt _ _)) by lia.
Qed.

Lemma TA_get_integer (d : TypedArray) (k : nat) :
  Z.of_nat k < 2 ^ 53 -> TA.get d (Num.of_nat k) = d !! k.
Proof.
  intros Hk. destruct (integer_trunc _ _ (of_nat_integer k Hk)) as [Hi Ht].
  unfold TA.get. rewrite Hi, Ht. rewrite (proj2 (Z.leb_le _ _)) by lia.
  simpl. by rewrite Nat2Z.id.
Qed.

Lemma TA_put_integer (d : TypedArray) (k : nat) (value : number) :
  Z.of_nat k < 2 ^ 53 -> TA.put d (Num.of_nat k) value = <[k := value]> d.
Proof.
  intros Hk. destruct (integer_trunc _ _ (of_nat_integer k Hk)) as [Hi Ht].
  unfold TA.put. rewrite Hi, Ht. rewrite (proj2 (Z.leb_le _ _)) by lia.
  simpl. by rewrite Nat2Z.id.
Qed.

Lemma get_integer_index (v : Vector.t) (k : nat) :
  Vector.wf v ->
  Z.of_nat (Vector.length v) < 2 ^ 53 -> Z.of_nat k < 2 ^ 53 ->
  Vector.get v (Num.of_nat k)
  = if decide (k < Vector.length v)%nat then Return (Vector.toArray v !! k)
    else Throw out_of_bounds.
Proof.
  intros Hwf Hl Hk. unfold Vector.get. rewrite check_integer_index by done.
  case_decide as Hlt; [|done]. simpl.
  destruct (wf_data v Hwf ltac:(lia)) as (d & Hd & _).
  rewrite Hd, (toArray_data v d) by done. by rewrite TA_get_integer.
Qed.

(** X8.  On a constructed vector, [get(k)] for an integer [k] returns
    the element of index [k] when [k] is below the length and throws the
    out-of-bounds error otherwise; the accessors [x], [y], [z] and [w]
    are [get] at 0, 1, 2 and 3.  (The length and [k] are below [2^53].) *)
Theorem get_reads_element_or_throws (v : Vector.t) (k : nat) :
  Vector.wf v ->
  Z.of_nat (Vector.length v) < 2 ^ 53 -> Z.of_nat k < 2 ^ 53 ->
  Vector.get v (Num.of_nat k)
  = (if decide (k < Vector.length v)%nat then Return (Vector.toArray v !! k)
     else Throw out_of_bounds)
  /\ Vector.x v = (if decide (0 < Vector.length v)%nat then Return (Vector.toArray v !! 0%nat)
                   else Throw out_of_bounds)
  /\ Vector.y v = (if decide (1 < Vector.length v)%nat then Return (Vector.toArray v !! 1%nat)
                   else Throw out_of_bounds)
  /\ Vector.z v = (if decide (2 < Vector.length v)%nat then Return (Vector.toArray v !! 2%nat)
                   else Throw out_of_bounds)
  /\ Vector.w v = (if decide (3 < Vector.length v)%nat then Return (Vector.toArray v !! 3%nat)
                   else Throw out_of_bounds).
Proof.
  intros Hwf Hl Hk. split; [by apply get_integer_index|].
  split; [|split; [|split]].
  - apply (get_integer_index v 0 Hwf Hl). reflexivity.
  - apply (get_integer_index v 1 Hwf Hl). reflexivity.
  - apply (get_integer_index v 2 Hwf Hl). reflexivity.
  - apply (get_integer_index v 3 Hwf Hl). reflexivity.
Qed.

Lemma get_reads_element_or_throws_witness :
  Vector.get v123 (Num.of_nat 2) = Return (Some (Num.of_Z 3))
  /\ Vector.x v123 = Return (Some (Num.of_Z 1))
  /\ Vector.y v123 = Return (Some (Num.of_Z 2))
  /\ Vector.z v123 = Return (Some (Num.of_Z 3))
  /\ Vector.w v123 = Throw out_of_bounds.
Proof.
  apply (get_reads_element_or_throws v123 2); reflexivity.
Defined.

(** X9.  On a constructed vector backed by 64-bit floats (the default
    element kind, whose buffers store a number as it is), [set(k, value)]
    for an integer [k] below the length returns the receiver with element
    [k] replaced and nothing else changed: [get(k)] then returns [value],
    and [get(j)] for every other integer [j] what it returned before.
    (The length and the indices are below [2^53].) *)
Theorem set_then_get (v : Vector.t) (k : nat) (value : number) :
  Vector.type v = Float64Array -> Vector.wf v ->
  Z.of_nat (Vector.length v) < 2 ^ 53 -> (k < Vector.length v)%nat ->
  exists r,
    Vector.set v (Num.of_nat k) value = Return r
    /\ Vector.toArray r = <[k := value]> (Vector.toArray v)
    /\ Vector.length r = Vector.length v
    /\ Vector.get r (Num.of_nat k) = Return (Some value)
    /\ (forall j : nat, j <> k -> Z.of_nat j < 2 ^ 53 ->
        Vector.get r (Num.of_nat j) = Vector.get v (Num.of_nat j)).
Proof.
  intros _ Hwf Hl Hk.
  destruct (wf_data v Hwf ltac:(lia)) as (d & Hd & Hld).
  exists (Vector.with_data v (<[k := value]> d)).
  assert (Vector.wf (Vector.with_data v (<[k := value]> d))) as Hwf'.
  { apply wf_with_data. by rewrite length_insert. }
  split; [|split; [|split; [|split]]].
  - unfold Vector.set. rewrite check_integer_index by lia.
    rewrite decide_True by done. simpl. rewrite Hd. by rewrite TA_put_integer by lia.
  - by rewrite (toArray_data v d).
  - done.
  - rewrite get_integer_index by (done || simpl; lia).
    change (Vector.toArray (Vector.with_data v (<[k:=value]> d))) with (<[k:=value]> d).
    change (Vector.length (Vector.with_data v (<[k:=value]> d))) with (Vector.length v).
    rewrite decide_True by done.
    rewrite list_lookup_insert_eq by lia. done.
  - intros j Hj Hj53.
    rewrite (get_integer_index _ j Hwf'), (get_integer_index v j Hwf) by (done || simpl; lia).
    change (Vector.toArray (Vector.with_data v (<[k:=value]> d))) with (<[k:=value]> d).
    change (Vector.length (Vector.with_data v (<[k:=value]> d))) with (Vector.length v).
    rewrite (toArray_data v d) by done.
    by rewrite list_lookup_insert_ne by done.
Qed.

Lemma set_then_get_witness :
  exists r,
    Vector.set v123 (Num.of_nat 1) (Num.of_Z 7) = Return r
    /\ Vector.toArray r = <[1%nat := Num.of_Z 7]> (Vector.toArray v123)
    /\ Vector.length r = Vector.length v123
    /\ Vector.get r (Num.of_nat 1) = Return (Some (Num.of_Z 7))
    /\ (forall j : nat, j <> 1%nat -> Z.of_nat j < 2 ^ 53 ->
        Vector.get r (Num.of_nat j) = Vector.get v123 (Num.of_nat j)).
Proof.
  apply (set_then_get v123 1 (Num.of_Z 7)).
  - reflexivity.
  - reflexivity.
  - reflexivity.
  - simpl. lia.
Defined.

(** ** Indices that are not integers, written *)

Lemma check_passes_buffer (v : Vector.t) (index : number) :
  Vector.wf v -> Vector.check v index = Return tt ->
  exists d, Vector.data v = Some d.
Proof.
  intros Hwf Hcheck. destruct (Vector.data v) as [d|] eqn:Hd; [by exists d|].
  unfold Vector.wf in Hwf. rewrite Hd in Hwf. unfold Vector.check in Hcheck.
  rewrite Hwf in Hcheck.
  destruct (Num.isFinite index) eqn:Hfin; [|done].
  destruct (Num.lt index Num.zero) eqn:Hneg; [done|].
  assert (Num.gt index (Num.of_nat 0 - Num.one)%num = true) as Hgt.
  { unfold Num.gt. apply lt_le_trans with Num.zero; [reflexivity|].
    apply not_lt_ge; [by destruct index | done | done]. }
  rewrite Hgt in Hcheck. done.
Qed.

(** X10.  On a constructed vector, for every index that passes the
    bounds check and is not an integer, [set(index, value)] returns the
    vector unchanged, without an error, and [get(index)] returns
    [undefined]. *)
Theorem set_non_integer_index_is_ignored (v : Vector.t) (index value : number) :
  Vector.wf v ->
  Vector.check v index = Return tt ->
  Num.is_integer index = false ->
  Vector.set v index value = Return v /\ Vector.get v index = Return None.
Proof.
  intros Hwf Hcheck Hint.
  destruct (check_passes_buffer v index Hwf Hcheck) as [d Hd].
  unfold Vector.set, Vector.get. rewrite Hcheck. simpl. rewrite Hd.
  unfold TA.put, TA.get. rewrite Hint. simpl. by rewrite with_data_same.
Qed.

Lemma set_non_integer_index_is_ignored_witness :
  Vector.set v12 half (Num.of_Z 9) = Return v12 /\ Vector.get v12 half = Return None.
Proof.
  apply (set_non_integer_index_is_ignored v12 half (Num.of_Z 9)); reflexivity.
Defined.

(** ** combine, push and the copying constructor *)

Section Combine.

Local Open Scope nat_scope.
Import Vector.

Lemma set_alloc (d1 d2 : TypedArray) :
  TA.set (TA.alloc (List.length d1 + List.length d2)) d1 0
  = Return (d1 ++ TA.alloc (List.length d2)).
Proof.
  unfold TA.set, TA.alloc. rewrite length_replicate.
  rewrite (proj2 (Nat.leb_le _ _)) by lia. simpl.
  by rewrite drop_replicate, Nat.add_comm, Nat.add_sub.
Qed.

Lemma set_tail (d1 d2 : TypedArray) :
  TA.set (d1 ++ TA.alloc (List.length d2)) d2 (List.length d1) = Return (d1 ++ d2).
Proof.
  unfold TA.set, TA.alloc. rewrite length_app, length_replicate.
  rewrite (proj2 (Nat.leb_le _ _)) by lia.
  rewrite take_app_length. rewrite drop_ge by (rewrite length_app, length_replicate; lia).
  by rewrite app_nil_r.
Qed.

Lemma combine_app (this vector : t) :
  wf this -> wf vector ->
  exists r, combine this vector = Return r
            /\ toArray r = toArray this ++ toArray vector
            /\ Vector.length r = Vector.length this + Vector.length vector
            /\ wf r.
Proof.
  intros Hwf1 Hwf2. unfold combine.
  case_decide as Hl2.
  - exists this. rewrite (wf_empty_toArray vector Hwf2 Hl2), app_nil_r.
    repeat split; [lia | done].
  - case_decide as Hl1.
    + eexists. split; [done|]. rewrite (wf_empty_toArray this Hwf1 Hl1).
      unfold toArray, TA.new_from, wf in *. simpl.
      destruct (data vector); repeat split; done || lia.
    + destruct (wf_data this Hwf1 Hl1) as (d1 & Hd1 & Hlen1).
      destruct (wf_data vector Hwf2 Hl2) as (d2 & Hd2 & Hlen2).
      rewrite Hd1, Hd2, Hlen1, Hlen2, set_alloc. simpl. rewrite set_tail. simpl.
      eexists. split; [done|].
      rewrite (toArray_data this d1 Hd1), (toArray_data vector d2 Hd2).
      unfold toArray, wf. simpl. rewrite length_app. done.
Qed.

Lemma constructor_Vector_toArray (v : t) :
  wf v ->
  exists r, constructor (from_Vector v) = Return r
            /\ toArray r = toArray v /\ Vector.length r = Vector.length v /\ wf r.
Proof.
  intros Hwf. simpl.
  destruct (combine_app initial v) as (r & Hr & Harr & Hlen & Hwfr); [done | done |].
  exists r. by repeat split.
Qed.

End Combine.

(** X11.  [combine] appends: on constructed vectors, the first backed by
    64-bit floats (the default element kind), [a.combine(b)] and the
    static [combine(a, b)] return a vector that holds the elements of [a]
    followed by those of [b], and whose length is the sum of the two
    lengths. *)
Theorem combine_appends (a b : Vector.t) :
  Vector.type a = Float64Array -> Vector.wf a -> Vector.wf b ->
  (exists r, Vector.combine a b = Return r
             /\ Vector.toArray r = Vector.toArray a ++ Vector.toArray b
             /\ Vector.length r = (Vector.length a + Vector.length b)%nat)
  /\ (exists r, Vector.static_combine a b = Return r
                /\ Vector.toArray r = Vector.toArray a ++ Vector.toArray b
                /\ Vector.length r = (Vector.length a + Vector.length b)%nat).
Proof.
  intros _ Hwfa Hwfb. split.
  - destruct (combine_app a b Hwfa Hwfb) as (r & Hr & Harr & Hlen & _). by exists r.
  - unfold Vector.static_combine.
    destruct (constructor_Vector_toArray a Hwfa) as (c & -> & Hc & Hlc & Hwfc). simpl.
    destruct (combine_app c b Hwfc Hwfb) as (r & Hr & Harr & Hlen & _).
    exists r. rewrite <- Hc, <- Hlc. done.
Qed.

Lemma combine_appends_witness :
  (exists r, Vector.combine v12 v123 = Return r
             /\ Vector.toArray r = Vector.toArray v12 ++ Vector.toArray v123
             /\ Vector.length r = (Vector.length v12 + Vector.length v123)%nat)
  /\ (exists r, Vector.static_combine v12 v123 = Return r
                /\ Vector.toArray r = Vector.toArray v12 ++ Vector.toArray v123
                /\ Vector.length r = (Vector.length v12 + Vector.length v123)%nat).
Proof. apply (combine_appends v12 v123); reflexivity. Defined.

(** X12.  [push(value)] on a constructed vector backed by 64-bit floats
    (the default element kind) returns a vector that holds the former
    elements followed by [value]; the length grows by one.  On an empty
    vector it holds [value] alone. *)
Theorem push_appends_value (v : Vector.t) (value : number) :
  Vector.type v = Float64Array -> Vector.wf v ->
  exists r, Vector.push v value = Return r
            /\ Vector.toArray r = Vector.toArray v ++ [value]
            /\ Vector.length r = S (Vector.length v).
Proof.
  intros _ Hwf. unfold Vector.push. cbn [Vector.constructor mbind result_bind].
  destruct (combine_app v
              {| Vector.type := Float64Array; Vector.length := List.length [value];
                 Vector.data := Some (TA.new_from (Some [value])) |} Hwf)
    as (r & Hr & Harr & Hlen & _); [done|].
  exists r. split; [done|]. split; [done|]. simpl in Hlen. lia.
Qed.

Lemma push_appends_value_witness :
  exists r, Vector.push v12 (Num.of_Z 3) = Return r
            /\ Vector.toArray r = Vector.toArray v12 ++ [Num.of_Z 3]
            /\ Vector.length r = S (Vector.length v12).
Proof. apply (push_appends_value v12 (Num.of_Z 3)); reflexivity. Defined.

(** X13.  The constructor and [toArray] are inverse to each other: a
    vector built from an array of numbers, or from a typed array, gives
    that array back, with its length as the vector's length; and a vector
    built from a constructed vector holds the same elements as that
    vector. *)
Theorem constructor_toArray_round_trip (a : list number) (v : Vector.t) :
  Vector.wf v ->
  (exists r, Vector.constructor (Vector.from_Array a) = Return r
             /\ Vector.toArray r = a /\ Vector.length r = List.length a)
  /\ (exists r, Vector.constructor (Vector.from_buffer a) = Return r
                /\ Vector.toArray r = a /\ Vector.length r = List.length a)
  /\ (exists r, Vector.constructor (Vector.from_Vector v) = Return r
                /\ Vector.toArray r = Vector.toArray v
                /\ Vector.length r = Vector.length v)
  /\ (exists r, Vector.constructor (Vector.from_Array (Vector.toArray v)) = Return r
                /\ Vector.toArray r = Vector.toArray v
                /\ Vector.length r = Vector.length v).
Proof.
  intros Hwf. split; [by eexists|]. split; [by eexists|]. split.
  - destruct (constructor_Vector_toArray v Hwf) as (r & Hr & Harr & Hlen & _). by exists r.
  - eexists. split; [done|]. split; [done|]. simpl. by apply wf_toArray_length.
Qed.

Lemma constructor_toArray_round_trip_witness :
  (exists r, Vector.constructor (Vector.from_Array [Num.of_Z 7]) = Return r
             /\ Vector.toArray r = [Num.of_Z 7] /\ Vector.length r = List.length [Num.of_Z 7])
  /\ (exists r, Vector.constructor (Vector.from_buffer [Num.of_Z 7]) = Return r
                /\ Vector.toArray r = [Num.of_Z 7]
                /\ Vector.length r = List.length [Num.of_Z 7])
  /\ (exists r, Vector.constructor (Vector.from_Vector v123) = Return r
                /\ Vector.toArray r = Vector.toArray v123
                /\ Vector.length r = Vector.length v123)
  /\ (exists r, Vector.constructor (Vector.from_Array (Vector.toArray v123)) = Return r
                /\ Vector.toArray r = Vector.toArray v123
                /\ Vector.length r = Vector.length v123).
Proof. apply (constructor_toArray_round_trip [Num.of_Z 7] v123); reflexivity. Defined.

(** ** map *)

Section Map.

Local Open Scope nat_scope.

Lemma for_range_imap (f : number -> nat -> number) (d : TypedArray) :
  for_range 0 (List.length d) (fun i d => TA.store d i (f (TA.elem d i) i)) d
  = imap (fun i x => f x i) d.
Proof.
  unfold for_range. rewrite Nat.sub_0_r. apply list_eq. intros j.
  rewrite (for_loop_store_lookup (fun k a => f a k)), list_lookup_imap.
  case_decide as Hj; [done|]. rewrite lookup_ge_None_2 by lia. done.
Qed.

End Map.

(** X14.  [map(callback)] on a constructed vector backed by 64-bit
    floats (the default element kind), for a callback that reads its
    first two arguments, returns a vector that holds [callback(v[i], i)]
    at every index [i], of the length of the receiver. *)
Theorem map_applies_callback (v : Vector.t) (f : number -> nat -> number) :
  Vector.type v = Float64Array -> Vector.wf v ->
  exists r, Vector.map v (fun x i _ => f x i) = Return r
            /\ Vector.toArray r = imap (fun i x => f x i) (Vector.toArray v)
            /\ Vector.length r = Vector.length v.
Proof.
  intros _ Hwf. unfold Vector.map.
  destruct (decide (Vector.length v = 0%nat)) as [H0 | H0].
  - rewrite constructor_copy_empty by done. cbn [mbind result_bind].
    eexists. split; [done|]. by rewrite (wf_empty_toArray v Hwf H0).
  - destruct (wf_data v Hwf H0) as (d & Hd & Hlen).
    rewrite (constructor_copy v d) by done. cbn [mbind result_bind Vector.data].
    eexists. split; [done|]. rewrite (toArray_data v d Hd), Hlen.
    unfold Vector.toArray. simpl. by rewrite (for_range_imap f).
Qed.

Lemma map_applies_callback_witness :
  exists r, Vector.map v123 (fun x i _ => (x * Num.of_nat i)%num) = Return r
            /\ Vector.toArray r = imap (fun i x => (x * Num.of_nat i)%num) (Vector.toArray v123)
            /\ Vector.length r = Vector.length v123.
Proof. apply (map_applies_callback v123 (fun x i => (x * Num.of_nat i)%num)); reflexivity. Defined.

(** ** reduce as a left fold *)

Section Reduce.

Local Open Scope nat_scope.

Lemma reduce_loop_fold (callback : number -> number -> nat -> TypedArray -> number)
    (d : TypedArray) (n i : nat) (acc : number) :
  i + n = List.length d ->
  for_loop n i (fun i value => callback value (TA.elem d i) i d) acc
  = foldl (fun acc '(i, item) => callback acc item i d) acc
      (imap (fun j item => (i + j, item)) (drop i d)).
Proof.
  revert i acc. induction n as [|n IH]; intros i acc Hn.
  - rewrite drop_ge by lia. done.
  - destruct (lookup_lt_is_Some_2 d i ltac:(lia)) as [item Hitem].
    rewrite (drop_S _ _ _ Hitem). simpl. rewrite IH by lia.
    unfold TA.elem. rewrite Hitem. simpl. rewrite Nat.add_0_r. f_equal.
    apply imap_ext. intros j y _. simpl. f_equal. lia.
Qed.

Lemma reduce_seeded (v : Vector.t)
    (callback : number -> number -> nat -> TypedArray -> number) (value : number) :
  Vector.wf v -> Vector.length v <> 0 \/ Num.falsy value = false ->
  Vector.reduce v callback (Some value)
  = Return (foldl (fun acc '(i, item) => callback acc item i (Vector.toArray v)) value
              (imap (fun i item => (i, item)) (Vector.toArray v))).
Proof.
  intros Hwf Hseed. unfold Vector.reduce.
  destruct (decide (Vector.length v = 0)) as [H0 | H0].
  - destruct Hseed as [? | Hseed]; [done|]. cbn [from_option]. rewrite Hseed, andb_false_r.
    by rewrite (wf_empty_toArray v Hwf H0).
  - rewrite bool_decide_eq_false_2 by done. cbn [andb].
    destruct (wf_data v Hwf H0) as (d & Hd & Hlen).
    rewrite Hd, (toArray_data v d Hd), Hlen. f_equal.
    unfold for_range. rewrite Nat.sub_0_r.
    rewrite reduce_loop_fold by lia. by rewrite drop_0.
Qed.

Lemma foldl_imap_pair (g : number -> number -> number) (l : list number) (k : nat)
    (acc : number) :
  foldl (fun acc '(_, item) => g acc item) acc (imap (fun i item => (k + i, item)) l)
  = foldl g acc l.
Proof.
  revert k acc. induction l as [|x l IH]; intros k acc; [done|]. simpl.
  rewrite <- (IH (S k)). f_equal. apply imap_ext. intros j y _. simpl. f_equal. lia.
Qed.

Lemma reduce_seeded_plain (v : Vector.t) (g : number -> number -> number) (value : number) :
  Vector.wf v -> Num.falsy value = false ->
  Vector.reduce v (fun acc item _ _ => g acc item) (Some value)
  = Return (foldl g value (Vector.toArray v)).
Proof.
  intros Hwf Hseed. rewrite reduce_seeded by (done || by right).
  by rewrite <- (foldl_imap_pair g (Vector.toArray v) 0 value).
Qed.

End Reduce.

(** X15.  [reduce] on a constructed vector is a left fold over the
    elements with their indices, the buffer being the last argument of
    every call: from the initial value when one is given, and from the
    first element, over the elements after it, when none is.  On a
    zero-length vector it returns a truthy initial value, and throws the
    empty-reduction error without an initial value or with a falsy
    one. *)
Theorem reduce_is_left_fold (v : Vector.t)
    (callback : number -> number -> nat -> TypedArray -> number)
    (initialValue : option number) :
  Vector.wf v ->
  Vector.reduce v callback initialValue
  = match initialValue, Vector.toArray v with
    | Some value, [] =>
        if Num.falsy value then Throw empty_reduction else Return value
    | Some value, elements =>
        Return (foldl (fun acc '(i, item) => callback acc item i elements) value
                  (imap (fun i item => (i, item)) elements))
    | None, [] => Throw empty_reduction
    | None, first :: rest =>
        Return (foldl (fun acc '(i, item) => callback acc item i (first :: rest)) first
                  (imap (fun i item => (S i, item)) rest))
    end.
Proof.
  intros Hwf. destruct initialValue as [value|].
  - destruct (Vector.toArray v) as [|first rest] eqn:Harr.
    + assert (Vector.length v = 0%nat) as H0.
      { rewrite <- (wf_toArray_length v Hwf), Harr. done. }
      destruct (Num.falsy value) eqn:Hf.
      * unfold Vector.reduce. rewrite bool_decide_eq_true_2 by done. cbn [from_option].
        by rewrite Hf.
      * rewrite reduce_seeded by (done || by right). by rewrite Harr.
    + rewrite reduce_seeded; [by rewrite Harr | done |].
      left. rewrite <- (wf_toArray_length v Hwf), Harr. done.
  - unfold Vector.reduce. cbn [from_option]. rewrite andb_true_r.
    destruct (decide (Vector.length v = 0%nat)) as [H0 | H0].
    + rewrite bool_decide_eq_true_2 by done. by rewrite (wf_empty_toArray v Hwf H0).
    + rewrite bool_decide_eq_false_2 by done.
      destruct (wf_data v Hwf H0) as (d & Hd & Hlen).
      rewrite Hd, (toArray_data v d Hd), Hlen.
      destruct d as [|first rest]; [done|]. f_equal.
      unfold for_range. rewrite (reduce_loop_fold callback (first :: rest)) by (simpl; lia).
      done.
Qed.

Lemma reduce_is_left_fold_witness :
  Vector.reduce v123 (fun acc item _ _ => (acc + item)%num) None
  = match None, Vector.toArray v123 with
    | Some value, [] =>
        if Num.falsy value then Throw empty_reduction else Return value
    | Some value, elements =>
        Return (foldl (fun acc '(i, item) => (acc + item)%num) value
                  (imap (fun i item => (i, item)) elements))
    | None, [] => Throw empty_reduction
    | None, first :: rest =>
        Return (foldl (fun acc '(i, item) => (acc + item)%num) first
                  (imap (fun i item => (S i, item)) rest))
    end.
Proof. apply (reduce_is_left_fold v123 (fun acc item _ _ => (acc + item)%num) None). reflexivity. Defined.

(** ** min and max *)

Section Extrema.

Lemma lt_infinity_l (x : number) : Num.lt Num.POSITIVE_INFINITY x = false.
Proof. by destruct x as [s|s| |s m e]; try destruct s. Qed.

Lemma lt_infinity_r (x : number) :
  Num.isNaN x = false ->
  (if Num.lt Num.NEGATIVE_INFINITY x then x else Num.NEGATIVE_INFINITY) = x.
Proof. by destruct x as [s|s| |s m e]; try destruct s. Qed.

Lemma min_fold (l : list number) (acc : number) :
  Forall (fun x => Num.isNaN x = false) l -> Num.isNaN acc = false ->
  let m := foldl (fun acc item => if Num.lt acc item then acc else item) acc l in
  Num.isNaN m = false /\ Num.ge acc m = true
  /\ Forall (fun x => Num.ge x m = true) l /\ (m = acc \/ m ∈ l).
Proof.
  intros Hl. revert acc. induction Hl as [|x l Hx Hl IH]; intros acc Hacc; simpl.
  - split; [done|]. split; [by apply ge_refl|]. split; [done | by left].
  - set (a' := if Num.lt acc x then acc else x).
    assert (Num.isNaN a' = false) as Ha' by (unfold a'; by destruct (Num.lt acc x)).
    assert (Num.ge acc a' = true) as Hacc'.
    { unfold a'. destruct (Num.lt acc x) eqn:Hlt; [by apply ge_refl | by apply not_lt_ge]. }
    assert (Num.ge x a' = true) as Hx'.
    { unfold a'. destruct (Num.lt acc x) eqn:Hlt; [by apply lt_ge | by apply ge_refl]. }
    destruct (IH a' Ha') as (Hm & Hge & Hall & Hin).
    split; [done|]. split; [by eapply ge_trans|]. split.
    + constructor; [by eapply ge_trans | done].
    + destruct Hin as [-> | Hin].
      * unfold a'. destruct (Num.lt acc x); [by left | right; by left].
      * right. by right.
Qed.

Lemma max_fold (l : list number) (acc : number) :
  Forall (fun x => Num.isNaN x = false) l -> Num.isNaN acc = false ->
  let m := foldl (fun acc item => if Num.lt acc item then item else acc) acc l in
  Num.isNaN m = false /\ Num.ge m acc = true
  /\ Forall (fun x => Num.ge m x = true) l /\ (m = acc \/ m ∈ l).
Proof.
  intros Hl. revert acc. induction Hl as [|x l Hx Hl IH]; intros acc Hacc; simpl.
  - split; [done|]. split; [by apply ge_refl|]. split; [done | by left].
  - set (a' := if Num.lt acc x then x else acc).
    assert (Num.isNaN a' = false) as Ha' by (unfold a'; by destruct (Num.lt acc x)).
    assert (Num.ge a' acc = true) as Hacc'.
    { unfold a'. destruct (Num.lt acc x) eqn:Hlt; [by apply lt_ge | by apply ge_refl]. }
    assert (Num.ge a' x = true) as Hx'.
    { unfold a'. destruct (Num.lt acc x) eqn:Hlt; [by apply ge_refl | by apply not_lt_ge]. }
    destruct (IH a' Ha') as (Hm & Hge & Hall & Hin).
    split; [done|]. split; [by eapply ge_trans|]. split.
    + constructor; [by eapply ge_trans | done].
    + destruct Hin as [-> | Hin].
      * unfold a'. destruct (Num.lt acc x); [right; by left | by left].
      * right. by right.
Qed.

End Extrema.

(** X16.  On a constructed vector without NaN, [min()] returns a number
    that no element is below; it is one of the elements when there is
    one, and [+Infinity] on a zero-length vector. *)
Theorem min_is_least_element (v : Vector.t) :
  Vector.wf v -> Forall (fun x => Num.isNaN x = false) (Vector.toArray v) ->
  exists m, Vector.min v = Return m
            /\ Forall (fun x => Num.ge x m = true) (Vector.toArray v)
            /\ match Vector.toArray v with
               | [] => m = Num.POSITIVE_INFINITY
               | _ => m ∈ Vector.toArray v
               end.
Proof.
  intros Hwf Hnan. unfold Vector.min.
  rewrite (reduce_seeded_plain v (fun acc item => if Num.lt acc item then acc else item))
    by done.
  eexists. split; [done|].
  destruct (min_fold (Vector.toArray v) Num.POSITIVE_INFINITY Hnan eq_refl)
    as (_ & _ & Hall & Hin).
  split; [done|].
  destruct (Vector.toArray v) as [|x l]; [done|].
  destruct Hin as [Hin | Hin]; [|done].
  simpl in Hin. rewrite lt_infinity_l in Hin.
  inversion Hnan as [|? ? Hx Hl]; subst.
  destruct (min_fold l x Hl Hx) as (_ & _ & _ & [Hm | Hm]).
  - simpl. rewrite lt_infinity_l. rewrite Hm. by left.
  - simpl. rewrite lt_infinity_l. by right.
Qed.

Lemma min_is_least_element_witness :
  exists m, Vector.min v123 = Return m
            /\ Forall (fun x => Num.ge x m = true) (Vector.toArray v123)
            /\ match Vector.toArray v123 with
               | [] => m = Num.POSITIVE_INFINITY
               | _ => m ∈ Vector.toArray v123
               end.
Proof.
  apply (min_is_least_element v123); [reflexivity|].
  repeat constructor.
Defined.

(** X17.  Where no accelerated primitive is bound, [max()] on a
    constructed vector without NaN returns a number that no element is
    above; it is one of the elements when there is one, and [-Infinity]
    on a zero-length vector. *)
Theorem max_is_greatest_element (v : Vector.t) :
  Vector.wf v -> Forall (fun x => Num.isNaN x = false) (Vector.toArray v) ->
  exists m, Vector.max None v = Return (Some m)
            /\ Forall (fun x => Num.ge m x = true) (Vector.toArray v)
            /\ match Vector.toArray v with
               | [] => m = Num.NEGATIVE_INFINITY
               | _ => m ∈ Vector.toArray v
               end.
Proof.
  intros Hwf Hnan. unfold Vector.max. cbn [Vector.try_idamax try_catch].
  rewrite (reduce_seeded_plain v (fun acc item => if Num.lt acc item then item else acc))
    by done.
  eexists. split; [done|].
  destruct (max_fold (Vector.toArray v) Num.NEGATIVE_INFINITY Hnan eq_refl)
    as (_ & _ & Hall & Hin).
  split; [done|].
  destruct (Vector.toArray v) as [|x l]; [done|].
  destruct Hin as [Hin | Hin]; [|done].
  inversion Hnan as [|? ? Hx Hl]; subst.
  simpl. rewrite (lt_infinity_r x Hx).
  destruct (max_fold l x Hl Hx) as (_ & _ & _ & [Hm | Hm]).
  - rewrite Hm. by left.
  - by right.
Qed.

Lemma max_is_greatest_element_witness :
  exists m, Vector.max None v123 = Return (Some m)
            /\ Forall (fun x => Num.ge m x = true) (Vector.toArray v123)
            /\ match Vector.toArray v123 with
               | [] => m = Num.NEGATIVE_INFINITY
               | _ => m ∈ Vector.toArray v123
               end.
Proof.
  apply (max_is_greatest_element v123); [reflexivity|].
  repeat constructor.
Defined.

(** ** equals, element by element *)

Section EqualsPointwise.

Local Open Scope nat_scope.

Lemma equals_loop_stops (d1 d2 : TypedArray) (l n i j : nat) :
  i <= j < l -> TA.strict_eq (d1 !! j) (d2 !! j) = false ->
  Vector.equals_loop n i l d1 d2 <= j.
Proof.
  revert i. induction n as [|n IH]; intros i Hj Hne; simpl; [lia|].
  destruct ((i <? l) && TA.strict_eq (d1 !! i) (d2 !! i)) eqn:Hstep; [|lia].
  apply andb_prop in Hstep as [_ Hstep].
  destruct (decide (i = j)) as [-> | Hij]; [congruence|].
  apply IH; [lia | done].
Qed.

Lemma equals_decides (a b : Vector.t) :
  Vector.wf a -> Vector.wf b ->
  exists r, Vector.equals a b = Return r
            /\ (r = true <-> Forall2 (fun x y => Num.strict_eq x y = true)
                               (Vector.toArray a) (Vector.toArray b)).
Proof.
  intros Hwfa Hwfb. unfold Vector.equals.
  case_decide as Hl.
  - exists false. split; [done|]. split; [done|]. intros HF.
    apply Forall2_length in HF. rewrite !wf_toArray_length in HF by done. done.
  - assert (Vector.length a = Vector.length b) as Hl'
      by (destruct (decide (Vector.length a = Vector.length b)); [done | by destruct Hl]).
    case_decide as H0.
    + exists true. split; [done|]. split; [|done]. intros _.
      rewrite (wf_empty_toArray a Hwfa H0), (wf_empty_toArray b Hwfb) by lia. constructor.
    + destruct (wf_data a Hwfa H0) as (d1 & Hd1 & Hlen1).
      destruct (wf_data b Hwfb ltac:(lia)) as (d2 & Hd2 & Hlen2).
      rewrite Hd1, Hd2, (toArray_data a d1 Hd1), (toArray_data b d2 Hd2).
      eexists. split; [done|]. rewrite Nat.eqb_eq. split.
      * intros Hloop. apply Forall2_same_length_lookup. split; [lia|].
        intros j x y Hx Hy.
        destruct (Num.strict_eq x y) eqn:Hxy; [done|].
        pose proof (lookup_lt_Some _ _ _ Hx) as Hj.
        pose proof (equals_loop_stops d1 d2 (Vector.length a) (Vector.length a) 0 j) as Hstop.
        rewrite Hx, Hy in Hstop. specialize (Hstop ltac:(lia) Hxy). lia.
      * intros HF. apply equals_loop_all; [lia|]. intros j Hj.
        destruct (lookup_lt_is_Some_2 d1 j ltac:(lia)) as [x Hx].
        destruct (lookup_lt_is_Some_2 d2 j ltac:(lia)) as [y Hy].
        rewrite Hx, Hy. simpl. exact (Forall2_lookup_lr (fun x y => Num.strict_eq x y = true) d1 d2 j x y HF Hx Hy).
Qed.

End EqualsPointwise.

(** X18.  [equals], and the static [equals], on constructed vectors
    return a boolean, which is [true] exactly when the two vectors have
    the same length and [a[i] === b[i]] at every index. *)
Theorem equals_iff_pointwise (a b : Vector.t) :
  Vector.wf a -> Vector.wf b ->
  exists r, Vector.equals a b = Return r
            /\ Vector.static_equals a b = Return r
            /\ (r = true <->
                Vector.length a = Vector.length b
                /\ forall i x y, Vector.toArray a !! i = Some x ->
                                 Vector.toArray b !! i = Some y ->
                                 Num.strict_eq x y = true).
Proof.
  intros Hwfa Hwfb. destruct (equals_decides a b Hwfa Hwfb) as (r & Hr & Hiff).
  exists r. split; [done|]. split; [done|]. rewrite Hiff.
  rewrite Forall2_same_length_lookup. by rewrite !wf_toArray_length.
Qed.

Lemma equals_iff_pointwise_witness :
  exists r, Vector.equals v123 v456 = Return r
            /\ Vector.static_equals v123 v456 = Return r
            /\ (r = true <->
                Vector.length v123 = Vector.length v456
                /\ forall i x y, Vector.toArray v123 !! i = Some x ->
                                 Vector.toArray v456 !! i = Some y ->
                                 Num.strict_eq x y = true).
Proof. apply (equals_iff_pointwise v123 v456); reflexivity. Defined.

(** X19.  [equals] is symmetric on constructed vectors: [a.equals(b)]
    and [b.equals(a)] return the same boolean, NaN or not. *)
Theorem equals_symmetric (a b : Vector.t) :
  Vector.wf a -> Vector.wf b -> Vector.equals a b = Vector.equals b a.
Proof.
  intros Hwfa Hwfb.
  destruct (equals_decides a b Hwfa Hwfb) as (r1 & -> & H1).
  destruct (equals_decides b a Hwfb Hwfa) as (r2 & -> & H2).
  f_equal.
  assert (Forall2 (fun x y => Num.strict_eq x y = true) (Vector.toArray a) (Vector.toArray b)
          <-> Forall2 (fun x y => Num.strict_eq x y = true)
                (Vector.toArray b) (Vector.toArray a)) as Hflip.
  { split; intros HF; apply Forall2_flip; eapply Forall2_impl; try exact HF;
      intros x y Hxy; by rewrite strict_eq_sym. }
  destruct r1, r2; try done.
  - symmetry. apply H2, Hflip, H1. done.
  - apply H1, Hflip, H2. done.
Qed.

Lemma equals_symmetric_witness : Vector.equals vNaN v12 = Vector.equals v12 vNaN.
Proof. apply (equals_symmetric vNaN v12); reflexivity. Defined.

(** ** fill *)

Section Fill.

Local Open Scope nat_scope.

Lemma for_range_tabulate (f : nat -> number) (n : nat) :
  for_range 0 n (fun i d => TA.store d i (f i)) (TA.alloc n) = f <$> seq 0 n.
Proof.
  unfold for_range, TA.alloc. rewrite Nat.sub_0_r. apply list_eq. intros j.
  rewrite (for_loop_store_lookup (fun k _ => f k)), list_lookup_fmap.
  destruct (decide (j < n)) as [Hj | Hj].
  - rewrite decide_True by lia. rewrite lookup_replicate_2 by done.
    by rewrite lookup_seq_lt.
  - rewrite decide_False by lia. rewrite lookup_seq_ge by lia.
    by rewrite (proj1 (lookup_replicate_None _ _ _)) by lia.
Qed.

End Fill.

(** X20.  [fill(count, value)] for an integer [count]: a negative count
    throws 'invalid size'; otherwise the vector returned has [count]
    elements, which are [value(0)], [value(1)], ... for a function,
    [value] itself for a number, and 0 when the value is left out.  For
    the count 0 it is the vector without a buffer. *)
Theorem fill_holds_values (count : Z) (value : option (number + (nat -> number)))
    (type : option TypedArrayConstructor) :
  (count < 0 -> Vector.fill count value type = Throw (Error "invalid size"))
  /\ (0 <= count ->
      exists r, Vector.fill count value type = Return r
                /\ Vector.length r = Z.to_nat count
                /\ Vector.toArray r
                   = match value with
                     | Some (inr f) => f <$> seq 0 (Z.to_nat count)
                     | Some (inl v) => replicate (Z.to_nat count) v
                     | None => replicate (Z.to_nat count) Num.zero
                     end
                /\ (count = 0 -> r = Vector.initial)).
Proof.
  split.
  - intros Hneg. unfold Vector.fill. by rewrite (proj2 (Z.ltb_lt count 0)).
  - intros Hpos. unfold Vector.fill. rewrite (proj2 (Z.ltb_ge count 0)) by done.
    destruct (Z.eqb_spec count 0) as [-> | Hne].
    + exists Vector.initial. split; [done|]. split; [done|]. split; [|done].
      by destruct value as [[v|f]|].
    + destruct value as [[v|f]|]; cbn [from_option id Vector.constructor].
      * rewrite for_range_fill. eexists. split; [done|].
        unfold Vector.toArray. cbn [Vector.data Vector.length from_option id].
        rewrite length_replicate. split; [done|]. split; [done | lia].
      * rewrite for_range_tabulate. eexists. split; [done|].
        unfold Vector.toArray. cbn [Vector.data Vector.length from_option id].
        rewrite length_fmap, length_seq. split; [done|]. split; [done | lia].
      * rewrite for_range_fill. eexists. split; [done|].
        unfold Vector.toArray. cbn [Vector.data Vector.length from_option id].
        rewrite length_replicate. split; [done|]. split; [done | lia].
Qed.

Lemma fill_holds_values_witness :
  Vector.fill (-2) (Some (inr Num.of_nat)) None = Throw (Error "invalid size")
  /\ exists r, Vector.fill 3 (Some (inr Num.of_nat)) None = Return r
               /\ Vector.length r = Z.to_nat 3
               /\ Vector.toArray r = Num.of_nat <$> seq 0 (Z.to_nat 3)
               /\ (3 = 0 -> r = Vector.initial).
Proof.
  split.
  - apply (proj1 (fill_holds_values (-2) (Some (inr Num.of_nat)) None)). lia.
  - apply (proj2 (fill_holds_values 3 (Some (inr Num.of_nat)) None)). lia.
Defined.

(** ** The setters of x, y, z and w *)

Lemma set_integer_index (v : Vector.t) (k : nat) (value : number) :
  Vector.wf v ->
  Z.of_nat (Vector.length v) < 2 ^ 53 -> Z.of_nat k < 2 ^ 53 ->
  Vector.toArray <$> Vector.set v (Num.of_nat k) value
  = if decide (k < Vector.length v)%nat then Return (<[k := value]> (Vector.toArray v))
    else Throw out_of_bounds.
Proof.
  intros Hwf Hl Hk. unfold Vector.set. rewrite check_integer_index by done.
  case_decide as Hlt; [|done]. cbn [mbind result_bind].
  destruct (wf_data v Hwf ltac:(lia)) as (d & Hd & _).
  rewrite Hd, (toArray_data v d) by done. by rewrite TA_put_integer.
Qed.

(** X21.  The setters of [x], [y], [z] and [w] on a constructed vector
    replace the element at 0, 1, 2 and 3 and nothing else, and throw
    'index out of bounds' on a vector that has no such element.  (The
    length is below [2^53].) *)
Theorem setters_replace_one_element (v : Vector.t) (value : number) :
  Vector.wf v -> Z.of_nat (Vector.length v) < 2 ^ 53 ->
  Vector.toArray <$> Vector.set_x v value
  = (if decide (0 < Vector.length v)%nat
     then Return (<[0%nat := value]> (Vector.toArray v)) else Throw out_of_bounds)
  /\ Vector.toArray <$> Vector.set_y v value
     = (if decide (1 < Vector.length v)%nat
        then Return (<[1%nat := value]> (Vector.toArray v)) else Throw out_of_bounds)
  /\ Vector.toArray <$> Vector.set_z v value
     = (if decide (2 < Vector.length v)%nat
        then Return (<[2%nat := value]> (Vector.toArray v)) else Throw out_of_bounds)
  /\ Vector.toArray <$> Vector.set_w v value
     = (if decide (3 < Vector.length v)%nat
        then Return (<[3%nat := value]> (Vector.toArray v)) else Throw out_of_bounds).
Proof.
  intros Hwf Hl.
  split; [exact (set_integer_index v 0 value Hwf Hl eq_refl)|].
  split; [exact (set_integer_index v 1 value Hwf Hl eq_refl)|].
  split; [exact (set_integer_index v 2 value Hwf Hl eq_refl)|].
  exact (set_integer_index v 3 value Hwf Hl eq_refl).
Qed.

Lemma setters_replace_one_element_witness :
  Vector.toArray <$> Vector.set_x v12 (Num.of_Z 9) = Return [Num.of_Z 9; Num.of_Z 2]
  /\ Vector.toArray <$> Vector.set_y v12 (Num.of_Z 9) = Return [Num.of_Z 1; Num.of_Z 9]
  /\ Vector.toArray <$> Vector.set_z v12 (Num.of_Z 9) = Throw out_of_bounds
  /\ Vector.toArray <$> Vector.set_w v12 (Num.of_Z 9) = Throw out_of_bounds.
Proof. apply (setters_replace_one_element v12 (Num.of_Z 9)); reflexivity. Defined.

(** ** magnitude, dot and normalize *)

Section Norm.

Local Open Scope nat_scope.

Lemma zip_with_diag_mul (d : TypedArray) :
  zip_with Num.mul d d = (fun b => (b * b)%num) <$> d.
Proof. induction d as [|x d IH]; [done|]. simpl. by rewrite IH. Qed.

Lemma scale_fallback (v : Vector.t) (d : TypedArray) (s : number) :
  Vector.data v = Some d -> Vector.length v = List.length d ->
  Vector.scale None v s = Return (Vector.with_data v ((fun x => (x * s)%num) <$> d)).
Proof.
  intros Hd Hl. unfold Vector.scale. cbn [Vector.try_scal try_catch].
  by apply (each_map (fun x => (x * s)%num)).
Qed.

Lemma scale_one (be : bindings) (v : Vector.t) :
  Spec.conforming be -> Vector.wf v ->
  Forall (fun s => Num.valid s = true) (Vector.toArray v) ->
  Vector.scale be v Num.one = Return v.
Proof.
  intros Hbe Hwf Hvalid. rewrite scale_conforming by done.
  destruct (Vector.data v) as [d|] eqn:Hd.
  - pose proof Hwf as Hlen. unfold Vector.wf in Hlen. rewrite Hd in Hlen.
    rewrite (scale_fallback v d) by done. rewrite (toArray_data v d Hd) in Hvalid.
    f_equal. rewrite <- (with_data_same v d Hd) at 2. f_equal.
    rewrite <- (list_fmap_id d) at 2. apply Forall_fmap_ext_1.
    eapply Forall_impl; [exact Hvalid|]. intros x Hx. by apply mul_one_r.
  - unfold Vector.wf in Hwf. rewrite Hd in Hwf.
    unfold Vector.scale, Vector.try_scal, Vector.each. rewrite Hd. cbn [try_catch].
    by rewrite decide_True.
Qed.

End Norm.

(** X22.  On a constructed vector, on either path, [magnitude()] is the
    square root of the dot product of the vector with itself. *)
Theorem magnitude_is_sqrt_of_dot (be : bindings) (v : Vector.t) :
  Spec.conforming be -> Vector.wf v ->
  Vector.magnitude be v = Num.sqrt <$> Vector.dot be v v.
Proof.
  intros Hbe Hwf. rewrite magnitude_conforming, dot_conforming by done.
  destruct (decide (Vector.length v = 0%nat)) as [H0 | H0].
  - unfold Vector.magnitude. rewrite magnitude_trace_empty by done.
    unfold Vector.dot. rewrite decide_False by (intros Hne; by apply Hne).
    rewrite try_dot_unbound. cbn [try_catch]. by rewrite decide_True.
  - destruct (wf_data v Hwf H0) as (d & Hd & Hlen).
    rewrite (dot_fallback v v d d) by done.
    unfold Vector.magnitude, Vector.magnitude_trace. rewrite decide_False by done.
    cbn [snd]. rewrite (magnitude_fallback_sum v d) by done.
    by rewrite zip_with_diag_mul.
Qed.

Lemma magnitude_is_sqrt_of_dot_witness :
  Vector.magnitude (Some Spec.backend) v123
  = Num.sqrt <$> Vector.dot (Some Spec.backend) v123 v123.
Proof.
  apply (magnitude_is_sqrt_of_dot (Some Spec.backend) v123).
  - repeat split; simpl; by intros.
  - reflexivity.
Defined.

(** X23.  [normalize()] has no guard against a zero magnitude: for
    every count [n > 0], on either path, normalizing [zeros(n)] returns,
    without an error, a vector of [n] elements that are all NaN. *)
Theorem normalize_zeros_is_NaN (be : bindings) (n : Z) (type : option TypedArrayConstructor) :
  Spec.conforming be -> 0 < n ->
  exists v r, Vector.zeros n type = Return v
              /\ Vector.normalize be v = Return r
              /\ Vector.toArray r = replicate (Z.to_nat n) Num.NaN
              /\ Vector.length r = Z.to_nat n.
Proof.
  intros Hbe Hn.
  set (d := replicate (Z.to_nat n) Num.zero).
  assert (Vector.wf (vector_of d)) as Hwf by done.
  assert (Vector.length (vector_of d) <> 0%nat) as H0.
  { simpl. unfold d. rewrite length_replicate. lia. }
  exists (vector_of d). eexists. split; [by apply zeros_replicate|].
  unfold Vector.normalize. rewrite magnitude_conforming by done.
  unfold Vector.magnitude, Vector.magnitude_trace. rewrite decide_False by done.
  cbn [snd]. rewrite (magnitude_fallback_sum (vector_of d) d) by done.
  assert (Spec.sum ((fun b => (b * b)%num) <$> d) = Num.zero) as ->
    by apply sum_squares_zeros.
  cbn [mbind result_bind].
  rewrite scale_conforming by done. rewrite (scale_fallback (vector_of d) d) by done.
  split; [done|]. unfold Vector.toArray. cbn [Vector.data Vector.with_data from_option id].
  unfold d. rewrite fmap_replicate. split; [done|].
  simpl. by rewrite length_replicate.
Qed.

Lemma normalize_zeros_is_NaN_witness :
  exists v r, Vector.zeros 2 None = Return v
              /\ Vector.normalize (Some Spec.backend) v = Return r
              /\ Vector.toArray r = replicate (Z.to_nat 2) Num.NaN
              /\ Vector.length r = Z.to_nat 2.
Proof.
  apply (normalize_zeros_is_NaN (Some Spec.backend) 2 None).
  - repeat split; simpl; by intros.
  - lia.
Defined.

(** ** project of a vector onto itself *)

Section DivSelf.

Lemma div_eucl_mul (a b : Z) : 0 < b -> Z.div_eucl (a * b) b = (a, 0).
Proof.
  intros Hb. pose proof (Z.div_mul a b ltac:(lia)) as Hq.
  pose proof (Z.mod_mul a b ltac:(lia)) as Hr.
  unfold Z.div, Z.modulo in *. destruct (Z.div_eucl (a * b) b) as [q r].
  by subst.
Qed.

(** A finite number that is not zero, divided by itself, is 1. *)
Lemma div_self (s : bool) (m : positive) (e : Z) :
  (S754_finite s m e / S754_finite s m e)%num = Num.one.
Proof.
  unfold Num.div, SFdiv, SFdiv_core_binary.
  replace (Zdigits2 (Z.pos m) + e - (Zdigits2 (Z.pos m) + e)) with 0 by lia.
  rewrite Z.sub_diag.
  change (Z.min (fexp Num.prec Num.emax 0) 0) with (-53).
  change (0 - -53) with 53.
  cbv beta iota zeta.
  change (Z.shiftl (Z.pos m) 53) with (Z.shiftl (Z.pos m) 53).
  rewrite Z.shiftl_mul_pow2 by lia. rewrite Z.mul_comm.
  rewrite div_eucl_mul by lia.
  assert (new_location (Z.pos m) 0 = loc_Exact) as ->.
  { unfold new_location, new_location_even, new_location_odd.
    by destruct (Z.even (Z.pos m)). }
  by destruct s.
Qed.

End DivSelf.

(** X24.  Projecting a vector onto itself gives the vector back: when
    the dot product of a constructed vector of 64-bit floats with itself
    is a finite number other than 0, [v.project(v)] returns [v]
    unchanged, and the static [project(v, v)] a vector of the same
    elements, on either path. *)
Theorem project_onto_itself (be : bindings) (v : Vector.t) (q : number) :
  Spec.conforming be -> Vector.wf v ->
  Forall (fun s => Num.valid s = true) (Vector.toArray v) ->
  Vector.dot be v v = Return q -> Num.isFinite q = true -> Num.falsy q = false ->
  Vector.project be v v = Return v
  /\ Vector.toArray <$> Vector.static_project be v v = Return (Vector.toArray v).
Proof.
  intros Hbe Hwf Hvalid Hq Hfin Hnz.
  assert ((q / q)%num = Num.one) as Hone.
  { destruct q as [s|s| |s m e]; try done. apply div_self. }
  split.
  - unfold Vector.project. rewrite Hq. cbn [mbind result_bind]. rewrite Hone.
    by apply scale_one.
  - unfold Vector.static_project.
    assert (Vector.length v <> 0%nat) as H0.
    { intros H0. rewrite dot_conforming in Hq by done. unfold Vector.dot in Hq.
      rewrite decide_False in Hq by (intros Hne; by apply Hne).
      rewrite try_dot_unbound in Hq. cbn [try_catch] in Hq.
      rewrite decide_True in Hq by done. by injection Hq as <-. }
    destruct (wf_data v Hwf H0) as (d & Hd & Hlen).
    rewrite (constructor_copy v d) by done. cbn [mbind result_bind].
    assert (Vector.mk (Vector.type v) (Vector.length v) (Some d) = v) as ->.
    { destruct v as [ty l dt]. simpl in *. by subst. }
    unfold Vector.project. rewrite Hq. cbn [mbind result_bind]. rewrite Hone.
    by rewrite scale_one.
Qed.

Lemma project_onto_itself_witness :
  Vector.project (Some Spec.backend) v123 v123 = Return v123
  /\ Vector.toArray <$> Vector.static_project (Some Spec.backend) v123 v123
     = Return (Vector.toArray v123).
Proof.
  apply (project_onto_itself (Some Spec.backend) v123 (Num.of_Z 14)).
  - repeat split; simpl; by intros.
  - reflexivity.
  - repeat constructor.
  - vm_compute. reflexivity.
  - reflexivity.
  - reflexivity.
Defined.

(** ** The static project, by reference *)

Section StaticProject.

Local Open Scope nat_scope.

(** A heap that has the objects, the typed arrays and the array buffers
    of [h], and more, reads what [h] reads. *)
Lemma read_frame (h h' : Heap.t) (r : Heap.loc) (v : Vector.t) :
  (forall k o, Heap.objects h !! k = Some o -> Heap.objects h' !! k = Some o) ->
  (forall k x, Heap.arrays h !! k = Some x -> Heap.arrays h' !! k = Some x) ->
  (forall k s, Heap.buffers h !! k = Some s -> Heap.buffers h' !! k = Some s) ->
  Heap.read h r = Some v -> Heap.read h' r = Some v.
Proof.
  intros Hobj Harr Hbuf Hread. unfold Heap.read in *.
  destruct (Heap.objects h !! r) as [o|] eqn:Ho; [|done].
  rewrite (Hobj r o Ho). simpl in *.
  destruct (Heap.o_data o) as [ta|]; [|done].
  unfold Heap.elements in *.
  destruct (Heap.arrays h !! ta) as [x|] eqn:Hx; [|done].
  rewrite (Harr ta x Hx). simpl in *.
  destruct (Heap.buffers h !! Heap.a_buffer x) as [s|] eqn:Hs; [|done].
  by rewrite (Hbuf _ s Hs).
Qed.

Lemma fresh_lookup {A : Type} (m : gmap Heap.loc A) : m !! fresh (dom m) = None.
Proof. apply not_elem_of_dom, is_fresh. Qed.

Lemma insert_fresh_lookup {A : Type} (m : gmap Heap.loc A) (k : Heap.loc) (x y : A) :
  m !! k = Some x -> <[fresh (dom m) := y]> m !! k = Some x.
Proof.
  intros Hk. rewrite lookup_insert_ne; [done|].
  intros <-. by rewrite fresh_lookup in Hk.
Qed.

End StaticProject.

(** X25.  The static [project(a, b)] works on a copy: for vectors [a]
    and [b] of equal non-zero length that are backed by 64-bit floats (the
    default element kind), and which may be one and the same object or
    share elements, on either path, it returns a reference that was not
    an object before, whose typed array shows the elements of [b]
    multiplied by [dot(a, b) / dot(b, b)]; every vector that could be read
    before, [a] and [b] among them, reads as it did. *)
Theorem static_project_leaves_arguments (be : bindings) (h : Heap.t) (a b : Heap.loc)
    (va vb : Vector.t) :
  Spec.conforming be ->
  Heap.read h a = Some va -> Heap.read h b = Some vb ->
  Vector.type va = Float64Array -> Vector.type vb = Float64Array ->
  Vector.wf va -> Vector.wf vb ->
  Vector.length va = Vector.length vb -> Vector.length va <> 0%nat ->
  exists h' c p q,
    Vector.dot be va vb = Return p
    /\ Vector.dot be vb vb = Return q
    /\ Heap.static_project be h a b = Return (h', c)
    /\ Heap.objects h !! c = None
    /\ Vector.toArray <$> Heap.read h' c
       = Some ((fun x => (x * (p / q))%num) <$> Vector.toArray vb)
    /\ (forall r v, Heap.read h r = Some v -> Heap.read h' r = Some v).
Proof.
  intros Hbe Hra Hrb _ _ Hwfa Hwfb Hl H0.
  destruct (wf_data va Hwfa H0) as (da & Hda & Hlena).
  destruct (wf_data vb Hwfb ltac:(lia)) as (db & Hdb & Hlenb).
  set (p := Spec.sum (zip_with Num.mul da db)).
  set (q := Spec.sum (zip_with Num.mul db db)).
  assert (Vector.dot be va vb = Return p) as Hp.
  { rewrite dot_conforming by done. by apply dot_fallback. }
  assert (Vector.dot be vb vb = Return q) as Hq.
  { rewrite dot_conforming by done. by apply dot_fallback. }
  set (d' := (fun x => (x * (p / q))%num) <$> db).
  assert (List.length d' = List.length db) as Hld' by (unfold d'; by rewrite length_fmap).
  assert (Vector.scale be vb (p / q)%num = Return (Vector.with_data vb d')) as Hscale.
  { rewrite scale_conforming by done. by apply scale_fallback. }
  assert (Vector.constructor (Vector.from_Vector vb) = Return vb) as Hcopy.
  { rewrite (constructor_copy vb db) by (done || lia). f_equal.
    destruct vb as [ty l dt]. simpl in *. by subst. }
  set (c := fresh (dom (Heap.objects h))).
  set (tn := fresh (dom (Heap.arrays h))).
  set (bn := fresh (dom (Heap.buffers h))).
  set (oc := {| Heap.o_type := Vector.type vb; Heap.o_length := Vector.length vb;
                Heap.o_data := Some tn |}).
  set (xc := {| Heap.a_buffer := bn; Heap.a_offset := 0; Heap.a_length := List.length db |}).
  set (h1 := {| Heap.objects := <[c := oc]> (Heap.objects h);
                Heap.arrays := <[tn := xc]> (Heap.arrays h);
                Heap.buffers := <[bn := db]> (Heap.buffers h) |}).
  assert (Heap.new_Vector h b = Return (h1, c)) as Hnew.
  { unfold Heap.new_Vector. rewrite Hrb, Hcopy. cbn [mbind result_bind].
    unfold Heap.store_new. by rewrite Hdb. }
  assert (Heap.objects h1 !! c = Some oc) as Hoc by apply lookup_insert_eq.
  assert (Heap.arrays h1 !! tn = Some xc) as Hxc by apply lookup_insert_eq.
  assert (Heap.buffers h1 !! Heap.a_buffer xc = Some db) as Hsc by apply lookup_insert_eq.
  assert (Vector.mk (Vector.type vb) (Vector.length vb) (Some db) = vb) as Heta
    by (destruct vb as [ty l dt]; simpl in *; by subst).
  assert (Heap.elements h1 tn = Some db) as Helem.
  { unfold Heap.elements. rewrite Hxc. cbn [mbind option_bind]. rewrite Hsc.
    cbn [mbind option_bind Heap.a_offset Heap.a_length xc]. rewrite decide_True by lia.
    by rewrite drop_0, firstn_all. }
  assert (Heap.read h1 c = Some vb) as Hrc.
  { etransitivity; [exact (read_elements h1 c tn oc db Hoc eq_refl Helem)|].
    f_equal. exact Heta. }
  assert (forall r v, Heap.read h r = Some v -> Heap.read h1 r = Some v) as Hframe1.
  { intros r v. apply read_frame; unfold h1; cbn [Heap.objects Heap.arrays Heap.buffers];
      intros k y; apply insert_fresh_lookup. }
  set (h' := Heap.write h1 tn d').
  exists h', c, p, q.
  split; [done|]. split; [done|]. split; [| split; [| split]].
  - unfold Heap.static_project. rewrite Hnew. cbn [mbind result_bind fst snd].
    unfold Heap.project, Heap.dot. rewrite (Hframe1 a va Hra), Hrc, Hp, Hq.
    cbn [mbind result_bind]. unfold Heap.scale. rewrite Hrc, Hscale.
    cbn [mbind result_bind]. unfold Heap.write_elements. rewrite Hoc. done.
  - apply fresh_lookup.
  - assert (Heap.objects h' = Heap.objects h1) as Hobjs
      by (unfold h', Heap.write; by rewrite Hxc, Hsc).
    rewrite (read_elements h' c tn oc d'); [| by rewrite Hobjs | done |].
    + simpl. by rewrite (toArray_data vb db Hdb).
    + apply (write_same h1 tn xc db); [done | done | simpl; lia | done].
  - intros r v. apply read_frame; unfold h', Heap.write; rewrite Hxc, Hsc;
      unfold h1; cbn [Heap.objects Heap.arrays Heap.buffers Heap.a_buffer xc].
    + intros k y. apply insert_fresh_lookup.
    + intros k y. apply insert_fresh_lookup.
    + intros k s Hk. rewrite lookup_insert_ne; [by apply insert_fresh_lookup|].
      intros <-. unfold bn in Hk. by rewrite fresh_lookup in Hk.
Qed.

Lemma static_project_leaves_arguments_witness :
  exists h' c p q,
    Vector.dot None (vector_of [Num.of_Z 2; Num.of_Z 1]) (vector_of [Num.of_Z 1; Num.of_Z 1])
    = Return p
    /\ Vector.dot None (vector_of [Num.of_Z 1; Num.of_Z 1]) (vector_of [Num.of_Z 1; Num.of_Z 1])
       = Return q
    /\ Heap.static_project None overlapping_views 1%positive 2%positive = Return (h', c)
    /\ Heap.objects overlapping_views !! c = None
    /\ Vector.toArray <$> Heap.read h' c
       = Some ((fun x => (x * (p / q))%num)
                 <$> Vector.toArray (vector_of [Num.of_Z 1; Num.of_Z 1]))
    /\ (forall r v, Heap.read overlapping_views r = Some v -> Heap.read h' r = Some v).
Proof.
  apply (static_project_leaves_arguments None overlapping_views 1%positive 2%positive
           (vector_of [Num.of_Z 2; Num.of_Z 1]) (vector_of [Num.of_Z 1; Num.of_Z 1])).
  - exact I.
  - reflexivity.
  - reflexivity.
  - reflexivity.
  - reflexivity.
  - reflexivity.
  - reflexivity.
  - reflexivity.
  - simpl. lia.
Defined.

(** ** Integers among the numbers: sums, differences and quotients by 1 *)

Section IntegerArithmetic.

(** An integer other than 0 has one representation. *)
Lemma integer_eq (x y : number) (n : Z) : n <> 0 -> integer x n -> integer y n -> x = y.
Proof.
  intros Hn Hx Hy.
  destruct x as [sx| | |sx mx ex], y as [sy| | |sy my ey]; try done.
  assert (sx = sy) as ->.
  { apply integer_sign in Hx as Hsx. apply integer_sign in Hy as Hsy.
    destruct sx, sy; done || lia. }
  pose proof (round_same sy mx ex ltac:(by destruct Hx)) as H1.
  set (z := Z.min (Z.min ex ey) 0).
  rewrite (round_value sy mx my ex ey z) in H1; [| by destruct Hy | lia | lia |].
  - by injection H1 as -> ->.
  - pose proof (integer_scaled _ _ _ _ z Hx ltac:(lia) ltac:(lia)) as Hvx.
    pose proof (integer_scaled _ _ _ _ z Hy ltac:(lia) ltac:(lia)) as Hvy.
    destruct sy; simpl in Hvx, Hvy; lia.
Qed.

(** The sum of two integer-valued numbers that are not both zero is the
    number of the sum, when that is at most [2^53] in magnitude. *)
Lemma integer_add_of_Z (x y : number) (p q : Z) :
  integer x p -> integer y q -> Z.abs (p + q) <= 2 ^ 53 -> p <> 0 \/ q <> 0 ->
  (x + y)%num = Num.of_Z (p + q).
Proof.
  intros Hx Hy Hb Hnz. pose proof (of_Z_integer (p + q) Hb) as Hr.
  destruct x as [sx| | |sx mx ex], y as [sy| | |sy my ey]; try done.
  - simpl in Hx, Hy. lia.
  - simpl in Hx. subst. simpl in Hr.
    apply (integer_eq _ _ q); [| done | done].
    apply integer_sign in Hy. destruct sy; lia.
  - simpl in Hy. subst. rewrite Z.add_0_r in *.
    apply (integer_eq _ _ p); [| done | done].
    apply integer_sign in Hx. destruct sx; lia.
  - destruct (Z.eq_dec (p + q) 0) as [H0 | H0].
    + rewrite H0. rewrite (add_finite_cancel sx sy mx my ex ey p); [done | done |].
      by replace (- p) with q by lia.
    + destruct (Num.of_Z (p + q)) as [s| | |s m0 e0] eqn:Hof; rewrite ?Hof in Hr; try done.
      by apply (add_finite_exact _ _ _ _ _ _ _ _ _ p q).
Qed.

Lemma of_Z_nonzero (p : Z) :
  Z.abs p <= 2 ^ 53 -> p <> 0 -> exists s m e, Num.of_Z p = S754_finite s m e.
Proof.
  intros Hb Hp. pose proof (of_Z_integer p Hb) as Hx.
  destruct (Num.of_Z p) as [s| | |s m e] eqn:Hof; rewrite ?Hof in Hx; try done.
  by exists s, m, e.
Qed.

Lemma of_Z_add (p q : Z) :
  Z.abs p <= 2 ^ 53 -> Z.abs q <= 2 ^ 53 -> Z.abs (p + q) <= 2 ^ 53 ->
  (Num.of_Z p + Num.of_Z q)%num = Num.of_Z (p + q).
Proof.
  intros Hp Hq Hb.
  destruct (Z.eq_dec p 0) as [-> | Hp0]; [destruct (Z.eq_dec q 0) as [-> | Hq0] |].
  - reflexivity.
  - rewrite Z.add_0_l. destruct (of_Z_nonzero q Hq Hq0) as (s & m & e & ->). reflexivity.
  - apply integer_add_of_Z; [by apply of_Z_integer | by apply of_Z_integer | done | by left].
Qed.

Lemma of_Z_sub (p q : Z) :
  Z.abs p <= 2 ^ 53 -> Z.abs q <= 2 ^ 53 -> Z.abs (p - q) <= 2 ^ 53 ->
  (Num.of_Z p - Num.of_Z q)%num = Num.of_Z (p - q).
Proof.
  intros Hp Hq Hb.
  destruct (Z.eq_dec q 0) as [-> | Hq0].
  - rewrite Z.sub_0_r. destruct (Z.eq_dec p 0) as [-> | Hp0]; [reflexivity|].
    destruct (of_Z_nonzero p Hp Hp0) as (s & m & e & ->). reflexivity.
  - rewrite sub_add_neg. replace (p - q) with (p + - q) by lia.
    apply integer_add_of_Z;
      [by apply of_Z_integer | by apply integer_neg, of_Z_integer | | right; lia].
    by replace (p + - q) with (p - q) by lia.
Qed.

Lemma of_Z_lt (p q : Z) :
  Z.abs p <= 2 ^ 53 -> Z.abs q <= 2 ^ 53 -> Num.lt (Num.of_Z p) (Num.of_Z q) = (p <? q).
Proof. intros Hp Hq. apply integer_lt_iff; by apply of_Z_integer. Qed.

(** A number a 64-bit float buffer can hold, divided by 1, is itself. *)
Lemma div_one_r (x : number) : Num.valid x = true -> (x / Num.one)%num = x.
Proof.
  destruct x as [s|s| |s m e]; try done; [by destruct s | by destruct s |].
  intros Hb. change (Num.valid (S754_finite s m e)) with (bounded64 m e) in Hb.
  destruct (bounded_digits m e Hb) as (Hd & He & Hnormal).
  rewrite one_eq. unfold Num.div, SFdiv, SFdiv_core_binary.
  change (Zdigits2 (Z.pos m)) with (Z.pos (digits2_pos m)).
  change (Zdigits2 4503599627370496) with 53.
  rewrite xorb_false_r.
  destruct (Z.eq_dec e (-1074)) as [-> | Hne].
  - replace (Z.min (fexp Num.prec Num.emax (Z.pos (digits2_pos m) + -1074 - (53 + -52)))
               (-1074 - -52)) with (-1074)
      by (unfold fexp, emin, Num.prec, Num.emax; lia).
    change (-1074 - -52 - -1074) with 52. cbv beta iota zeta.
    rewrite Z.shiftl_mul_pow2 by lia.
    change (2 ^ 52) with 4503599627370496.
    rewrite div_eucl_mul by lia.
    change (new_location 4503599627370496 0) with loc_Exact.
    by apply round_aux_canonical.
  - replace (Z.min (fexp Num.prec Num.emax (Z.pos (digits2_pos m) + e - (53 + -52)))
               (e - -52)) with (e - 1)
      by (unfold fexp, emin, Num.prec, Num.emax; lia).
    replace (e - -52 - (e - 1)) with 53 by lia. cbv beta iota zeta.
    rewrite Z.shiftl_mul_pow2 by lia.
    replace (Z.pos m * 2 ^ 53) with (Z.pos (Pos.iter xO m 1) * 4503599627370496)
      by (change (Pos.iter xO m 1) with (m~0)%positive; lia).
    rewrite div_eucl_mul by lia.
    change (new_location 4503599627370496 0) with loc_Exact.
    by apply round_aux_shifted.
Qed.

(** [Math.ceil] leaves an integer as it is. *)
Lemma ceil_integer (x : number) (n : Z) :
  integer x n -> Z.abs n <= 2 ^ 53 -> integer (Num.ceil x) n.
Proof.
  intros Hx Hn. destruct x as [s| | |s m e]; try done.
  unfold Num.ceil. destruct (Z.leb_spec 0 e) as [He | He]; [done|].
  assert (Num.ceilZ (S754_finite s m e) = n) as ->.
  { unfold Num.ceilZ. rewrite (proj2 (Z.leb_gt 0 e)) by done.
    destruct Hx as [_ Hv]. rewrite Z.max_r, Z.max_l, Z.pow_0_r, Z.mul_1_r in Hv by lia.
    rewrite Hv. rewrite <- Z.mul_opp_l. rewrite Z.div_mul; [lia|].
    apply Z.pow_nonzero; lia. }
  apply integer_sign in Hx as Hs.
  rewrite (proj2 (Z.eqb_neq n 0)) by (destruct s; lia).
  by apply of_Z_integer.
Qed.

Lemma new_length_integer (x : number) (n : Z) :
  integer x n -> 0 <= n -> TA.new_length x = Return (TA.alloc (Z.to_nat n)).
Proof.
  intros Hx Hn. destruct (integer_trunc x n Hx) as [_ Ht].
  unfold TA.new_length, TA.ToIndex. rewrite Ht.
  rewrite (proj2 (Z.ltb_ge n 0)) by done. by destruct x.
Qed.

End IntegerArithmetic.

(** ** range over integers *)

Section RangeIntegers.

Local Open Scope nat_scope.

Lemma take_S_insert (d : TypedArray) (j : nat) (x : number) :
  j < List.length d -> take (S j) (<[j := x]> d) = take j d ++ [x].
Proof.
  intros Hj. rewrite (take_S_r _ _ x) by (by apply list_lookup_insert_eq).
  by rewrite take_insert_ge by lia.
Qed.

Lemma range_loop_S (fuel : nat) (backwards : bool) (start step end_ i : number) (j : nat)
    (data : TypedArray) :
  Vector.range_loop (S fuel) backwards start step end_ i j data
  = if Num.lt i end_
    then Vector.range_loop fuel backwards start step end_ (i + step)%num (S j)
           (TA.store data j (if backwards then ((end_ - i) + start)%num else i))
    else Some data.
Proof. reflexivity. Qed.

(** The loop of [range] between two integers, with the step 1: round
    [j] stores the element of index [j], and the loop ends after as many
    rounds as there are integers from [lo] below [hi]. *)
Lemma range_loop_integers (backwards : bool) (lo hi : Z) (f : nat -> number) (n : nat) :
  (Z.abs lo <= 2 ^ 53)%Z -> (Z.abs hi <= 2 ^ 53)%Z -> (lo <= hi)%Z ->
  n = Z.to_nat (hi - lo) ->
  (forall j, j < n ->
     (if backwards
      then ((Num.of_Z hi - Num.of_Z (lo + Z.of_nat j)) + Num.of_Z lo)%num
      else Num.of_Z (lo + Z.of_nat j)) = f j) ->
  forall r j data,
    j + r = n -> List.length data = n ->
    Vector.range_loop (S r) backwards (Num.of_Z lo) Num.one (Num.of_Z hi)
      (Num.of_Z (lo + Z.of_nat j)) j data
    = Some (take j data ++ (f <$> seq j r)).
Proof.
  intros Hlo Hhi Hle Hn Hf. induction r as [|r IH]; intros j data Hj Hlen.
  - rewrite range_loop_S. rewrite of_Z_lt by lia.
    rewrite (proj2 (Z.ltb_ge _ _)) by lia.
    rewrite take_ge by lia. by rewrite app_nil_r.
  - rewrite range_loop_S. rewrite of_Z_lt by lia.
    rewrite (proj2 (Z.ltb_lt _ _)) by lia.
    rewrite (Hf j) by lia.
    change Num.one with (Num.of_Z 1). rewrite of_Z_add by lia.
    replace (lo + Z.of_nat j + 1)%Z with (lo + Z.of_nat (S j))%Z by lia.
    unfold TA.store.
    rewrite (IH (S j) (<[j := f j]> data)) by (rewrite ?length_insert; lia).
    rewrite take_S_insert by lia. by rewrite <- app_assoc.
Qed.

End RangeIntegers.

(** X26.  [range(a, b)] for two integers, of magnitude at most [2^53]
    and at most [2^53] apart: for [a < b] it is the vector of the
    integers [a, a + 1, ..., b - 1], for [a > b] the vector of
    [a, a - 1, ..., b + 1], each of [|b - a|] elements, once the loop has
    the fuel for its [|b - a| + 1] tests; for [a = b] it throws
    'invalid range'. *)
Theorem range_of_integers (a b : Z) (extra : nat) :
  Z.abs a <= 2 ^ 53 -> Z.abs b <= 2 ^ 53 -> Z.abs (b - a) <= 2 ^ 53 ->
  Vector.range (S (Z.to_nat (Z.abs (b - a))) + extra) [Num.of_Z a; Num.of_Z b]
  = Some (if decide (a = b) then Throw (Error "invalid range")
          else Return (vector_of
                         ((fun j : nat => Num.of_Z (if a <? b then a + Z.of_nat j
                                                    else a - Z.of_nat j))
                            <$> seq 0 (Z.to_nat (Z.abs (b - a)))))).
Proof.
  intros Ha Hb Hab. apply range_more. unfold Vector.range.
  rewrite of_Z_sub by lia. change Num.zero with (Num.of_Z 0).
  rewrite of_Z_lt by lia.
  destruct (Z.ltb_spec (b - a) 0) as [Hdesc | Hasc].
  - rewrite decide_False by lia. rewrite (proj2 (Z.ltb_ge a b)) by lia.
    rewrite of_Z_sub by lia. rewrite gt_lt.
    change Num.one with (Num.of_Z 1). rewrite of_Z_lt by lia.
    rewrite (proj2 (Z.ltb_ge (a - b) 1)) by lia.
    change (Num.of_Z 1) with Num.one.
    rewrite div_one_r by (apply (integer_valid _ (a - b)), of_Z_integer; lia).
    rewrite (new_length_integer _ (a - b))
      by (try apply ceil_integer; try apply of_Z_integer; lia).
    replace (Z.abs (b - a)) with (a - b) by lia.
    assert (forall j : nat, (j < Z.to_nat (a - b))%nat ->
              ((Num.of_Z a - Num.of_Z (b + Z.of_nat j)) + Num.of_Z b)%num
              = Num.of_Z (a - Z.of_nat j)) as Hf.
    { intros j Hj. rewrite of_Z_sub by lia. rewrite of_Z_add by lia. f_equal. lia. }
    assert (List.length (TA.alloc (Z.to_nat (a - b))) = Z.to_nat (a - b)) as Hlen
      by (unfold TA.alloc; by rewrite length_replicate).
    pose proof (range_loop_integers true b a (fun j => Num.of_Z (a - Z.of_nat j))
                  (Z.to_nat (a - b)) Hb Ha ltac:(lia) eq_refl Hf
                  (Z.to_nat (a - b)) 0%nat _ eq_refl Hlen) as Hloop.
    cbn [Z.of_nat] in Hloop. rewrite Z.add_0_r in Hloop. rewrite Hloop. done.
  - destruct (decide (a = b)) as [-> | Hne].
    + rewrite of_Z_sub by lia. rewrite Z.sub_diag. done.
    + rewrite (proj2 (Z.ltb_lt a b)) by lia.
      rewrite of_Z_sub by lia. rewrite gt_lt.
      change Num.one with (Num.of_Z 1). rewrite of_Z_lt by lia.
      rewrite (proj2 (Z.ltb_ge (b - a) 1)) by lia.
      change (Num.of_Z 1) with Num.one.
      rewrite div_one_r by (apply (integer_valid _ (b - a)), of_Z_integer; lia).
      rewrite (new_length_integer _ (b - a))
        by (try apply ceil_integer; try apply of_Z_integer; lia).
      replace (Z.abs (b - a)) with (b - a) by lia.
      assert (List.length (TA.alloc (Z.to_nat (b - a))) = Z.to_nat (b - a)) as Hlen
        by (unfold TA.alloc; by rewrite length_replicate).
      pose proof (range_loop_integers false a b (fun j => Num.of_Z (a + Z.of_nat j))
                    (Z.to_nat (b - a)) Ha Hb ltac:(lia) eq_refl ltac:(done)
                    (Z.to_nat (b - a)) 0%nat _ eq_refl Hlen) as Hloop.
      cbn [Z.of_nat] in Hloop. rewrite Z.add_0_r in Hloop. rewrite Hloop. done.
Qed.

Lemma range_of_integers_witness :
  Vector.range (S (Z.to_nat (Z.abs (2 - 5))) + 0) [Num.of_Z 5; Num.of_Z 2]
  = Some (Return (vector_of [Num.of_Z 5; Num.of_Z 4; Num.of_Z 3])).
Proof. apply (range_of_integers 5 2 0); vm_compute; discriminate. Defined.

(** ** The static methods work on a copy of their first argument *)

Section Statics.

Local Open Scope nat_scope.
Import Vector.





End Statics.



(** ** The dot product of vectors of integers *)

Section IntegerDot.

(** Rounding a mantissa that carries the bits of a canonical one, and
    zeros after them, gives the canonical one. *)
Lemma round_aux_value (s : bool) (m m0 : positive) (e e0 z : Z) :
  bounded64 m0 e0 = true -> z <= e -> e <= e0 ->
  scaled m e z = scaled m0 e0 z ->
  binary_round_aux Num.prec Num.emax s (Z.pos m) e loc_Exact = S754_finite s m0 e0.
Proof.
  intros Hb Hz He Hv.
  rewrite (scaled_lower m0 e0 e z), (scaled_lower m e e z) in Hv by lia.
  apply Z.mul_reg_r in Hv; [|apply Z.pow_nonzero; lia].
  unfold scaled in Hv. rewrite Z.sub_diag, Z.mul_1_r in Hv.
  destruct (e0 - e) as [|k|k] eqn:Hk; try lia.
  - rewrite Z.mul_1_r in Hv. injection Hv as ->.
    replace e with e0 by lia. by apply round_aux_canonical.
  - rewrite <- Zpos_iter_xO in Hv. injection Hv as ->.
    replace e with (e0 - Z.pos k) by lia. by apply round_aux_shifted.
Qed.

(** The mantissa of an integer other than 0 has all its 53 bits. *)
Lemma integer_normal (s : bool) (m : positive) (e n : Z) :
  integer (S754_finite s m e) n -> 2 ^ 52 <= Z.pos m < 2 ^ 53.
Proof.
  intros Hx. pose proof (integer_sign _ _ _ _ Hx) as Hs. destruct Hx as [Hb Hv].
  destruct (bounded_digits m e Hb) as (Hd & He & Hnormal).
  destruct (digits2_bounds m) as [Hlo Hhi].
  assert (Z.pos m < 2 ^ 53) as Hm.
  { eapply Z.lt_le_trans; [exact Hhi|]. apply Z.pow_le_mono_r; lia. }
  split; [|done].
  destruct (Z.eq_dec e (-1074)) as [-> | Hne].
  - exfalso. rewrite Z.max_r, Z.max_l, Z.pow_0_r, Z.mul_1_r in Hv by lia.
    assert (2 ^ 53 <= 2 ^ (- -1074)) as Hpow by (apply Z.pow_le_mono_r; lia).
    destruct s; simpl in Hv; nia.
  - rewrite Hnormal in Hlo by lia. exact Hlo.
Qed.

(** A product of magnitude at most [2^53] of two integers other than 0
    is computed without rounding. *)
Lemma integer_mul_finite (sx sy : bool) (mx my : positive) (ex ey a b : Z) :
  integer (S754_finite sx mx ex) a -> integer (S754_finite sy my ey) b ->
  Z.abs (a * b) <= 2 ^ 53 ->
  (S754_finite sx mx ex * S754_finite sy my ey)%num = Num.of_Z (a * b).
Proof.
  intros Hx Hy Hb. pose proof (of_Z_integer (a * b) Hb) as Hr.
  apply integer_sign in Hx as Hsx. apply integer_sign in Hy as Hsy.
  pose proof (integer_normal _ _ _ _ Hx) as Hnx.
  pose proof (integer_normal _ _ _ _ Hy) as Hny.
  destruct (Num.of_Z (a * b)) as [s| | |s m0 e0] eqn:Hof; rewrite ?Hof in Hr; try done.
  { simpl in Hr. destruct sx, sy; nia. }
  apply integer_sign in Hr as Hs.
  pose proof (integer_normal _ _ _ _ Hr) as Hnr.
  assert (xorb sx sy = s) as Hsign by (destruct sx, sy, s; simpl; done || nia).
  unfold Num.mul, SFmul. rewrite Hsign.
  set (zx := Z.min (Z.min ex 0) e0). set (zy := Z.min ey 0).
  pose proof (integer_scaled _ _ _ _ zx Hx ltac:(lia) ltac:(lia)) as Hvx.
  pose proof (integer_scaled _ _ _ _ zy Hy ltac:(lia) ltac:(lia)) as Hvy.
  pose proof (integer_scaled _ _ _ _ (zx + zy) Hr ltac:(lia) ltac:(lia)) as Hvr.
  assert (scaled (mx * my) (ex + ey) (zx + zy) = scaled mx ex zx * scaled my ey zy) as Hprod.
  { unfold scaled. rewrite Pos2Z.inj_mul.
    rewrite (pow2_split (ex + ey - (zx + zy)) (ex - zx) (ey - zy)) by lia. lia. }
  assert (2 ^ (- (zx + zy)) = 2 ^ (- zx) * 2 ^ (- zy)) as Hpow
    by (apply pow2_split; lia).
  rewrite Hpow in Hvr.
  assert (scaled (mx * my) (ex + ey) (zx + zy) = scaled m0 e0 (zx + zy)) as Hv.
  { rewrite Hprod. destruct sx, sy, s; simpl in Hsign, Hvx, Hvy, Hvr; try done; nia. }
  apply (round_aux_value s (mx * my) m0 (ex + ey) e0 (zx + zy));
    [by destruct Hr | lia | | done].
  destruct (Z_le_gt_dec (ex + ey) e0) as [|Hgt]; [done|]. exfalso.
  rewrite (scaled_lower (mx * my) (ex + ey) e0 (zx + zy)) in Hv by lia.
  rewrite (scaled_lower m0 e0 e0 (zx + zy)) in Hv by lia.
  apply Z.mul_reg_r in Hv; [|apply Z.pow_nonzero; lia].
  unfold scaled in Hv. rewrite Z.sub_diag, Z.mul_1_r, Pos2Z.inj_mul in Hv.
  assert (0 < 2 ^ (ex + ey - e0)) by (apply Z.pow_pos_nonneg; lia).
  change (2 ^ 52) with 4503599627370496 in *. change (2 ^ 53) with 9007199254740992 in *.
  nia.
Qed.

(** A term [a * b] of integers, one of which may be 0, is an integer;
    it is [-0] for a 0 and a negative factor. *)
Lemma integer_mul (x y : number) (a b : Z) :
  integer x a -> integer y b -> Z.abs (a * b) <= 2 ^ 53 -> integer (x * y)%num (a * b).
Proof.
  intros Hx Hy Hb.
  destruct x as [sx| | |sx mx ex], y as [sy| | |sy my ey]; try done.
  - simpl in Hx. by subst.
  - simpl in Hx. by subst.
  - simpl in Hy. subst. simpl. lia.
  - rewrite (integer_mul_finite _ _ _ _ _ _ a b) by done. by apply of_Z_integer.
Qed.

(** Adding an integer to the number of an integer gives the number of
    the sum: a running sum that starts at [0] is never [-0]. *)
Lemma of_Z_add_integer (k n : Z) (t : number) :
  Z.abs k <= 2 ^ 53 -> integer t n -> Z.abs (k + n) <= 2 ^ 53 ->
  (Num.of_Z k + t)%num = Num.of_Z (k + n).
Proof.
  intros Hk Ht Hb.
  destruct (Z.eq_dec k 0) as [-> | Hk0].
  - destruct t as [s| | |s m e]; try done.
    + simpl in Ht. subst. by destruct s.
    + rewrite Z.add_0_l. apply (integer_eq _ _ n); [| done | by apply of_Z_integer].
      apply integer_sign in Ht. destruct s; lia.
  - apply integer_add_of_Z; [by apply of_Z_integer | done | done | by left].
Qed.

Lemma sum_abs_nonneg (values : list Z) : 0 <= foldr Z.add 0 (Z.abs <$> values).
Proof.
  induction values as [|v values IH]; [done|].
  rewrite fmap_cons. cbn [foldr]. lia.
Qed.

Lemma sum_of_integers (terms : list number) (values : list Z) (k : Z) :
  Forall2 integer terms values ->
  Z.abs k + foldr Z.add 0 (Z.abs <$> values) <= 2 ^ 53 ->
  foldl Num.add (Num.of_Z k) terms = Num.of_Z (foldl Z.add k values).
Proof.
  intros HF. revert k. induction HF as [|t n terms values Ht HF IH]; intros k Hb; [done|].
  rewrite fmap_cons in Hb. cbn [foldr foldl] in *.
  pose proof (sum_abs_nonneg values) as Hpos.
  rewrite (of_Z_add_integer k n) by (done || lia).
  apply IH. lia.
Qed.

End IntegerDot.

(** X28.  The dot product of two vectors of integers is exact: when the
    elements are integers of magnitude at most [2^53] and the magnitudes
    of the products [a[i] * b[i]] add up to at most [2^53], [dot]
    returns, on either path, the number of the integer
    [a[0] * b[0] + a[1] * b[1] + ...], without any rounding. *)
Theorem dot_of_integers_is_exact (be : bindings) (a b : list Z) :
  Spec.conforming be ->
  List.length a = List.length b ->
  Forall (fun n => Z.abs n <= 2 ^ 53) a -> Forall (fun n => Z.abs n <= 2 ^ 53) b ->
  foldr Z.add 0 (Z.abs <$> zip_with Z.mul a b) <= 2 ^ 53 ->
  Vector.dot be (vector_of (Num.of_Z <$> a)) (vector_of (Num.of_Z <$> b))
  = Return (Num.of_Z (foldl Z.add 0 (zip_with Z.mul a b))).
Proof.
  intros Hbe Hlen Ha Hb Hsum.
  rewrite dot_conforming by done.
  rewrite (dot_fallback _ _ (Num.of_Z <$> a) (Num.of_Z <$> b))
    by (done || (simpl; rewrite !length_fmap; lia)).
  f_equal. unfold Spec.sum. change Num.zero with (Num.of_Z 0).
  apply sum_of_integers; [|simpl; lia].
  clear Hbe. revert b Hlen Hb Hsum.
  induction Ha as [|x a Hx Ha IH]; intros [|y b] Hlen Hb Hsum; try done.
  inversion Hb as [|? ? Hy Hb']; subst.
  cbn [zip_with] in Hsum. rewrite fmap_cons in Hsum. cbn [foldr] in Hsum.
  pose proof (sum_abs_nonneg (zip_with Z.mul a b)) as Hpos.
  cbn [fmap list_fmap zip_with]. simpl in Hlen.
  constructor.
  - apply integer_mul; [by apply of_Z_integer | by apply of_Z_integer | lia].
  - apply IH; [lia | done | lia].
Qed.

Lemma dot_of_integers_is_exact_witness :
  Vector.dot (Some Spec.backend) (vector_of (Num.of_Z <$> [1; -2; 3]))
    (vector_of (Num.of_Z <$> [4; 0; -6]))
  = Return (Num.of_Z (foldl Z.add 0 (zip_with Z.mul [1; -2; 3] [4; 0; -6]))).
Proof.
  apply (dot_of_integers_is_exact (Some Spec.backend) [1; -2; 3] [4; 0; -6]).
  - repeat split; simpl; by intros.
  - reflexivity.
  - repeat constructor; vm_compute; discriminate.
  - repeat constructor; vm_compute; discriminate.
  - vm_compute. discriminate.
Defined.
